(** * Archiveopteryx (aox): protocol and delivery core

    A shallow embedding of the parts of the IMAP server, the SMTP
    server, the outbound SMTP client, the spool manager and the SASL
    PLAIN mechanism that the specification makes claims about, with the
    claims stated and settled against the embedded code. *)

From Stdlib Require Import String Ascii List Bool Arith ZArith Lia.
From Stdlib Require Import DecimalString.
Import ListNotations.

(** ** EString: byte strings

    The sources manipulate [EString] values by index.  A string is a
    list of octets; the helpers below are the members of the class that
    the embedded functions call. *)

Module EStr.

Definition EString := list ascii.

Definition lit (s : string) : EString := list_ascii_of_string s.

Definition NUL : ascii := "000"%char.
Definition CR : ascii := "013"%char.
Definition LF : ascii := "010"%char.
Definition CRLF : EString := [CR; LF].

Definition ceq (a b : ascii) : bool := Ascii.eqb a b.

Fixpoint eqb (a b : EString) : bool :=
  match a, b with
  | [], [] => true
  | x :: a', y :: b' => ceq x y && eqb a' b'
  | _, _ => false
  end.

Definition isEmpty (s : EString) : bool :=
  match s with [] => true | _ => false end.

(** Modelled from the spec: EString::operator[] (estring.h is not under
    src/).  The sources read one octet past the end of a string and
    rely on the result being 0 there. *)
Definition at_ (s : EString) (i : nat) : ascii := nth i s NUL.

(** Modelled from the spec: EString::mid( start, num ) (estring.h is
    not under src/): [num] octets from index [start], fewer when the
    string ends first. *)
Definition mid (s : EString) (start num : nat) : EString :=
  firstn num (skipn start s).

(** Modelled from the spec: EString::mid( start ) (estring.h is not
    under src/): everything from index [start]. *)
Definition mid_from (s : EString) (start : nat) : EString := skipn start s.

(** Modelled from the spec: EString::find( c ) (estring.h is not under
    src/): the index of the first [c], or -1. *)
Fixpoint find (s : EString) (c : ascii) : Z :=
  match s with
  | [] => (-1)%Z
  | x :: t =>
      if ceq x c then 0%Z
      else match find t c with
           | Zneg _ => (-1)%Z
           | r => (r + 1)%Z
           end
  end.

Definition UINT_MAX : Z := 4294967295%Z.

Definition isDigit (c : ascii) : bool :=
  (48 <=? nat_of_ascii c) && (nat_of_ascii c <=? 57).

Definition digitVal (c : ascii) : Z := Z.of_nat (nat_of_ascii c) - 48.

(** Modelled from the spec: EString::number( &ok ) (estring.h is not
    under src/): the decimal value of a non-empty string of digits that
    fits an unsigned 32-bit integer (spec 4.1: number is 0..2^32-1);
    [None] stands for ok = false. *)
Fixpoint number_from (acc : Z) (s : EString) : option Z :=
  match s with
  | [] => Some acc
  | c :: t =>
      if isDigit c then
        let v := (acc * 10 + digitVal c)%Z in
        if (v <=? UINT_MAX)%Z then number_from v t else None
      else None
  end.

Definition number (s : EString) : option Z :=
  match s with
  | [] => None
  | _ => number_from 0 s
  end.

(** Modelled from the spec: EString::endsWith (estring.h is not under
    src/). *)
Definition endsWith (s suffix : EString) : bool :=
  eqb (skipn (length s - length suffix) s) suffix
  && (length suffix <=? length s).

(** Modelled from the spec: EStringList::split( c, s ) (estringlist.h
    is not under src/): [s] cut at every occurrence of [c]; n
    separators give n+1 fields and empty fields are kept. *)
Fixpoint split_from (c : ascii) (cur s : EString) : list EString :=
  match s with
  | [] => [cur]
  | x :: t =>
      if ceq x c then cur :: split_from c [] t
      else split_from c (cur ++ [x]) t
  end.

Definition split (c : ascii) (s : EString) : list EString :=
  split_from c [] s.

End EStr.

(** ** Buffer: the read buffer of a connection *)

Module Buffer.
Import EStr.

(** Modelled from the spec: Buffer::removeLine( maxLength ) (buffer.h
    is not under src/).  Lines are CRLF-terminated (spec 4.1): the
    octets before the first CRLF are removed from the buffer and
    returned without the CRLF; no result when there is no CRLF, or,
    for a maxLength other than 0, none within the first maxLength
    octets. *)
Fixpoint removeLine_from (acc s : EString) : option (EString * EString) :=
  match s with
  | [] => None
  | c1 :: t =>
      match t with
      | [] => None
      | c2 :: rest =>
          if ceq c1 CR && ceq c2 LF then Some (acc, rest)
          else removeLine_from (acc ++ [c1]) t
      end
  end.

Definition removeLine (maxLength : nat) (s : EString)
  : option (EString * EString) :=
  match removeLine_from []
          (if maxLength =? 0 then s else firstn maxLength s) with
  | Some (line, _) => Some (line, skipn (length line + 2) s)
  | None => None
  end.

(** A line without CR or LF in it. *)
Definition noLineEnd (s : EString) : bool :=
  forallb (fun c => negb (ceq c CR || ceq c LF)) s.

End Buffer.

(** ** SASL PLAIN (src/sasl/plain.cpp) *)

Module Plain.
Import EStr.

(** SaslMechanism::State, as far as plain.cpp drives it. *)
Inductive State :=
  | AwaitingInitialResponse
  | Authenticating
  | Failed.

(** The members of SaslMechanism that Plain::parseResponse assigns,
    and whether it went on to call execute(). *)
Record Mechanism := {
  state : State;
  login : EString;
  secret : EString;
  executed : bool
}.

(** Plain::Plain *)
Definition create : Mechanism :=
  {| state := AwaitingInitialResponse; login := []; secret := [];
     executed := false |}.

(** Plain::parse.  The three reference parameters are returned next to
    the result; they keep the caller's values when the field count is
    wrong. *)
Definition parse (authorizeId authenticateId pw response : EString)
  : bool * (EString * EString * EString) :=
  match split NUL response with
  | [f1; f2; f3] =>
      let authorizeId := f1 in
      let authenticateId := f2 in
      let pw := f3 in
      if isEmpty authenticateId || isEmpty pw then
        (false, (authorizeId, authenticateId, pw))
      else
        let authorizeId :=
          if isEmpty authorizeId then authenticateId else authorizeId in
        (true, (authorizeId, authenticateId, pw))
  | _ => (false, (authorizeId, authenticateId, pw))
  end.

(** Plain::parseResponse *)
Definition parseResponse (m : Mechanism) (response : EString) : Mechanism :=
  let '(ok, (authorizeId, authenticateId, secret0)) :=
    parse [] [] [] response in
  if negb ok || negb (eqb authenticateId authorizeId) then
    {| state := Failed; login := login m; secret := secret m;
       executed := executed m |}
  else
    {| state := Authenticating; login := authenticateId;
       secret := secret0; executed := true |}.

End Plain.

(** ** The IMAP server (src/unnamed/part_001, imap.cpp) *)

(** Command, as IMAP sees it: the accessors that imap.cpp calls.
    command.h of this version is not under src/; the states are the
    five that imap.cpp names. *)
Module Command.
Import EStr.

Inductive State := Unparsed | Blocked | Executing | Finished | Retired.

Definition state_eqb (a b : State) : bool :=
  match a, b with
  | Unparsed, Unparsed | Blocked, Blocked | Executing, Executing
  | Finished, Finished | Retired, Retired => true
  | _, _ => false
  end.

Record t := {
  id : nat;            (* the object's identity *)
  tag : EString;
  name : EString;
  group : nat;
  state : State;
  usesMsn : bool;
  ok : bool
}.

Definition setState (s : State) (c : t) : t :=
  {| id := id c; tag := tag c; name := name c; group := group c;
     state := s; usesMsn := usesMsn c; ok := ok c |}.

End Command.

(** ImapResponse: the accessors that IMAP::emitResponses calls. *)
Module ImapResponse.
Import EStr.

Record t := {
  meaningful : bool;
  changesMsn : bool;
  sent : bool;
  text : EString
}.

Definition setSent (r : t) : t :=
  {| meaningful := meaningful r; changesMsn := changesMsn r;
     sent := true; text := text r |}.

End ImapResponse.

Module Imap.
Import EStr Buffer.

(** IMAP::State *)
Inductive State := NotAuthenticated | Authenticated | Selected | Logout.

(** Connection::State, as far as the modelled code sets or tests it. *)
Inductive ConnectionState := Connected | Closing.

(** IMAP::ClientCapability: the indices of IMAPData::clientCapabilities.
    imap.h is not under src/; imap.cpp names Condstore and QResync, the
    other two constructors stand for the remaining slots of the
    array. *)
Inductive ClientCapability := Condstore | Annotate | Unicode | QResync.

Definition capability_eqb (a b : ClientCapability) : bool :=
  match a, b with
  | Condstore, Condstore | Annotate, Annotate
  | Unicode, Unicode | QResync, QResync => true
  | _, _ => false
  end.

(** IMAP::ClientBug: the indices of IMAPData::clientBugs, in the order
    of clientBugMessages. *)
Inductive ClientBug := NoUnsolicitedResponses | Nat.


(** User, as far as IMAP::runCommands looks at it. *)
Record User := { inbox : bool }.

(** A timer created with new Timer( handler, delay ). *)
Inductive TimerEvent :=
  | BadBouncer (delay : Z)
  | NatDefeater (delay : Z).

(** IMAPData, together with the members of Connection and
    SaslConnection that the modelled member functions use. *)
Record IMAP := {
  maybeProxy : bool;
  state : State;
  reader : option nat;
  str : EString;
  runningCommands : bool;
  runCommandsAgain : bool;
  readingLiteral : bool;
  literalSize : Z;
  commands : list Command.t;
  responses : list ImapResponse.t;
  clientCapabilities : ClientCapability -> bool;
  clientBugs : ClientBug -> bool;
  lastBadTime : Z;
  nextOkTime : Z;
  (* Connection *)
  readBuffer : EString;
  writeBuffer : EString;
  connectionState : ConnectionState;
  realPeer : option EString;
  realSelf : option EString;
  timers : list TimerEvent;
  (* SaslConnection *)
  syntaxErrors : Z;
  user : option User
}.

(** IMAPData::IMAPData, on a fresh connection. *)
Definition create : IMAP :=
  {| maybeProxy := true; state := NotAuthenticated; reader := None;
     str := []; runningCommands := false; runCommandsAgain := false;
     readingLiteral := false; literalSize := 0; commands := [];
     responses := [];
     clientCapabilities := fun _ => false;
     clientBugs := fun _ => false;
     lastBadTime := 0; nextOkTime := 0;
     readBuffer := []; writeBuffer := []; connectionState := Connected;
     realPeer := None; realSelf := None; timers := [];
     syntaxErrors := 0; user := None |}.

Definition set_maybeProxy (v : bool) (d : IMAP) : IMAP :=
  {| maybeProxy := v; state := state d; reader := reader d; str := str d;
     runningCommands := runningCommands d;
     runCommandsAgain := runCommandsAgain d;
     readingLiteral := readingLiteral d; literalSize := literalSize d;
     commands := commands d; responses := responses d;
     clientCapabilities := clientCapabilities d; clientBugs := clientBugs d;
     lastBadTime := lastBadTime d; nextOkTime := nextOkTime d;
     readBuffer := readBuffer d; writeBuffer := writeBuffer d;
     connectionState := connectionState d;
     realPeer := realPeer d; realSelf := realSelf d; timers := timers d;
     syntaxErrors := syntaxErrors d; user := user d |}.

Definition set_reader (v : option nat) (d : IMAP) : IMAP :=
  {| maybeProxy := maybeProxy d; state := state d; reader := v; str := str d;
     runningCommands := runningCommands d;
     runCommandsAgain := runCommandsAgain d;
     readingLiteral := readingLiteral d; literalSize := literalSize d;
     commands := commands d; responses := responses d;
     clientCapabilities := clientCapabilities d; clientBugs := clientBugs d;
     lastBadTime := lastBadTime d; nextOkTime := nextOkTime d;
     readBuffer := readBuffer d; writeBuffer := writeBuffer d;
     connectionState := connectionState d;
     realPeer := realPeer d; realSelf := realSelf d; timers := timers d;
     syntaxErrors := syntaxErrors d; user := user d |}.

Definition set_str (v : EString) (d : IMAP) : IMAP :=
  {| maybeProxy := maybeProxy d; state := state d; reader := reader d;
     str := v;
     runningCommands := runningCommands d;
     runCommandsAgain := runCommandsAgain d;
     readingLiteral := readingLiteral d; literalSize := literalSize d;
     commands := commands d; responses := responses d;
     clientCapabilities := clientCapabilities d; clientBugs := clientBugs d;
     lastBadTime := lastBadTime d; nextOkTime := nextOkTime d;
     readBuffer := readBuffer d; writeBuffer := writeBuffer d;
     connectionState := connectionState d;
     realPeer := realPeer d; realSelf := realSelf d; timers := timers d;
     syntaxErrors := syntaxErrors d; user := user d |}.

Definition set_running (running again : bool) (d : IMAP) : IMAP :=
  {| maybeProxy := maybeProxy d; state := state d; reader := reader d;
     str := str d;
     runningCommands := running;
     runCommandsAgain := again;
     readingLiteral := readingLiteral d; literalSize := literalSize d;
     commands := commands d; responses := responses d;
     clientCapabilities := clientCapabilities d; clientBugs := clientBugs d;
     lastBadTime := lastBadTime d; nextOkTime := nextOkTime d;
     readBuffer := readBuffer d; writeBuffer := writeBuffer d;
     connectionState := connectionState d;
     realPeer := realPeer d; realSelf := realSelf d; timers := timers d;
     syntaxErrors := syntaxErrors d; user := user d |}.

Definition set_literal (reading : bool) (size : Z) (d : IMAP) : IMAP :=
  {| maybeProxy := maybeProxy d; state := state d; reader := reader d;
     str := str d;
     runningCommands := runningCommands d;
     runCommandsAgain := runCommandsAgain d;
     readingLiteral := reading; literalSize := size;
     commands := commands d; responses := responses d;
     clientCapabilities := clientCapabilities d; clientBugs := clientBugs d;
     lastBadTime := lastBadTime d; nextOkTime := nextOkTime d;
     readBuffer := readBuffer d; writeBuffer := writeBuffer d;
     connectionState := connectionState d;
     realPeer := realPeer d; realSelf := realSelf d; timers := timers d;
     syntaxErrors := syntaxErrors d; user := user d |}.

Definition set_commands (v : list Command.t) (d : IMAP) : IMAP :=
  {| maybeProxy := maybeProxy d; state := state d; reader := reader d;
     str := str d;
     runningCommands := runningCommands d;
     runCommandsAgain := runCommandsAgain d;
     readingLiteral := readingLiteral d; literalSize := literalSize d;
     commands := v; responses := responses d;
     clientCapabilities := clientCapabilities d; clientBugs := clientBugs d;
     lastBadTime := lastBadTime d; nextOkTime := nextOkTime d;
     readBuffer := readBuffer d; writeBuffer := writeBuffer d;
     connectionState := connectionState d;
     realPeer := realPeer d; realSelf := realSelf d; timers := timers d;
     syntaxErrors := syntaxErrors d; user := user d |}.

Definition set_responses (v : list ImapResponse.t) (d : IMAP) : IMAP :=
  {| maybeProxy := maybeProxy d; state := state d; reader := reader d;
     str := str d;
     runningCommands := runningCommands d;
     runCommandsAgain := runCommandsAgain d;
     readingLiteral := readingLiteral d; literalSize := literalSize d;
     commands := commands d; responses := v;
     clientCapabilities := clientCapabilities d; clientBugs := clientBugs d;
     lastBadTime := lastBadTime d; nextOkTime := nextOkTime d;
     readBuffer := readBuffer d; writeBuffer := writeBuffer d;
     connectionState := connectionState d;
     realPeer := realPeer d; realSelf := realSelf d; timers := timers d;
     syntaxErrors := syntaxErrors d; user := user d |}.

Definition set_clientCapabilities (v : ClientCapability -> bool) (d : IMAP)
  : IMAP :=
  {| maybeProxy := maybeProxy d; state := state d; reader := reader d;
     str := str d;
     runningCommands := runningCommands d;
     runCommandsAgain := runCommandsAgain d;
     readingLiteral := readingLiteral d; literalSize := literalSize d;
     commands := commands d; responses := responses d;
     clientCapabilities := v; clientBugs := clientBugs d;
     lastBadTime := lastBadTime d; nextOkTime := nextOkTime d;
     readBuffer := readBuffer d; writeBuffer := writeBuffer d;
     connectionState := connectionState d;
     realPeer := realPeer d; realSelf := realSelf d; timers := timers d;
     syntaxErrors := syntaxErrors d; user := user d |}.

Definition set_nextOkTime (v : Z) (d : IMAP) : IMAP :=
  {| maybeProxy := maybeProxy d; state := state d; reader := reader d;
     str := str d;
     runningCommands := runningCommands d;
     runCommandsAgain := runCommandsAgain d;
     readingLiteral := readingLiteral d; literalSize := literalSize d;
     commands := commands d; responses := responses d;
     clientCapabilities := clientCapabilities d; clientBugs := clientBugs d;
     lastBadTime := lastBadTime d; nextOkTime := v;
     readBuffer := readBuffer d; writeBuffer := writeBuffer d;
     connectionState := connectionState d;
     realPeer := realPeer d; realSelf := realSelf d; timers := timers d;
     syntaxErrors := syntaxErrors d; user := user d |}.

Definition set_readBuffer (v : EString) (d : IMAP) : IMAP :=
  {| maybeProxy := maybeProxy d; state := state d; reader := reader d;
     str := str d;
     runningCommands := runningCommands d;
     runCommandsAgain := runCommandsAgain d;
     readingLiteral := readingLiteral d; literalSize := literalSize d;
     commands := commands d; responses := responses d;
     clientCapabilities := clientCapabilities d; clientBugs := clientBugs d;
     lastBadTime := lastBadTime d; nextOkTime := nextOkTime d;
     readBuffer := v; writeBuffer := writeBuffer d;
     connectionState := connectionState d;
     realPeer := realPeer d; realSelf := realSelf d; timers := timers d;
     syntaxErrors := syntaxErrors d; user := user d |}.

Definition set_writeBuffer (v : EString) (d : IMAP) : IMAP :=
  {| maybeProxy := maybeProxy d; state := state d; reader := reader d;
     str := str d;
     runningCommands := runningCommands d;
     runCommandsAgain := runCommandsAgain d;
     readingLiteral := readingLiteral d; literalSize := literalSize d;
     commands := commands d; responses := responses d;
     clientCapabilities := clientCapabilities d; clientBugs := clientBugs d;
     lastBadTime := lastBadTime d; nextOkTime := nextOkTime d;
     readBuffer := readBuffer d; writeBuffer := v;
     connectionState := connectionState d;
     realPeer := realPeer d; realSelf := realSelf d; timers := timers d;
     syntaxErrors := syntaxErrors d; user := user d |}.

Definition set_connectionState (v : ConnectionState) (d : IMAP) : IMAP :=
  {| maybeProxy := maybeProxy d; state := state d; reader := reader d;
     str := str d;
     runningCommands := runningCommands d;
     runCommandsAgain := runCommandsAgain d;
     readingLiteral := readingLiteral d; literalSize := literalSize d;
     commands := commands d; responses := responses d;
     clientCapabilities := clientCapabilities d; clientBugs := clientBugs d;
     lastBadTime := lastBadTime d; nextOkTime := nextOkTime d;
     readBuffer := readBuffer d; writeBuffer := writeBuffer d;
     connectionState := v;
     realPeer := realPeer d; realSelf := realSelf d; timers := timers d;
     syntaxErrors := syntaxErrors d; user := user d |}.

Definition set_real (peer self : option EString) (d : IMAP) : IMAP :=
  {| maybeProxy := maybeProxy d; state := state d; reader := reader d;
     str := str d;
     runningCommands := runningCommands d;
     runCommandsAgain := runCommandsAgain d;
     readingLiteral := readingLiteral d; literalSize := literalSize d;
     commands := commands d; responses := responses d;
     clientCapabilities := clientCapabilities d; clientBugs := clientBugs d;
     lastBadTime := lastBadTime d; nextOkTime := nextOkTime d;
     readBuffer := readBuffer d; writeBuffer := writeBuffer d;
     connectionState := connectionState d;
     realPeer := peer; realSelf := self; timers := timers d;
     syntaxErrors := syntaxErrors d; user := user d |}.

Definition set_timers (v : list TimerEvent) (d : IMAP) : IMAP :=
  {| maybeProxy := maybeProxy d; state := state d; reader := reader d;
     str := str d;
     runningCommands := runningCommands d;
     runCommandsAgain := runCommandsAgain d;
     readingLiteral := readingLiteral d; literalSize := literalSize d;
     commands := commands d; responses := responses d;
     clientCapabilities := clientCapabilities d; clientBugs := clientBugs d;
     lastBadTime := lastBadTime d; nextOkTime := nextOkTime d;
     readBuffer := readBuffer d; writeBuffer := writeBuffer d;
     connectionState := connectionState d;
     realPeer := realPeer d; realSelf := realSelf d; timers := v;
     syntaxErrors := syntaxErrors d; user := user d |}.

(** Connection::enqueue *)
Definition enqueue (s : EString) (d : IMAP) : IMAP :=
  set_writeBuffer (writeBuffer d ++ s) d.

(** new Timer( handler, delay ) *)
Definition newTimer (t : TimerEvent) (d : IMAP) : IMAP :=
  set_timers (timers d ++ [t]) d.

(** The virtual member functions of Command that IMAP calls, and
    IMAP::addCommand (which builds an ImapParser and a Command, neither
    under src/).  Each is handed the identity of the command it is
    invoked on and may change the connection. *)
Record Handlers := {
  cmd_execute : nat -> IMAP -> IMAP;
  cmd_finish : nat -> IMAP -> IMAP;
  cmd_parse : nat -> IMAP -> IMAP;
  cmd_emitResponses : nat -> IMAP -> IMAP;
  cmd_checkUntaggedResponses : nat -> IMAP -> IMAP;
  cmd_read : nat -> IMAP -> IMAP;
  addCommand : IMAP -> IMAP
}.

(** IMAP::clientSupports *)
Definition clientSupports (d : IMAP) (capability : ClientCapability) : bool :=
  clientCapabilities d capability.

(** IMAP::setClientSupports *)
Definition setClientSupports (capability : ClientCapability) (d : IMAP) : IMAP :=
  let caps1 := fun c =>
    if capability_eqb c capability then true else clientCapabilities d c in
  let caps2 :=
    if capability_eqb capability QResync then
      fun c => if capability_eqb c Condstore then true else caps1 c
    else caps1 in
  set_clientCapabilities caps2 d.

(** A connection's history of setClientSupports calls, oldest first. *)
Definition setAll (calls : list ClientCapability) (d : IMAP) : IMAP :=
  fold_left (fun d c => setClientSupports c d) calls d.

(** IMAP::clientHasBug *)
Definition clientHasBug (d : IMAP) (bug : ClientBug) : bool := clientBugs d bug.

(** The loop of IMAP::commands(): leading Retired commands are shifted
    off the list. *)
Fixpoint shiftRetired (cs : list Command.t) : list Command.t :=
  match cs with
  | [] => []
  | c :: rest =>
      if Command.state_eqb (Command.state c) Command.Retired
      then shiftRetired rest
      else cs
  end.

(** IMAP::commands(): shifts, then returns d->commands. *)
Definition IMAP_commands (d : IMAP) : IMAP :=
  set_commands (shiftRetired (commands d)) d.

(** IMAP::emitResponses, first loop: are expunges permitted?  Returns
    (can, cannot). *)
Fixpoint expungeScan (cs : list Command.t) (can cannot : bool) : bool * bool :=
  match cs with
  | [] => (can, cannot)
  | c :: rest =>
      if cannot then (can, cannot)
      else if Command.state_eqb (Command.state c) Command.Executing
              && eqb (Command.name c) (lit "idle")
      then expungeScan rest true cannot
      else if Command.state_eqb (Command.state c) Command.Executing
      then expungeScan rest can true
      else if (Command.group c =? 2) || (Command.group c =? 3)
      then expungeScan rest can true
      else if Command.usesMsn c && negb (eqb (Command.name c) (lit "copy"))
      then expungeScan rest can true
      else if Command.state_eqb (Command.state c) Command.Finished
              && negb (isEmpty (Command.tag c))
      then expungeScan rest true cannot
      else expungeScan rest can cannot
  end.

(** The value of [can] after "if ( cannot ) can = false". *)
Definition canSendExpunge (cs : list Command.t) : bool :=
  let '(can, cannot) := expungeScan cs false false in
  if cannot then false else can.

(** What the second loop of IMAP::emitResponses leaves behind. *)
Record Emission := {
  kept : list ImapResponse.t;      (* d->responses afterwards *)
  written : EString;               (* appended to the write buffer *)
  any : bool;
  emitted : list ImapResponse.t    (* the responses whose text was written *)
}.

(** IMAP::emitResponses, second loop. *)
Fixpoint emitLoop (can : bool) (rs : list ImapResponse.t) (acc : Emission)
  : Emission :=
  match rs with
  | [] => acc
  | r :: rest =>
      let '(r1, acc1) :=
        if negb (ImapResponse.meaningful r) then
          (ImapResponse.setSent r, acc)
        else if negb (ImapResponse.sent r)
                && (can || negb (ImapResponse.changesMsn r)) then
          let t := ImapResponse.text r in
          let acc' :=
            if negb (isEmpty t) then
              {| kept := kept acc;
                 written := written acc ++ lit "* " ++ t ++ CRLF;
                 any := any acc;
                 emitted := emitted acc ++ [r] |}
            else acc in
          (ImapResponse.setSent r,
           {| kept := kept acc'; written := written acc'; any := true;
              emitted := emitted acc' |})
        else (r, acc) in
      let acc2 :=
        if ImapResponse.sent r1 then acc1
        else {| kept := kept acc1 ++ [r1]; written := written acc1;
                any := any acc1; emitted := emitted acc1 |} in
      emitLoop can rest acc2
  end.

Definition noEmission : Emission :=
  {| kept := []; written := []; any := false; emitted := [] |}.

(** IMAP::emitResponses, with the responses it put on the wire. *)
Definition emitResponses_run (h : Handlers) (d : IMAP)
  : IMAP * list ImapResponse.t :=
  let d := IMAP_commands d in
  if clientHasBug d NoUnsolicitedResponses
     && match commands d with [] => true | _ => false end
  then (d, [])
  else
    let can := canSendExpunge (commands d) in
    let e := emitLoop can (responses d) noEmission in
    let d := set_responses (kept e) (enqueue (written e) d) in
    if negb (any e) then (d, emitted e)
    else
      let d := IMAP_commands d in
      (fold_left (fun d c => cmd_checkUntaggedResponses h (Command.id c) d)
                 (commands d) d,
       emitted e).

(** IMAP::emitResponses *)
Definition emitResponses (h : Handlers) (d : IMAP) : IMAP :=
  fst (emitResponses_run h d).

(** *** The scheduler: IMAP::runCommands *)

(** What IMAP reads from its surroundings: ::time( 0 ) and
    EventLoop::global()->inShutdown(). *)
Record Env := {
  time : Z;
  inShutdown : bool
}.

(** Conversion to int (32 bits, two's complement) and to uint. *)
Definition to_int (z : Z) : Z :=
  ((z + 2147483648) mod 4294967296 - 2147483648)%Z.

Definition to_uint (z : Z) : Z := (z mod 4294967296)%Z.

Definition set_syntax (errors bad : Z) (d : IMAP) : IMAP :=
  {| maybeProxy := maybeProxy d; state := state d; reader := reader d;
     str := str d;
     runningCommands := runningCommands d;
     runCommandsAgain := runCommandsAgain d;
     readingLiteral := readingLiteral d; literalSize := literalSize d;
     commands := commands d; responses := responses d;
     clientCapabilities := clientCapabilities d; clientBugs := clientBugs d;
     lastBadTime := bad; nextOkTime := nextOkTime d;
     readBuffer := readBuffer d; writeBuffer := writeBuffer d;
     connectionState := connectionState d;
     realPeer := realPeer d; realSelf := realSelf d; timers := timers d;
     syntaxErrors := errors; user := user d |}.

(** IMAP::recordSyntaxError: SaslConnection counts the error, IMAP
    records the time. *)
Definition recordSyntaxError (e : Env) (d : IMAP) : IMAP :=
  set_syntax (to_uint (syntaxErrors d + 1)) (to_uint (time e)) d.

(** Handlers that leave the connection alone, for worked examples. *)
Definition quietHandlers : Handlers :=
  {| cmd_execute := fun _ d => d;
     cmd_finish := fun _ d => d;
     cmd_parse := fun _ d => d;
     cmd_emitResponses := fun _ d => d;
     cmd_checkUntaggedResponses := fun _ d => d;
     cmd_read := fun _ d => d;
     addCommand := fun d => d |}.

(** A connection at time 1000 on which three syntax errors were just
    recorded and one command waits unparsed. *)
Definition atThousand : Env := {| time := 1000; inShutdown := false |}.

Definition threeBad : IMAP :=
  let waiting :=
    {| Command.id := 4; Command.tag := lit "a4";
       Command.name := lit "noop"; Command.group := 0;
       Command.state := Command.Unparsed;
       Command.usesMsn := false; Command.ok := true |} in
  set_commands [waiting]
    (recordSyntaxError atThousand
       (recordSyntaxError atThousand
          (recordSyntaxError atThousand create))).

(** The command object with a given identity, in d->commands. *)
Definition lookupCommand (i : nat) (d : IMAP) : option Command.t :=
  List.find (fun c => Command.id c =? i) (commands d).

(** c->setState( s ) on the command with identity [i]. *)
Definition setCommandState (i : nat) (s : Command.State) (d : IMAP) : IMAP :=
  set_commands
    (map (fun c => if Command.id c =? i then Command.setState s c else c)
         (commands d))
    d.

Definition stateIs (i : nat) (s : Command.State) (d : IMAP) : bool :=
  match lookupCommand i d with
  | Some c => Command.state_eqb (Command.state c) s
  | None => false
  end.

(** "run all currently executing commands once" *)
Definition runExecuting (h : Handlers) (d : IMAP) : IMAP :=
  fold_left
    (fun d i =>
       match lookupCommand i d with
       | Some c =>
           if Command.state_eqb (Command.state c) Command.Executing then
             if Command.ok c then cmd_execute h i d else cmd_finish h i d
           else d
       | None => d
       end)
    (map Command.id (commands d)) d.

(** "emit responses for zero or more finished commands and retire
    them": the iterator starts at the first command and stops at the
    first one that is not Finished. *)
Fixpoint emitFinished (h : Handlers) (ids : list nat) (d : IMAP) : IMAP :=
  match ids with
  | [] => d
  | i :: rest =>
      if stateIs i Command.Finished d then
        let d :=
          match reader d with
          | Some r => if r =? i then set_reader None d else d
          | None => d
          end in
        emitFinished h rest (cmd_emitResponses h i d)
      else d
  end.

(** The delay that IMAP::runCommands computes before it starts
    anything new. *)
Definition delayNeeded (e : Env) (d : IMAP) : Z :=
  let delayNeeded := to_int (syntaxErrors d) in
  let delayNeeded := if (delayNeeded >? 16)%Z then 16%Z else delayNeeded in
  let delayNeeded :=
    to_int (to_int (to_int (lastBadTime d) + delayNeeded)
            - to_int (time e)) in
  let delayNeeded := if (delayNeeded <? 0)%Z then 0%Z else delayNeeded in
  match user d with
  | Some u =>
      if negb (inbox u) && (delayNeeded <? 4)%Z then 4%Z else delayNeeded
  | None => delayNeeded
  end.

(** Parse a command if it is Unparsed, then finish or start it: the
    statements runCommands applies to the first command and to each
    follower. *)
Definition promote (h : Handlers) (i : nat) (d : IMAP) : IMAP :=
  let d := if stateIs i Command.Unparsed d then cmd_parse h i d else d in
  match lookupCommand i d with
  | Some c =>
      if negb (Command.ok c) then setCommandState i Command.Finished d
      else if Command.state_eqb (Command.state c) Command.Unparsed
              || Command.state_eqb (Command.state c) Command.Blocked
      then setCommandState i Command.Executing d
      else d
  | None => d
  end.

Definition sameState (a b : nat) (d : IMAP) : bool :=
  match lookupCommand a d, lookupCommand b d with
  | Some x, Some y => Command.state_eqb (Command.state x) (Command.state y)
  | _, _ => false
  end.

Definition groupOf (i : nat) (d : IMAP) : nat :=
  match lookupCommand i d with
  | Some c => Command.group c
  | None => 0
  end.

(** "if we have a leading command, we can parse and execute followers
    in the same group": the loop, with the iterator at [i]. *)
Fixpoint followers (h : Handlers) (first : nat) (i : list nat) (d : IMAP)
  : IMAP :=
  match i with
  | [] => d
  | c :: rest =>
      if sameState first c d then
        let d := promote h c d in
        if negb (groupOf c d =? groupOf first d)
           && stateIs c Command.Executing d
        then setCommandState c Command.Blocked d
        else followers h first rest d
      else d
  end.

(** "we may be able to start new commands", and the followers. *)
Definition startCommands (h : Handlers) (d : IMAP) : IMAP :=
  match map Command.id (commands d) with
  | [] => d
  | f :: rest =>
      let '(d, first, i) :=
        if negb (stateIs f Command.Retired d) then
          let d := promote h f d in
          (d, (if stateIs f Command.Executing d then Some f else None), rest)
        else (d, Some f, f :: rest) in
      match first with
      | Some f => if negb (groupOf f d =? 0) then followers h f i d else d
      | None => d
      end
  end.

(** One turn of the loop in IMAP::runCommands: either it returns from
    the function with a BadBouncer timer armed, or it reaches the end
    of the loop body. *)
Inductive Pass :=
  | Delayed (d : IMAP)
  | Completed (d : IMAP).

(** The state in which the delay is computed: after the executing
    commands were run and the finished ones emitted. *)
Definition beforeDelay (h : Handlers) (d : IMAP) : IMAP :=
  let d := set_running (runningCommands d) false d in
  let d := runExecuting h d in
  emitFinished h (map Command.id (commands d)) d.

Definition runCommandsPass (h : Handlers) (e : Env) (d : IMAP) : Pass :=
  let d := beforeDelay h d in
  let delayNeeded := delayNeeded e d in
  if (delayNeeded >? 0)%Z
     && negb (match commands d with [] => true | _ => false end)
  then
    let d := newTimer (BadBouncer delayNeeded) d in
    Delayed (set_running false (runCommandsAgain d) d)
  else Completed (startCommands h d).

(** IMAP::restartNatDefeater *)
Definition restartNatDefeater (e : Env) (d : IMAP) : IMAP :=
  if negb (clientHasBug d Nat) then d
  else
    match state d with
    | NotAuthenticated | Logout => d
    | _ =>
        let now := to_uint (time e) in
        let next := to_uint (now + 4) in
        if (nextOkTime d >=? next)%Z && (nextOkTime d <? to_uint (now + 6))%Z
        then d
        else newTimer (NatDefeater 6) (set_nextOkTime next d)
    end.

(** The statements of IMAP::runCommands after its loop. *)
Definition afterLoop (e : Env) (d : IMAP) : IMAP :=
  let d := set_running false (runCommandsAgain d) d in
  let d :=
    set_commands
      (filter (fun c =>
                 negb (Command.state_eqb (Command.state c) Command.Retired))
              (commands d))
      d in
  match commands d with
  | [] =>
      if inShutdown e
         && match connectionState d with Connected => true | _ => false end
      then set_connectionState Closing d
      else restartNatDefeater e d
  | _ => d
  end.

(** The loop of IMAP::runCommands.  A command handler can ask for one
    more turn each time, so the number of turns is bounded by [fuel];
    [None] when that was not enough. *)
Fixpoint runCommandsLoop (h : Handlers) (e : Env) (fuel : nat) (d : IMAP)
  : option IMAP :=
  if runCommandsAgain d then
    match fuel with
    | O => None
    | S fuel =>
        match runCommandsPass h e d with
        | Delayed d => Some d
        | Completed d => runCommandsLoop h e fuel d
        end
    end
  else Some (afterLoop e d).

(** IMAP::runCommands *)
Definition runCommands (h : Handlers) (e : Env) (fuel : nat) (d : IMAP)
  : option IMAP :=
  runCommandsLoop h e fuel (set_running true true d).

(** *** Framing: IMAP::parse and its helpers *)

(** s[i], with i an unsigned int. *)
Definition atZ (s : EString) (i : Z) : ascii :=
  if (i <? Z.of_nat (length s))%Z then at_ s (Z.to_nat i) else NUL.

(** The loop of endsWithLiteral: while i > 0 and s[i] is a decimal
    digit, decrement i. *)
Fixpoint scanDigits (fuel : nat) (s : EString) (i : Z) : Z :=
  match fuel with
  | O => i
  | S fuel =>
      if (i >? 0)%Z && isDigit (atZ s i)
      then scanDigits fuel s (to_uint (i - 1))
      else i
  end.

(** endsWithLiteral( s, &n, &plus ): the result, *n and *plus.  *plus
    starts out false at the only call; *n is left at 0 here where the
    code leaves it unset or without meaning. *)
Definition endsWithLiteral (s : EString) : bool * Z * bool :=
  if negb (endsWith s (lit "}")) then (false, 0%Z, false)
  else
    let i := to_uint (Z.of_nat (length s) - 2) in
    let '(plus, i) :=
      if ceq (atZ s i) "+"%char then (true, to_uint (i - 1))
      else (false, i) in
    let j := i in
    let i := scanDigits (length s) s i in
    if negb (ceq (atZ s i) "{"%char) then (false, 0%Z, plus)
    else
      match number (mid s (Z.to_nat (to_uint (i + 1)))
                          (Z.to_nat (to_uint (j - i)))) with
      | Some n => (true, n, plus)
      | None => (false, 0%Z, plus)
      end.

(** v2sig *)
Definition v2sig : EString :=
  [CR; LF; CR; LF; NUL; CR; LF; "Q"; "U"; "I"; "T"; LF]%char.

(** sizeof( Hdr ): 12 + 1 + 1 + 2 + 216. *)
Definition sizeofHdr : nat := 232.

(** IMAP::maybeParseProxyLeader: the result and the connection.  The
    header is read out of the buffer octet by octet; the peer and self
    addresses are kept as the address octets followed by the port
    octets.  (Where the announced length is shorter than the address
    block of the family, the code reads on into what follows the
    header, or into unset memory; here the octets are whatever the
    buffer holds at those offsets.) *)
Definition maybeParseProxyLeader (d : IMAP) : bool * IMAP :=
  let r := readBuffer d in
  if negb (maybeProxy d) then (true, d)
  else if length r <? 16 then (false, d)
  else
    let n := Nat.min sizeofHdr (length r) in
    if negb (eqb (firstn 12 r) v2sig) then (true, set_maybeProxy false d)
    else
      let ver_cmd := nat_of_ascii (at_ r 12) in
      let fam := nat_of_ascii (at_ r 13) in
      if negb (Nat.land ver_cmd 240 =? 32) then (true, set_maybeProxy false d)
      else
        let size :=
          16 + (256 * nat_of_ascii (at_ r 14) + nat_of_ascii (at_ r 15)) in
        if n <? size then (false, d)
        else
          let d := set_maybeProxy false (set_readBuffer (skipn size r) d) in
          match Nat.land ver_cmd 15 with
          | 1 =>
              if fam =? 17 then
                (true, set_real (Some (mid r 16 4 ++ mid r 24 2))
                                (Some (mid r 20 4 ++ mid r 26 2)) d)
              else if fam =? 33 then
                (true, set_real (Some (mid r 16 16 ++ mid r 48 2))
                                (Some (mid r 32 16 ++ mid r 50 2)) d)
              else (true, d)
          | _ => (true, d)
          end.

(** One turn of the loop of IMAP::parse either returns from the
    function or goes round again. *)
Inductive Turn :=
  | Return (d : IMAP)
  | Again (d : IMAP).

Definition readingLine (d : IMAP) : bool :=
  negb (readingLiteral d)
  && match reader d with None => true | Some _ => false end.

(** The body of the loop of IMAP::parse.  [limit] is
    ImapParser::literalSizeLimit(). *)
Definition parseTurn (h : Handlers) (limit : Z) (d : IMAP) : Turn :=
  if readingLine d then
    match removeLine 0 (readBuffer d) with
    | None => Return d
    | Some (s, rest) =>
        let d := set_readBuffer rest d in
        let d := set_str (str d ++ s) d in
        let '(literal, n, plus) := endsWithLiteral s in
        let d :=
          if literal then
            let d := set_str (str d ++ CRLF) d in
            if (n <=? limit)%Z then
              let d := set_literal true n d in
              if negb plus then enqueue (lit "+ reading literal" ++ CRLF) d
              else d
            else d
          else d in
        let d :=
          if negb (readingLiteral d) then set_str [] (addCommand h d)
          else d in
        Again d
    end
  else if readingLiteral d then
    if (Z.of_nat (length (readBuffer d)) <? literalSize d)%Z then Return d
    else
      let k := Z.to_nat (literalSize d) in
      let d := set_str (str d ++ firstn k (readBuffer d)) d in
      let d := set_readBuffer (skipn k (readBuffer d)) d in
      Again (set_literal false (literalSize d) d)
  else
    match reader d with
    | Some i =>
        let d := cmd_read h i d in
        match reader d with
        | Some _ => Return d
        | None => Again d
        end
    | None => Again d
    end.

(** The loop of IMAP::parse; [None] when [fuel] turns were not
    enough. *)
Fixpoint parseLoop (h : Handlers) (limit : Z) (fuel : nat) (d : IMAP)
  : option IMAP :=
  match fuel with
  | O => None
  | S fuel =>
      match parseTurn h limit d with
      | Return d => Some d
      | Again d => parseLoop h limit fuel d
      end
  end.

(** IMAP::parse *)
Definition parse (h : Handlers) (limit : Z) (fuel : nat) (d : IMAP)
  : option IMAP :=
  let '(cont, d) := maybeParseProxyLeader d in
  if negb cont then Some d else parseLoop h limit fuel d.

(** Turns that always suffice for a buffer (see parse_returns). *)
Definition parseFuel (d : IMAP) : nat := 3 * length (readBuffer d) + 3.

(** Handlers as the sources use them during IMAP::parse: addCommand
    queues a command and may write to the client, Command::read
    consumes input and may release the reservation; neither puts
    octets into the read buffer nor touches the literal-reading state,
    and addCommand reserves nothing. *)
Definition framingSafe (h : Handlers) : Prop :=
  (forall d, readBuffer (addCommand h d) = readBuffer d /\
             readingLiteral (addCommand h d) = readingLiteral d /\
             reader (addCommand h d) = reader d) /\
  (forall i d, length (readBuffer (cmd_read h i d)) <= length (readBuffer d) /\
               readingLiteral (cmd_read h i d) = readingLiteral d).

(** The conditions of the scan, named: what makes a command permit
    expunges, and what makes it forbid them. *)

(** The test of the first branch of the scan: an IDLE in Executing. *)
Definition idleExecuting (c : Command.t) : bool :=
  Command.state_eqb (Command.state c) Command.Executing
  && eqb (Command.name c) (lit "idle").

(** The tests that set [cannot]. *)
Definition blocks (c : Command.t) : bool :=
  negb (idleExecuting c)
  && (Command.state_eqb (Command.state c) Command.Executing
      || ((Command.group c =? 2) || (Command.group c =? 3))
      || (Command.usesMsn c && negb (eqb (Command.name c) (lit "copy")))).

(** The tests that set [can]. *)
Definition permits (c : Command.t) : bool :=
  idleExecuting c
  || (Command.state_eqb (Command.state c) Command.Finished
      && negb (isEmpty (Command.tag c))).

(** A pipeline for worked examples: "A1 UID FETCH ..." has finished and
    awaits its tagged response, "A2 FETCH ..." is queued behind it. *)
Definition uidFetchFinished : Command.t :=
  {| Command.id := 1; Command.tag := lit "A1";
     Command.name := lit "uid fetch"; Command.group := 1;
     Command.state := Command.Finished;
     Command.usesMsn := false; Command.ok := true |}.

Definition fetchQueued : Command.t :=
  {| Command.id := 2; Command.tag := lit "A2";
     Command.name := lit "fetch"; Command.group := 2;
     Command.state := Command.Unparsed;
     Command.usesMsn := true; Command.ok := true |}.

Definition pipelinedFetches : list Command.t :=
  [uidFetchFinished; fetchQueued].

(** A connection past the PROXY check whose client has sent a LOGIN
    with a LITERAL+ user name and a synchronising password literal. *)
Definition literalPlusLogin : IMAP :=
  set_maybeProxy false
    (set_readBuffer
       (lit "A001 LOGIN {1+}" ++ CRLF ++ lit "u {4}" ++ CRLF
        ++ lit "secr" ++ CRLF)
       create).

(** A fresh connection whose client has sent 4097 octets and no line
    end. *)
Definition longLine : IMAP :=
  set_readBuffer (repeat "a"%char 4097) create.

(** A fresh connection whose client opens with a LOGIN that announces
    a synchronising literal, 13 octets in all, and waits for the
    continuation request. *)
Definition shortLiteralLogin : IMAP :=
  set_readBuffer (lit "a login {5}" ++ CRLF) create.

(** A fresh connection whose client opens with the same LOGIN under a
    longer tag, 16 octets in all, and waits for the continuation
    request. *)
Definition syncLiteralLogin : IMAP :=
  set_readBuffer (lit "A001 LOGIN {5}" ++ CRLF) create.

(** That connection once IMAP::parse has asked for the literal. *)
Definition askedForLiteral : IMAP :=
  set_writeBuffer (lit "+ reading literal" ++ CRLF)
    (set_literal true 5
       (set_str (lit "A001 LOGIN {5}" ++ CRLF)
          (set_readBuffer [] (set_maybeProxy false create)))).

(** Handlers for worked examples that show what IMAP::parse hands to
    addCommand: a command is queued whose name is the whole command
    text, d->str, as it stands at the call. *)
Definition recorder : Handlers :=
  {| cmd_execute := fun _ d => d;
     cmd_finish := fun _ d => d;
     cmd_parse := fun _ d => d;
     cmd_emitResponses := fun _ d => d;
     cmd_checkUntaggedResponses := fun _ d => d;
     cmd_read := fun _ d => d;
     addCommand := fun d =>
       set_commands
         (commands d
          ++ [ {| Command.id := length (commands d); Command.tag := [];
                  Command.name := str d; Command.group := 0;
                  Command.state := Command.Unparsed;
                  Command.usesMsn := false; Command.ok := true |} ])
         d |}.

End Imap.

(** ** The SMTP server (src/smtp/deliveryagent.cpp, second part:
    smtp.cpp) *)

Module Smtp.
Import EStr Buffer.

(** Connection::State, as far as SMTP::parseCommand sets it. *)
Inductive ConnectionState := Connected | Closing.

(** The members of SMTP and of its Connection that SMTP::parseCommand
    uses.  A command object is kept as the line it was created from
    (SmtpCommand is not under src/). *)
Record SMTP := {
  readBuffer : EString;
  writeBuffer : EString;
  connectionState : ConnectionState;
  commands : list EString
}.

(** SMTP::parseCommand *)
Definition parseCommand (d : SMTP) : SMTP :=
  match removeLine 4096 (readBuffer d) with
  | None =>
      if 4096 <? length (readBuffer d) then
        {| readBuffer := readBuffer d;
           writeBuffer :=
             writeBuffer d
             ++ lit "500 Line too long (legal maximum is 998 bytes)" ++ CRLF;
           connectionState := Closing;
           commands := commands d |}
      else d
  | Some (line, rest) =>
      {| readBuffer := rest;
         writeBuffer := writeBuffer d;
         connectionState := connectionState d;
         commands := commands d ++ [line] |}
  end.

(** Modelled from the spec: the DATA reader of the SMTP server
    (smtpdata.cpp is not under src/).  Spec 4.1: "DATA terminated by
    \r\n.\r\n and dot-stuffing on input": the body is read line by line
    up to the line that is a single '.', and a line that begins with
    '.' loses that octet.  [None] when the terminating line is
    missing. *)
Definition unstuffLine (l : EString) : EString :=
  match l with
  | c :: t => if ceq c "."%char then t else l
  | [] => l
  end.

Fixpoint undotLoop (fuel : nat) (s body : EString) : option EString :=
  match fuel with
  | O => None
  | S fuel =>
      match removeLine 0 s with
      | None => None
      | Some (line, rest) =>
          if eqb line (lit ".") then Some body
          else undotLoop fuel rest (body ++ unstuffLine line ++ CRLF)
      end
  end.

Definition undotted (s : EString) : option EString :=
  undotLoop (S (length s)) s [].

(** A connection whose client has sent 4097 octets and no line end. *)
Definition longLine : SMTP :=
  {| readBuffer := repeat "a"%char 4097; writeBuffer := [];
     connectionState := Connected; commands := [] |}.

End Smtp.

(** ** The outbound SMTP client (src/unnamed/part_003, smtpclient.cpp) *)

(** Recipient, as SmtpClient uses it (recipient.h is not under src/). *)
Module Recipient.
Import EStr.

Inductive Action := Unknown | Failed | Delayed | Relayed | Delivered | Expanded.

Definition action_eqb (a b : Action) : bool :=
  match a, b with
  | Unknown, Unknown | Failed, Failed | Delayed, Delayed
  | Relayed, Relayed | Delivered, Delivered | Expanded, Expanded => true
  | _, _ => false
  end.

Record t := {
  finalRecipient : EString;     (* finalRecipient()->lpdomain() *)
  action : Action;
  status : EString
}.

Definition setAction (a : Action) (s : EString) (r : t) : t :=
  {| finalRecipient := finalRecipient r; action := a; status := s |}.

End Recipient.

Module SmtpClient.
Import EStr.

(** SmtpClientData::State *)
Inductive State :=
  | Invalid | Connected | Banner | Hello
  | MailFrom | RcptTo | Data | Body
  | Error | Rset | Quit.

Definition state_eqb (a b : State) : bool :=
  match a, b with
  | Invalid, Invalid | Connected, Connected | Banner, Banner
  | Hello, Hello | MailFrom, MailFrom | RcptTo, RcptTo | Data, Data
  | Body, Body | Error, Error | Rset, Rset | Quit, Quit => true
  | _, _ => false
  end.

(** The DSN being sent, as SmtpClient reads it.  The Recipient objects
    are shared with the DSN's owner and with d->accepted, so they live
    in a store of their own ([recipientStore] below) and the lists hold
    their indices. *)
Record DSN := {
  recipients : list nat;
  senderNormal : bool;          (* sender()->type() == Address::Normal *)
  senderLpdomain : EString;
  rfc822 : bool -> EString;     (* message()->rfc822( avoidUtf8 ) *)
  needsUnicode : bool
}.

(** SmtpClientData and the members of Connection that the modelled
    functions use.  [rcptTo] is the list iterator: what is left of the
    recipient list from the iterator's position on, nothing when it is
    at the end or unset. *)
Record Client := {
  state : State;
  sent : EString;
  error : EString;
  dsn : option DSN;
  dottedBody : EString;              (* d->dotted *)
  owner : bool;                      (* d->owner is set *)
  notified : nat;                    (* calls of d->owner->notify() *)
  sentMail : bool;
  rcptTo : list nat;
  accepted : list nat;
  enhancedstatuscodes : bool;
  unicode : bool;
  size : bool;
  closeTimer : option Z;
  recipientStore : list Recipient.t;
  writeBuffer : EString;
  timeoutAfter : option Z;
  closed : bool
}.

(** What SmtpClient reads from its surroundings. *)
Record Env := {
  hostname : EString;                (* Configuration::hostname() *)
  isIdleClient : bool                (* idleClient() == this *)
}.

Definition set_state (v : State) (c : Client) : Client :=
  {| state := v; sent := sent c; error := error c; dsn := dsn c;
     dottedBody := dottedBody c; owner := owner c; notified := notified c;
     sentMail := sentMail c; rcptTo := rcptTo c; accepted := accepted c;
     enhancedstatuscodes := enhancedstatuscodes c; unicode := unicode c;
     size := size c; closeTimer := closeTimer c;
     recipientStore := recipientStore c; writeBuffer := writeBuffer c;
     timeoutAfter := timeoutAfter c; closed := closed c |}.

Definition set_sent (v : EString) (c : Client) : Client :=
  {| state := state c; sent := v; error := error c; dsn := dsn c;
     dottedBody := dottedBody c; owner := owner c; notified := notified c;
     sentMail := sentMail c; rcptTo := rcptTo c; accepted := accepted c;
     enhancedstatuscodes := enhancedstatuscodes c; unicode := unicode c;
     size := size c; closeTimer := closeTimer c;
     recipientStore := recipientStore c; writeBuffer := writeBuffer c;
     timeoutAfter := timeoutAfter c; closed := closed c |}.

Definition set_error (v : EString) (c : Client) : Client :=
  {| state := state c; sent := sent c; error := v; dsn := dsn c;
     dottedBody := dottedBody c; owner := owner c; notified := notified c;
     sentMail := sentMail c; rcptTo := rcptTo c; accepted := accepted c;
     enhancedstatuscodes := enhancedstatuscodes c; unicode := unicode c;
     size := size c; closeTimer := closeTimer c;
     recipientStore := recipientStore c; writeBuffer := writeBuffer c;
     timeoutAfter := timeoutAfter c; closed := closed c |}.

Definition set_dsn (v : option DSN) (c : Client) : Client :=
  {| state := state c; sent := sent c; error := error c; dsn := v;
     dottedBody := dottedBody c; owner := owner c; notified := notified c;
     sentMail := sentMail c; rcptTo := rcptTo c; accepted := accepted c;
     enhancedstatuscodes := enhancedstatuscodes c; unicode := unicode c;
     size := size c; closeTimer := closeTimer c;
     recipientStore := recipientStore c; writeBuffer := writeBuffer c;
     timeoutAfter := timeoutAfter c; closed := closed c |}.

Definition set_dottedBody (v : EString) (c : Client) : Client :=
  {| state := state c; sent := sent c; error := error c; dsn := dsn c;
     dottedBody := v; owner := owner c; notified := notified c;
     sentMail := sentMail c; rcptTo := rcptTo c; accepted := accepted c;
     enhancedstatuscodes := enhancedstatuscodes c; unicode := unicode c;
     size := size c; closeTimer := closeTimer c;
     recipientStore := recipientStore c; writeBuffer := writeBuffer c;
     timeoutAfter := timeoutAfter c; closed := closed c |}.

Definition set_owner (v : bool) (c : Client) : Client :=
  {| state := state c; sent := sent c; error := error c; dsn := dsn c;
     dottedBody := dottedBody c; owner := v; notified := notified c;
     sentMail := sentMail c; rcptTo := rcptTo c; accepted := accepted c;
     enhancedstatuscodes := enhancedstatuscodes c; unicode := unicode c;
     size := size c; closeTimer := closeTimer c;
     recipientStore := recipientStore c; writeBuffer := writeBuffer c;
     timeoutAfter := timeoutAfter c; closed := closed c |}.

Definition set_notified (v : nat) (c : Client) : Client :=
  {| state := state c; sent := sent c; error := error c; dsn := dsn c;
     dottedBody := dottedBody c; owner := owner c; notified := v;
     sentMail := sentMail c; rcptTo := rcptTo c; accepted := accepted c;
     enhancedstatuscodes := enhancedstatuscodes c; unicode := unicode c;
     size := size c; closeTimer := closeTimer c;
     recipientStore := recipientStore c; writeBuffer := writeBuffer c;
     timeoutAfter := timeoutAfter c; closed := closed c |}.

Definition set_sentMail (v : bool) (c : Client) : Client :=
  {| state := state c; sent := sent c; error := error c; dsn := dsn c;
     dottedBody := dottedBody c; owner := owner c; notified := notified c;
     sentMail := v; rcptTo := rcptTo c; accepted := accepted c;
     enhancedstatuscodes := enhancedstatuscodes c; unicode := unicode c;
     size := size c; closeTimer := closeTimer c;
     recipientStore := recipientStore c; writeBuffer := writeBuffer c;
     timeoutAfter := timeoutAfter c; closed := closed c |}.

Definition set_rcptTo (v : list nat) (c : Client) : Client :=
  {| state := state c; sent := sent c; error := error c; dsn := dsn c;
     dottedBody := dottedBody c; owner := owner c; notified := notified c;
     sentMail := sentMail c; rcptTo := v; accepted := accepted c;
     enhancedstatuscodes := enhancedstatuscodes c; unicode := unicode c;
     size := size c; closeTimer := closeTimer c;
     recipientStore := recipientStore c; writeBuffer := writeBuffer c;
     timeoutAfter := timeoutAfter c; closed := closed c |}.

Definition set_accepted (v : list nat) (c : Client) : Client :=
  {| state := state c; sent := sent c; error := error c; dsn := dsn c;
     dottedBody := dottedBody c; owner := owner c; notified := notified c;
     sentMail := sentMail c; rcptTo := rcptTo c; accepted := v;
     enhancedstatuscodes := enhancedstatuscodes c; unicode := unicode c;
     size := size c; closeTimer := closeTimer c;
     recipientStore := recipientStore c; writeBuffer := writeBuffer c;
     timeoutAfter := timeoutAfter c; closed := closed c |}.

Definition set_enhancedstatuscodes (v : bool) (c : Client) : Client :=
  {| state := state c; sent := sent c; error := error c; dsn := dsn c;
     dottedBody := dottedBody c; owner := owner c; notified := notified c;
     sentMail := sentMail c; rcptTo := rcptTo c; accepted := accepted c;
     enhancedstatuscodes := v; unicode := unicode c; size := size c;
     closeTimer := closeTimer c; recipientStore := recipientStore c;
     writeBuffer := writeBuffer c; timeoutAfter := timeoutAfter c;
     closed := closed c |}.

Definition set_unicode (v : bool) (c : Client) : Client :=
  {| state := state c; sent := sent c; error := error c; dsn := dsn c;
     dottedBody := dottedBody c; owner := owner c; notified := notified c;
     sentMail := sentMail c; rcptTo := rcptTo c; accepted := accepted c;
     enhancedstatuscodes := enhancedstatuscodes c; unicode := v;
     size := size c; closeTimer := closeTimer c;
     recipientStore := recipientStore c; writeBuffer := writeBuffer c;
     timeoutAfter := timeoutAfter c; closed := closed c |}.

Definition set_size (v : bool) (c : Client) : Client :=
  {| state := state c; sent := sent c; error := error c; dsn := dsn c;
     dottedBody := dottedBody c; owner := owner c; notified := notified c;
     sentMail := sentMail c; rcptTo := rcptTo c; accepted := accepted c;
     enhancedstatuscodes := enhancedstatuscodes c; unicode := unicode c;
     size := v; closeTimer := closeTimer c;
     recipientStore := recipientStore c; writeBuffer := writeBuffer c;
     timeoutAfter := timeoutAfter c; closed := closed c |}.

Definition set_closeTimer (v : option Z) (c : Client) : Client :=
  {| state := state c; sent := sent c; error := error c; dsn := dsn c;
     dottedBody := dottedBody c; owner := owner c; notified := notified c;
     sentMail := sentMail c; rcptTo := rcptTo c; accepted := accepted c;
     enhancedstatuscodes := enhancedstatuscodes c; unicode := unicode c;
     size := size c; closeTimer := v; recipientStore := recipientStore c;
     writeBuffer := writeBuffer c; timeoutAfter := timeoutAfter c;
     closed := closed c |}.

Definition set_recipientStore (v : list Recipient.t) (c : Client) : Client :=
  {| state := state c; sent := sent c; error := error c; dsn := dsn c;
     dottedBody := dottedBody c; owner := owner c; notified := notified c;
     sentMail := sentMail c; rcptTo := rcptTo c; accepted := accepted c;
     enhancedstatuscodes := enhancedstatuscodes c; unicode := unicode c;
     size := size c; closeTimer := closeTimer c; recipientStore := v;
     writeBuffer := writeBuffer c; timeoutAfter := timeoutAfter c;
     closed := closed c |}.

Definition set_writeBuffer (v : EString) (c : Client) : Client :=
  {| state := state c; sent := sent c; error := error c; dsn := dsn c;
     dottedBody := dottedBody c; owner := owner c; notified := notified c;
     sentMail := sentMail c; rcptTo := rcptTo c; accepted := accepted c;
     enhancedstatuscodes := enhancedstatuscodes c; unicode := unicode c;
     size := size c; closeTimer := closeTimer c;
     recipientStore := recipientStore c; writeBuffer := v;
     timeoutAfter := timeoutAfter c; closed := closed c |}.

Definition set_timeoutAfter (v : option Z) (c : Client) : Client :=
  {| state := state c; sent := sent c; error := error c; dsn := dsn c;
     dottedBody := dottedBody c; owner := owner c; notified := notified c;
     sentMail := sentMail c; rcptTo := rcptTo c; accepted := accepted c;
     enhancedstatuscodes := enhancedstatuscodes c; unicode := unicode c;
     size := size c; closeTimer := closeTimer c;
     recipientStore := recipientStore c; writeBuffer := writeBuffer c;
     timeoutAfter := v; closed := closed c |}.

Definition set_closed (v : bool) (c : Client) : Client :=
  {| state := state c; sent := sent c; error := error c; dsn := dsn c;
     dottedBody := dottedBody c; owner := owner c; notified := notified c;
     sentMail := sentMail c; rcptTo := rcptTo c; accepted := accepted c;
     enhancedstatuscodes := enhancedstatuscodes c; unicode := unicode c;
     size := size c; closeTimer := closeTimer c;
     recipientStore := recipientStore c; writeBuffer := writeBuffer c;
     timeoutAfter := timeoutAfter c; closed := v |}.

(** SmtpClient::dotted: the loop, with its variables i, sol and r. *)
Fixpoint dottedLoop (fuel : nat) (s : EString) (i : nat) (sol : bool)
    (r : EString) : EString * bool :=
  match fuel with
  | O => (r, sol)
  | S fuel =>
      if i <? length s then
        if ceq (at_ s i) CR then
          let r := r ++ CRLF in
          let i := if ceq (at_ s (i + 1)) LF then i + 1 else i in
          dottedLoop fuel s (i + 1) true r
        else if ceq (at_ s i) LF then
          dottedLoop fuel s (i + 1) true (r ++ CRLF)
        else
          let r := if sol && ceq (at_ s i) "."%char then r ++ ["."%char]
                   else r in
          dottedLoop fuel s (i + 1) false (r ++ [at_ s i])
      else (r, sol)
  end.

(** SmtpClient::dotted.  Every turn of the loop advances i, so
    s.length() turns are enough (dottedLoop_rest). *)
Definition dotted (s : EString) : EString :=
  let '(r, sol) := dottedLoop (length s) s 0 true [] in
  let r := if negb sol then r ++ CRLF else r in
  r ++ lit "." ++ CRLF.

(** The same loop by recursion on the octets that are left: what it
    appends to r, and the final value of sol. *)
Fixpoint dottedRest (s : EString) (sol : bool) : EString * bool :=
  match s with
  | [] => ([], sol)
  | c :: t =>
      if ceq c CR then
        match t with
        | [] => (CRLF, true)
        | c2 :: t' =>
            if ceq c2 LF then
              (CRLF ++ fst (dottedRest t' true), snd (dottedRest t' true))
            else
              (CRLF ++ fst (dottedRest t true), snd (dottedRest t true))
        end
      else if ceq c LF then
        (CRLF ++ fst (dottedRest t true), snd (dottedRest t true))
      else
        ((if sol && ceq c "."%char then ["."%char] else []) ++ [c]
           ++ fst (dottedRest t false),
         snd (dottedRest t false))
  end.

(** The claim's words for dotted.  The lines of s: a line ends at a
    CRLF pair, at a lone CR, at a lone LF, or, when octets are left
    over, at the end of s. *)
Fixpoint linesFrom (cur s : EString) : list EString :=
  match s with
  | [] => if isEmpty cur then [] else [cur]
  | c :: t =>
      if ceq c CR then
        match t with
        | [] => [cur]
        | c2 :: t' =>
            if ceq c2 LF then cur :: linesFrom [] t'
            else cur :: linesFrom [] t
        end
      else if ceq c LF then cur :: linesFrom [] t
      else linesFrom (cur ++ [c]) t
  end.

Definition lines (s : EString) : list EString := linesFrom [] s.

(** A line that begins with '.' gets an extra '.'. *)
Definition stuffLine (l : EString) : EString :=
  match l with
  | c :: _ => if ceq c "."%char then "."%char :: l else l
  | [] => l
  end.

(** The claim's words for dotted: every line, dot-stuffed and ended by
    CRLF, then the terminating ".CRLF". *)
Definition dottedSpec (s : EString) : EString :=
  concat (map (fun l => stuffLine l ++ CRLF) (lines s)) ++ lit "." ++ CRLF.

(** s with every line end normalised to CRLF and the last line
    ended. *)
Definition normalised (s : EString) : EString :=
  concat (map (fun l => l ++ CRLF) (lines s)).

(** No bare CR and no bare LF: every CR is followed by LF and every LF
    follows a CR. *)
Fixpoint noBare (s : EString) : bool :=
  match s with
  | [] => true
  | c :: t =>
      if ceq c CR then
        match t with
        | [] => false
        | c2 :: t' => ceq c2 LF && noBare t'
        end
      else if ceq c LF then false
      else noBare t
  end.

(** s ends with CR LF. *)
Fixpoint endsCRLF (s : EString) : bool :=
  match s with
  | [] => false
  | a :: t =>
      match t with
      | [] => false
      | b :: t' =>
          match t' with
          | [] => ceq a CR && ceq b LF
          | _ :: _ => endsCRLF t
          end
      end
  end.

(** s ends at a line boundary: it is empty or ends with CRLF. *)
Definition endsAtBoundary (s : EString) : bool :=
  isEmpty s || endsCRLF s.

(** List::isEmpty *)
Definition isEmpty_list (l : list nat) : bool :=
  match l with [] => true | _ => false end.

(** Connection::enqueue *)
Definition enqueue (s : EString) (c : Client) : Client :=
  set_writeBuffer (writeBuffer c ++ s) c.

(** fn( n ): a number in decimal (global.h is not under src/). *)
Definition fn (n : Z) : EString :=
  lit (NilZero.string_of_uint (N.to_uint (Z.to_N n))).

Fixpoint updateNth (i : nat) (f : Recipient.t -> Recipient.t)
    (l : list Recipient.t) : list Recipient.t :=
  match l, i with
  | [], _ => []
  | x :: t, O => f x :: t
  | x :: t, S i => x :: updateNth i f t
  end.

(** r->setAction( a, status ) on the Recipient object [i]. *)
Definition setAction (i : nat) (a : Recipient.Action) (status : EString)
    (c : Client) : Client :=
  set_recipientStore
    (updateNth i (Recipient.setAction a status) (recipientStore c)) c.

Definition actionIs (i : nat) (a : Recipient.Action) (c : Client) : bool :=
  match nth_error (recipientStore c) i with
  | Some r => Recipient.action_eqb (Recipient.action r) a
  | None => false
  end.

(** The loop "if ( i->action() == Recipient::Unknown ) i->setAction( a,
    status )" over a list of recipients. *)
Definition settle (a : Recipient.Action) (status : EString) (l : list nat)
    (c : Client) : Client :=
  fold_left
    (fun c i =>
       if actionIs i Recipient.Unknown c then setAction i a status c else c)
    l c.

(** SmtpClient::finish *)
Definition finish (status : EString) (c : Client) : Client :=
  let c :=
    match dsn c with
    | Some d => settle Recipient.Delayed status (recipients d) c
    | None => c
    end in
  let c := if owner c then set_notified (S (notified c)) c else c in
  set_owner false (set_dottedBody [] (set_dsn None c)).

(** "while ( d->rcptTo && d->rcptTo->action() != Recipient::Unknown )
    ++d->rcptTo" *)
Fixpoint skipHandled (it : list nat) (c : Client) : list nat :=
  match it with
  | [] => []
  | i :: rest =>
      if actionIs i Recipient.Unknown c then it else skipHandled rest c
  end.

Definition lpdomainOf (i : nat) (c : Client) : EString :=
  match nth_error (recipientStore c) i with
  | Some r => Recipient.finalRecipient r
  | None => []
  end.

(** SmtpClient::sendCommand.  The two early returns (Hello without a
    DSN, Rset) leave [send] empty, which returns as well. *)
Definition sendCommand (e : Env) (c : Client) : Client :=
  let '(send, c) :=
    match state c with
    | Invalid => ([], c)
    | Data => ([], set_state Body c)
    | Connected => ([], c)
    | Banner => (lit "ehlo " ++ hostname e, set_state Hello c)
    | Hello =>
        match dsn c with
        | None => ([], c)
        | Some m =>
            let send := lit "mail from:<" in
            let send :=
              if senderNormal m then send ++ senderLpdomain m else send in
            let send := send ++ lit ">" in
            let '(send, c) :=
              if needsUnicode m then
                (send ++ lit " smtputf8",
                 if isEmpty (dottedBody c)
                 then set_dottedBody (dotted (rfc822 m false)) c else c)
              else if isEmpty (dottedBody c) then
                (send, set_dottedBody (dotted (rfc822 m true)) c)
              else (send, c) in
            let send :=
              if size c then
                send ++ lit " size="
                     ++ fn (Z.of_nat (length (dottedBody c)))
              else send in
            (send, set_state MailFrom c)
        end
    | MailFrom | RcptTo =>
        let c :=
          if state_eqb (state c) MailFrom then
            set_state RcptTo
              (set_rcptTo
                 (match dsn c with Some m => recipients m | None => [] end)
                 c)
          else set_rcptTo (tl (rcptTo c)) c in
        let c := set_rcptTo (skipHandled (rcptTo c) c) c in
        match rcptTo c with
        | i :: _ => (lit "rcpt to:<" ++ lpdomainOf i c ++ lit ">", c)
        | [] =>
            if negb (isEmpty_list (accepted c)) then
              (lit "data", set_state Data c)
            else
              (lit "rset", set_state Rset (finish (lit "4.5.0") c))
        end
    | Body =>
        let c :=
          if negb (isEmpty_list (accepted c)) then
            settle Recipient.Relayed [] (accepted c) (set_sentMail true c)
          else c in
        (lit "rset", set_state Rset (finish (lit "4.5.0") c))
    | Rset =>
        let c := finish (lit "4.5.0") c in
        ([], set_closeTimer
               (Some (if isIdleClient e then 298%Z else 15%Z)) c)
    | Error => (lit "rset", set_state Rset (finish (lit "4.5.0") c))
    | Quit => ([], set_closed true c)
    end in
  if isEmpty send then c
  else
    set_timeoutAfter (Some 300%Z) (set_sent send (enqueue (send ++ CRLF) c)).

(** The table of enhancedStatus: the switch over the reply code. *)
Definition statusTable (response : Z) (s : State) : EString :=
  match response with
  | 211 | 214 | 220 | 221 => lit "2.0.0"
  | 250 =>
      if state_eqb s MailFrom || state_eqb s RcptTo then lit "2.1.0"
      else lit "2.0.0"
  | 251 => lit "2.1.0"
  | 252 | 354 => lit "2.0.0"
  | 421 => lit "4.3.0"
  | 450 | 451 | 452 => lit "4.2.0"
  | 500 | 501 | 502 | 503 | 504 => lit "4.3.0"
  | 550 | 551 => lit "5.2.0"
  | 552 => lit "5.3.0"
  | 553 => lit "5.2.0"
  | 554 => lit "5.0.0"
  | _ => fn (response / 100) ++ lit ".0.0"
  end%Z.

(** enhancedStatus( l, e, s ).  The characters are compared by their
    octet values; the test on l[4] holds for every octet, so this makes
    no difference. *)
Definition enhancedStatus (l : EString) (e : bool) (s : State) : EString :=
  let parsed :=
    if e
       && ((50 <=? nat_of_ascii (at_ l 4)) || (nat_of_ascii (at_ l 4) <=? 53))
       && ceq (at_ l 5) "."%char
    then
      let i := find (mid_from l 4) " "%char in
      if (i >? 5)%Z then Some (mid l 4 (Z.to_nat (i - 4))) else None
    else None in
  match parsed with
  | Some r => r
  | None =>
      match number (mid l 0 3) with
      | None => lit "4.0.0"
      | Some response =>
          if (response <? 200)%Z || (response >=? 600)%Z then lit "4.0.0"
          else statusTable response s
      end
  end.

(** SmtpClient::handleFailure *)
Definition handleFailure (e : Env) (line : EString) (c : Client) : Client :=
  let status := enhancedStatus line (enhancedstatuscodes c) (state c) in
  let permanent := ceq (at_ line 0) "5"%char in
  let a := if permanent then Recipient.Failed else Recipient.Delayed in
  let c :=
    if state_eqb (state c) RcptTo then
      match rcptTo c with
      | i :: _ => setAction i a status c
      | [] => c
      end
    else
      set_state Error
        (match dsn c with
         | Some m => settle a status (recipients m) c
         | None => c
         end) in
  sendCommand e c.

(** A client for worked examples: it has sent RCPT TO for its only
    recipient and waits for the reply; [esc] tells whether the server
    announced ENHANCEDSTATUSCODES. *)
Definition smarthost : Env :=
  {| hostname := lit "mx.example.org"; isIdleClient := true |}.

Definition oneRecipient : DSN :=
  {| recipients := [0]; senderNormal := true;
     senderLpdomain := lit "a@example.org";
     rfc822 := fun _ => lit "Subject: x" ++ CRLF ++ CRLF ++ lit "hello" ++ CRLF;
     needsUnicode := false |}.

Definition awaitingRcptReply (esc : bool) : Client :=
  {| state := RcptTo; sent := lit "rcpt to:<b@example.com>"; error := [];
     dsn := Some oneRecipient; dottedBody := []; owner := true;
     notified := 0; sentMail := false; rcptTo := [0]; accepted := [];
     enhancedstatuscodes := esc; unicode := false; size := false;
     closeTimer := None;
     recipientStore :=
       [ {| Recipient.finalRecipient := lit "b@example.com";
            Recipient.action := Recipient.Unknown;
            Recipient.status := [] |} ];
     writeBuffer := []; timeoutAfter := None; closed := false |}.

End SmtpClient.

(** ** The spool manager (src/smtp/spoolmanager.cpp) and the end of a
    delivery attempt (src/smtp/deliveryagent.cpp) *)

Module Spool.
Import EStr.
Local Open Scope Z_scope.

Definition SPOOLINTERVAL : Z := 900.
Definition UINT_MAX : Z := 4294967295.

(** *** The queue query

    The SELECT statement of SpoolManager::execute, read as a function
    of the tables.  Times are seconds since the epoch. *)

Record RecipientRow := {
  action : Recipient.Action;
  last_attempt : option Z
}.

Record Delivery := {
  message : Z;
  deliver_after : option Z;
  delivery_recipients : list RecipientRow
}.

(** A row of the result: d.message and delay. *)
Record Row := {
  row_message : Z;
  row_delay : Z
}.

(** "where (dr.action=$1 or dr.action=$2)", bound to Unknown and
    Delayed. *)
Definition pending (dr : RecipientRow) : bool :=
  match action dr with
  | Recipient.Unknown | Recipient.Delayed => true
  | _ => false
  end.

(** "coalesce(dr.last_attempt+interval '900 s', d.deliver_after,
    current_timestamp)" *)
Definition dueAt (now : Z) (d : Delivery) (dr : RecipientRow) : Z :=
  match last_attempt dr with
  | Some t => t + SPOOLINTERVAL
  | None =>
      match deliver_after d with
      | Some t => t
      | None => now
      end
  end.

Fixpoint minimum (first : Z) (rest : list Z) : Z :=
  match rest with
  | [] => first
  | x :: rest => Z.min first (minimum x rest)
  end.

(** The row for one delivery, when a recipient of it is pending:
    "extract(epoch from min(...)) - extract(epoch from
    current_timestamp) as delay". *)
Definition queueRow (now : Z) (d : Delivery) : option Row :=
  match map (dueAt now d) (filter pending (delivery_recipients d)) with
  | [] => None
  | x :: rest =>
      Some {| row_message := message d; row_delay := minimum x rest - now |}
  end.

(** *** The manager *)

(** Query, as SpoolManager uses it: done(), and the rows that
    hasResults()/nextRow() hand out. *)
Record Query := {
  done : bool;
  results : list Row
}.

(** DeliveryAgent, as SpoolManager uses it (the agent of this version
    is not under src/). *)
Record DeliveryAgent := {
  messageId : Z;
  working : bool
}.

(** What the manager does to the event loop and the database. *)
Inductive Effect :=
  | NewQuery (have : list Z)
  | AgentTimer (message delay : Z)     (* new Timer( a, delay ) *)
  | NewTimer (delay : Z)               (* d->t = new Timer( this, delay ) *)
  | DeleteTimer.                       (* delete d->t, d->t not null *)

(** SpoolManagerData, with a record of what the manager did. *)
Record SpoolManager := {
  q : option Query;
  t : option Z;
  agents : list DeliveryAgent;
  again : bool;
  effects : list Effect
}.

(** SpoolManager::SpoolManager *)
Definition create : SpoolManager :=
  {| q := None; t := None; agents := []; again := false; effects := [] |}.

Definition set_q (v : option Query) (m : SpoolManager) : SpoolManager :=
  {| q := v; t := t m; agents := agents m; again := again m;
     effects := effects m |}.

Definition set_t (v : option Z) (m : SpoolManager) : SpoolManager :=
  {| q := q m; t := v; agents := agents m; again := again m;
     effects := effects m |}.

Definition set_agents (v : list DeliveryAgent) (m : SpoolManager)
  : SpoolManager :=
  {| q := q m; t := t m; agents := v; again := again m;
     effects := effects m |}.

Definition set_again (v : bool) (m : SpoolManager) : SpoolManager :=
  {| q := q m; t := t m; agents := agents m; again := v;
     effects := effects m |}.

Definition effect (e : Effect) (m : SpoolManager) : SpoolManager :=
  {| q := q m; t := t m; agents := agents m; again := again m;
     effects := effects m ++ [e] |}.

(** "delete d->t; d->t = 0" *)
Definition deleteTimer (m : SpoolManager) : SpoolManager :=
  match t m with
  | Some _ => set_t None (effect DeleteTimer m)
  | None => m
  end.

(** "d->t = new Timer( this, delay )" *)
Definition newTimer (delay : Z) (m : SpoolManager) : SpoolManager :=
  set_t (Some delay) (effect (NewTimer delay) m).

(** SpoolManager::reset *)
Definition reset (m : SpoolManager) : SpoolManager :=
  let m := deleteTimer m in
  let m := if again m then newTimer 1 m else m in
  set_q None m.

(** The loop over the rows in SpoolManager::execute, with the local
    variable delay. *)
Fixpoint processRows (rows : list Row) (m : SpoolManager) (delay : Z)
  : SpoolManager * Z :=
  match rows with
  | [] => (m, delay)
  | r :: rows =>
      let deliverableAt := row_delay r in
      if deliverableAt <=? 0 then
        let a := {| messageId := row_message r; working := true |} in
        let m :=
          effect (AgentTimer (row_message r)
                             (Z.of_nat (length (agents m)) * 5)) m in
        let m := set_agents (agents m ++ [a]) m in
        processRows rows m delay
      else if delay >? deliverableAt then
        processRows rows m (deliverableAt mod 4294967296)
      else processRows rows m delay
  end.

(** SpoolManager::execute.  A query that was just created is not
    done; its rows arrive later ([complete] below). *)
Definition execute (m : SpoolManager) : SpoolManager :=
  let delay := UINT_MAX in
  let '(m, delay) :=
    match q m with
    | None =>
        let have := map messageId (filter working (agents m)) in
        let delay :=
          if existsb working (agents m) then SPOOLINTERVAL else delay in
        let m := set_agents (filter working (agents m)) m in
        let m := set_again false m in
        let m := reset m in
        let m := effect (NewQuery have) m in
        (set_q (Some {| done := false; results := [] |}) m, delay)
    | Some _ => (m, delay)
    end in
  match q m with
  | Some query =>
      if negb (done query) then m
      else
        match results query with
        | [] => reset m
        | _ :: _ =>
            let '(m, delay) := processRows (results query) m delay in
            let m := if delay <? UINT_MAX then newTimer delay m else m in
            let m := set_q None m in
            reset m
        end
  | None => reset m
  end.

(** The database finishes the manager's query with [rows] and
    notifies the query's owner, the manager. *)
Definition complete (rows : list Row) (m : SpoolManager) : SpoolManager :=
  match q m with
  | Some _ => execute (set_q (Some {| done := true; results := rows |}) m)
  | None => m
  end.

(** SpoolManager::deliverNewMessage *)
Definition deliverNewMessage (m : SpoolManager) : SpoolManager :=
  match q m with
  | Some _ => set_again true m
  | None => reset (set_again true m)
  end.

(** *** The process

    The file-level statics ::sm and ::shutdown.  A manager is never
    freed (Allocator::addEternal), and the database and the timers keep
    their pointers to it, so the managers live in a list and ::sm is an
    index into it. *)
Record Process := {
  managers : list SpoolManager;
  sm : option nat;
  shutdownFlag : bool                 (* ::shutdown *)
}.

Definition start : Process :=
  {| managers := []; sm := None; shutdownFlag := false |}.

Fixpoint updateManager (i : nat) (f : SpoolManager -> SpoolManager)
    (l : list SpoolManager) : list SpoolManager :=
  match l, i with
  | [], _ => []
  | x :: rest, O => f x :: rest
  | x :: rest, S i => x :: updateManager i f rest
  end.

Definition onManager (i : nat) (f : SpoolManager -> SpoolManager)
    (p : Process) : Process :=
  {| managers := updateManager i f (managers p); sm := sm p;
     shutdownFlag := shutdownFlag p |}.

(** SpoolManager::setup *)
Definition setup (p : Process) : Process :=
  match sm p with
  | Some _ => p
  | None =>
      {| managers := managers p ++ [create];
         sm := Some (length (managers p));
         shutdownFlag := shutdownFlag p |}
  end.

(** SpoolManager::shutdown *)
Definition shutdown (p : Process) : Process :=
  let p :=
    match sm p with
    | Some i => onManager i deleteTimer p
    | None => p
    end in
  {| managers := managers p; sm := None; shutdownFlag := true |}.

(** SpoolRunner::execute, the handler of "deliveries_updated". *)
Definition spoolRunner (p : Process) : Process :=
  match sm p with
  | Some i => onManager i deliverNewMessage p
  | None => p
  end.

(** The agent for [msg] has stopped working. *)
Definition stopped (msg : Z) (m : SpoolManager) : SpoolManager :=
  set_agents
    (map (fun a =>
            if messageId a =? msg
            then {| messageId := messageId a; working := false |}
            else a)
         (agents m))
    m.

(** The end of DeliveryAgent::execute, once the transaction is done:
    on failure the spool manager is shut down; then the owner is
    notified.  [owner] is the manager that waits for the agent for
    message [msg]. *)
Definition agentDone (failed : bool) (owner : nat) (msg : Z) (p : Process)
  : Process :=
  let p := onManager owner (stopped msg) p in
  let p := if failed then shutdown p else p in
  onManager owner execute p.

(** What can happen to the process, one event at a time. *)
Inductive Event :=
  | Setup                               (* SpoolManager::setup() *)
  | Wake (i : nat)                      (* a timer of manager i, or the
                                           idle database, calls execute() *)
  | QueryDone (i : nat) (rows : list Row)
  | DeliveriesUpdated                   (* the database signal *)
  | AgentDone (failed : bool) (owner : nat) (msg : Z).

Definition step (p : Process) (e : Event) : Process :=
  match e with
  | Setup => setup p
  | Wake i => onManager i execute p
  | QueryDone i rows => onManager i (complete rows) p
  | DeliveriesUpdated => spoolRunner p
  | AgentDone failed owner msg => agentDone failed owner msg p
  end.

Definition run (events : list Event) (p : Process) : Process :=
  fold_left step events p.

(** A history for worked examples: the manager is set up and runs the
    queue, an agent is started for message 7, a new message arrives and
    a second queue run begins; the agent cannot commit; the second
    query then comes back with message 9 due. *)
Definition beforeFailure : list Event :=
  [ Setup; Wake 0;
    QueryDone 0 [ {| row_message := 7; row_delay := 0 |} ];
    DeliveriesUpdated; Wake 0 ].

Definition failure : list Event := [ AgentDone true 0 7 ].

Definition afterFailure : list Event :=
  [ QueryDone 0 [ {| row_message := 9; row_delay := 0 |} ] ].

(** All delivery agents that exist in the process. *)
Definition allAgents (p : Process) : list DeliveryAgent :=
  concat (map agents (managers p)).

(** *** Worked examples *)

(** The retry scenario of the specification at time 100000: message 7,
    one recipient, Delayed, last attempt 30 minutes ago. *)
Definition halfHourAgo : Delivery :=
  {| message := 7; deliver_after := None;
     delivery_recipients :=
       [ {| action := Recipient.Delayed;
            last_attempt := Some (100000 - 1800) |} ] |}.

(** The same with the last attempt 5 minutes ago. *)
Definition fiveMinutesAgo : Delivery :=
  {| message := 8; deliver_after := None;
     delivery_recipients :=
       [ {| action := Recipient.Delayed;
            last_attempt := Some (100000 - 300) |} ] |}.

(** A manager whose query has come back with [rows]. *)
Definition queryBack (rows : list Row) : SpoolManager :=
  {| q := Some {| done := true; results := rows |}; t := None;
     agents := []; again := false; effects := [NewQuery []] |}.

(** The rows with a delay of at most 0, and those above. *)
Definition due (r : Row) : bool := row_delay r <=? 0.

Definition later (rows : list Row) : list Z :=
  map row_delay (filter (fun r => negb (due r)) rows).

(** The agents spawned for [rows], and their timers, when [n] agents
    are in the list already. *)
Fixpoint spawned (n : nat) (rows : list Row) : list DeliveryAgent :=
  match rows with
  | [] => []
  | r :: rows =>
      if due r then
        {| messageId := row_message r; working := true |}
          :: spawned (S n) rows
      else spawned n rows
  end.

Fixpoint agentTimers (n : nat) (rows : list Row) : list Effect :=
  match rows with
  | [] => []
  | r :: rows =>
      if due r then
        AgentTimer (row_message r) (Z.of_nat n * 5)
          :: agentTimers (S n) rows
      else agentTimers n rows
  end.

End Spool.

(** ** Worked examples for the time between queue runs *)

Module SpoolExamples.
Import Spool.
Local Open Scope Z_scope.

(** A manager in the middle of a queue run: its query is under way,
    and the agent for message 7 is still at work. *)
Definition midRun : SpoolManager :=
  {| q := Some {| done := false; results := [] |}; t := None;
     agents := [ {| messageId := 7; working := true |} ];
     again := false; effects := [NewQuery []] |}.

(** A process whose only manager is [midRun]. *)
Definition running : Process :=
  {| managers := [midRun]; sm := Some 0%nat; shutdownFlag := false |}.

End SpoolExamples.

(** ** The outbound SMTP client: the rest of its interface
    (src/unnamed/part_003) *)

Module SmtpClientSession.
Import EStr SmtpClient.

(** SmtpClient::ready *)
Definition ready (c : Client) : bool :=
  match dsn c with
  | Some _ => false
  | None =>
      match state c with
      | Invalid | Connected | Hello | Rset => true
      | _ => false
      end
  end.

(** SmtpClient::send( dsn, user ).  [user] is never null (send reads
    user->log() first), so d->owner is set afterwards. *)
Definition send (e : Env) (m : DSN) (c : Client) : Client :=
  if negb (ready c) then c
  else
    let c := set_dsn (Some m) c in
    let c := set_dottedBody [] c in
    let c := set_owner true c in
    let c := set_sentMail false c in
    let c := set_closeTimer None c in
    let c := if state_eqb (state c) Rset then set_state Hello c else c in
    sendCommand e c.


(** SmtpClient::recordExtension.  [keyword] stands for
    line.mid( 4 ).simplified().section( " ", 1 ).lower(), the word the
    function compares (EString::simplified, section and lower are not
    under src/).  The static ::observedSize, which the function also
    sets for SIZE, lies outside SmtpClientData and is left out. *)
Definition recordExtension (keyword : EString -> EString) (line : EString)
    (c : Client) : Client :=
  let w := keyword line in
  if eqb w (lit "enhancedstatuscodes") then set_enhancedstatuscodes true c
  else if eqb w (lit "smtputf8") then set_unicode true c
  else if eqb w (lit "size") then set_size true c
  else c.

(** The body of the loop of SmtpClient::parse, for one reply line [s].
    Left out: the log, extendTimeout( 10 ) (the record keeps only what
    setTimeoutAfter was given), SmtpHelo::setUnicodeSupported, and
    d->wbs and d->wbt, which only the Timeout branch of react reads.
    In state Data the code reads d->dsn without a test; the DSN is set
    whenever sendCommand has brought the client there. *)
Definition parseLine (keyword : EString -> EString) (e : Env) (s : EString)
    (c : Client) : Client :=
  match number (mid s 0 3) with
  | None => set_error (lit "Server sent garbage: " ++ s) c
  | Some response =>
      if ceq (at_ s 3) "-"%char then
        if state_eqb (state c) Hello then recordExtension keyword s c else c
      else if ceq (at_ s 3) " "%char then
        match (response / 100)%Z with
        | 1%Z => set_error (lit "Server sent 1xx response: " ++ s) c
        | 2%Z =>
            let c :=
              if state_eqb (state c) Connected then set_state Banner c
              else c in
            let c :=
              if state_eqb (state c) Hello then recordExtension keyword s c
              else c in
            let c :=
              match rcptTo c with
              | i :: _ => set_accepted (accepted c ++ [i]) c
              | [] => c
              end in
            sendCommand e c
        | 3%Z =>
            if state_eqb (state c) Data then
              let c :=
                if isEmpty (dottedBody c) then
                  match dsn c with
                  | Some m =>
                      set_dottedBody (dotted (rfc822 m (negb (unicode c)))) c
                  | None => c
                  end
                else c in
              let c := enqueue (dottedBody c) c in
              let c := set_dottedBody [] c in
              set_state Body c
            else
              set_error
                (lit "Server sent inappropriate 3xx response: " ++ s) c
        | 4%Z | 5%Z =>
            let c := handleFailure e s c in
            if (response =? 421)%Z then set_state Invalid (set_closed true c)
            else c
        | _ => c
        end
      else c
  end.

(** The loop of SmtpClient::parse over the read buffer [r]: the
    buffer that is left and the client.  Every turn takes a line off
    the buffer, so one turn more than the buffer has octets always
    suffices. *)
Fixpoint parseLoop (keyword : EString -> EString) (e : Env) (fuel : nat)
    (r : EString) (c : Client) : option (EString * Client) :=
  match fuel with
  | O => None
  | S fuel =>
      match Buffer.removeLine 0 r with
      | None => Some (r, c)
      | Some (s, rest) =>
          parseLoop keyword e fuel rest (parseLine keyword e s c)
      end
  end.

(** SmtpClient::parse *)
Definition parse (keyword : EString -> EString) (e : Env) (r : EString)
    (c : Client) : option (EString * Client) :=
  parseLoop keyword e (S (length r)) r c.

(** The replies of a server, handled in order. *)
Definition replies (keyword : EString -> EString) (e : Env)
    (lines : list EString) (c : Client) : Client :=
  fold_left (fun c s => parseLine keyword e s c) lines c.





(** A stand-in for the word recordExtension looks at, for worked
    examples: the line from its fifth octet on. *)
Definition plainKeyword (line : EString) : EString := mid_from line 4.

(** A client that has finished a transaction and waits in Rset for
    the next one; its recipient store still holds the recipient of
    the finished one. *)
Definition idleAfterRset : Client :=
  {| state := Rset; sent := lit "rset"; error := [];
     dsn := None; dottedBody := []; owner := false;
     notified := 1; sentMail := true; rcptTo := []; accepted := [0];
     enhancedstatuscodes := false; unicode := false; size := true;
     closeTimer := Some 298%Z;
     recipientStore :=
       [ {| Recipient.finalRecipient := lit "b@example.com";
            Recipient.action := Recipient.Relayed;
            Recipient.status := [] |};
         {| Recipient.finalRecipient := lit "c@example.com";
            Recipient.action := Recipient.Unknown;
            Recipient.status := [] |} ];
     writeBuffer := []; timeoutAfter := Some 300%Z; closed := false |}.

(** A DSN for the second recipient of that store. *)
Definition secondMessage : DSN :=
  {| recipients := [1]; senderNormal := true;
     senderLpdomain := lit "a@example.org";
     rfc822 := fun _ => lit "Subject: y" ++ CRLF ++ CRLF ++ lit ".x" ++ CRLF;
     needsUnicode := false |}.


End SmtpClientSession.

(** ** The SMTP server: a worked example for the line limit *)

Module SmtpExamples.
Import EStr Smtp.


End SmtpExamples.

(** ** The IMAP server: keep-alives and further worked examples
    (src/unnamed/part_001) *)

Module ImapKeepalive.
Import EStr Imap.

Definition set_state (v : State) (d : IMAP) : IMAP :=
  {| maybeProxy := maybeProxy d; state := v; reader := reader d; str :=
     str d; runningCommands := runningCommands d; runCommandsAgain :=
     runCommandsAgain d; readingLiteral := readingLiteral d; literalSize
     := literalSize d; commands := commands d; responses := responses d;
     clientCapabilities := clientCapabilities d; clientBugs := clientBugs
     d; lastBadTime := lastBadTime d; nextOkTime := nextOkTime d;
     readBuffer := readBuffer d; writeBuffer := writeBuffer d;
     connectionState := connectionState d; realPeer := realPeer d;
     realSelf := realSelf d; timers := timers d; syntaxErrors :=
     syntaxErrors d; user := user d |}.


Definition set_user (v : option User) (d : IMAP) : IMAP :=
  {| maybeProxy := maybeProxy d; state := state d; reader := reader d; str
     := str d; runningCommands := runningCommands d; runCommandsAgain :=
     runCommandsAgain d; readingLiteral := readingLiteral d; literalSize
     := literalSize d; commands := commands d; responses := responses d;
     clientCapabilities := clientCapabilities d; clientBugs := clientBugs
     d; lastBadTime := lastBadTime d; nextOkTime := nextOkTime d;
     readBuffer := readBuffer d; writeBuffer := writeBuffer d;
     connectionState := connectionState d; realPeer := realPeer d;
     realSelf := realSelf d; timers := timers d; syntaxErrors :=
     syntaxErrors d; user := v |}.






(** Two commands of the same group, both just received: "A1 UID FETCH"
    and "A2 UID FETCH". *)
Definition twoUidFetches : list Command.t :=
  [ {| Command.id := 1; Command.tag := lit "A1";
       Command.name := lit "uid fetch"; Command.group := 1;
       Command.state := Command.Unparsed;
       Command.usesMsn := false; Command.ok := true |};
    {| Command.id := 2; Command.tag := lit "A2";
       Command.name := lit "uid fetch"; Command.group := 1;
       Command.state := Command.Unparsed;
       Command.usesMsn := false; Command.ok := true |} ].

(** A connection whose user has no inbox and whose client has sent
    one command. *)
Definition withoutInbox : IMAP :=
  set_user (Some {| inbox := false |})
    (set_commands
       [ {| Command.id := 1; Command.tag := lit "A1";
            Command.name := lit "noop"; Command.group := 0;
            Command.state := Command.Unparsed;
            Command.usesMsn := false; Command.ok := true |} ]
       (set_state Authenticated create)).

(** A connection past the PROXY check whose client announces a
    literal of 99999 octets. *)
Definition hugeLiteral : IMAP :=
  set_maybeProxy false
    (set_readBuffer
       (lit "a append x {99999}" ++ CRLF ++ lit "From: me") create).

(** A fresh connection on which a short first command has arrived
    whole. *)
Definition shortFirstCommand : IMAP :=
  set_readBuffer (lit "a noop" ++ CRLF) create.

(** A fresh connection that begins with a PROXY protocol version 2
    header for TCP over IPv4, 192.0.2.1:1000 to 192.0.2.2:143, followed
    by a command. *)
Definition proxiedSource : EString :=
  [ascii_of_nat 192; ascii_of_nat 0; ascii_of_nat 2; ascii_of_nat 1].

Definition proxiedDestination : EString :=
  [ascii_of_nat 192; ascii_of_nat 0; ascii_of_nat 2; ascii_of_nat 2].

Definition proxiedSourcePort : EString := [ascii_of_nat 3; ascii_of_nat 232].

Definition proxiedDestinationPort : EString :=
  [ascii_of_nat 0; ascii_of_nat 143].

End ImapKeepalive.

(** * Properties *)

(** ** Facts about EString *)

Module EStrFacts.
Import EStr.

Lemma eqb_eq (a b : EString) : eqb a b = true <-> a = b.
Proof.
  revert b. induction a as [|x a IH]; intros [|y b]; simpl;
    try (split; congruence).
  unfold ceq. rewrite andb_true_iff, Ascii.eqb_eq, IH.
  split; [intros [-> ->]; reflexivity | intros H; inversion H; auto].
Qed.

Lemma eqb_neq (a b : EString) : eqb a b = false <-> a <> b.
Proof.
  rewrite <- eqb_eq. destruct (eqb a b); split; congruence.
Qed.

Lemma eqb_refl (a : EString) : eqb a a = true.
Proof. now apply eqb_eq. Qed.

Lemma isEmpty_nil (s : EString) : isEmpty s = true <-> s = [].
Proof. destruct s; simpl; split; congruence. Qed.

Lemma isEmpty_false (s : EString) : isEmpty s = false <-> s <> [].
Proof. destruct s; simpl; split; congruence. Qed.

End EStrFacts.

(** ** SASL PLAIN *)

Module PlainSpec.
Import EStr EStrFacts Plain.

Lemma parse_three (a0 u0 p0 response a u p : EString) :
  split NUL response = [a; u; p] ->
  parse a0 u0 p0 response =
    if isEmpty u || isEmpty p then (false, (a, u, p))
    else (true, ((if isEmpty a then u else a), u, p)).
Proof. intros H. unfold parse. rewrite H. reflexivity. Qed.

Lemma parse_true_fields (a0 u0 p0 response : EString) :
  fst (parse a0 u0 p0 response) = true ->
  exists a u p, split NUL response = [a; u; p] /\ u <> [] /\ p <> [].
Proof.
  unfold parse.
  destruct (split NUL response) as [|a [|u [|p [|x l]]]]; simpl;
    try discriminate.
  destruct (isEmpty u) eqn:Eu; simpl; try discriminate.
  destruct (isEmpty p) eqn:Ep; simpl; try discriminate.
  intros _. exists a, u, p. repeat split.
  - now apply isEmpty_false.
  - now apply isEmpty_false.
Qed.

(** C10: Plain::parse succeeds exactly when the response splits into
    three NUL-separated fields whose authentication id and password are
    non-empty, and then hands back the fields with an empty
    authorization id replaced by the authentication id;
    Plain::parseResponse moves to Failed and leaves login and secret
    alone whenever parse fails or a (non-empty) authorization id was
    supplied that differs from the authentication id, and otherwise
    moves to Authenticating with the login and secret of the
    response. *)
Theorem plain_parse_parseResponse (response : EString) :
  (forall a0 u0 p0,
     fst (parse a0 u0 p0 response) = true <->
     exists a u p, split NUL response = [a; u; p] /\ u <> [] /\ p <> []) /\
  (forall a0 u0 p0 a u p,
     split NUL response = [a; u; p] -> u <> [] -> p <> [] ->
     parse a0 u0 p0 response = (true, ((if isEmpty a then u else a), u, p))) /\
  (forall m,
     fst (parse [] [] [] response) = false \/
     (exists a u p, split NUL response = [a; u; p] /\ a <> [] /\ a <> u) ->
     parseResponse m response =
       {| state := Failed; login := login m; secret := secret m;
          executed := executed m |}) /\
  (forall m a u p,
     split NUL response = [a; u; p] -> u <> [] -> p <> [] ->
     a = [] \/ a = u ->
     parseResponse m response =
       {| state := Authenticating; login := u; secret := p;
          executed := true |}).
Proof.
  split; [|split; [|split]].
  - intros a0 u0 p0. split.
    + apply parse_true_fields.
    + intros (a & u & p & Hs & Hu & Hp).
      rewrite (parse_three a0 u0 p0 _ _ _ _ Hs).
      apply isEmpty_false in Hu, Hp. now rewrite Hu, Hp.
  - intros a0 u0 p0 a u p Hs Hu Hp.
    rewrite (parse_three a0 u0 p0 _ _ _ _ Hs).
    apply isEmpty_false in Hu, Hp. now rewrite Hu, Hp.
  - intros m [Hf | (a & u & p & Hs & Ha & Hau)]; unfold parseResponse.
    + destruct (parse [] [] [] response) as [ok [[az ac] pw]].
      simpl in Hf. subst ok. reflexivity.
    + rewrite (parse_three [] [] [] _ _ _ _ Hs).
      destruct (isEmpty u || isEmpty p); [reflexivity|].
      apply isEmpty_false in Ha. rewrite Ha.
      assert (E : eqb u a = false) by (apply eqb_neq; congruence).
      simpl. now rewrite E.
  - intros m a u p Hs Hu Hp Ha. unfold parseResponse.
    rewrite (parse_three [] [] [] _ _ _ _ Hs).
    apply isEmpty_false in Hu, Hp. rewrite Hu, Hp. simpl.
    destruct Ha as [-> | ->]; simpl.
    + now rewrite eqb_refl.
    + destruct (isEmpty u); now rewrite eqb_refl.
Qed.

End PlainSpec.

(** ** IMAP: client capabilities *)

Module CapabilitySpec.
Import Imap.

Lemma capability_eqb_refl (c : ClientCapability) : capability_eqb c c = true.
Proof. destruct c; reflexivity. Qed.

Lemma set_sets (c : ClientCapability) (d : IMAP) :
  clientSupports (setClientSupports c d) c = true.
Proof.
  unfold clientSupports, setClientSupports. simpl.
  destruct c; reflexivity.
Qed.

Lemma set_keeps (c c' : ClientCapability) (d : IMAP) :
  clientSupports d c = true ->
  clientSupports (setClientSupports c' d) c = true.
Proof.
  unfold clientSupports, setClientSupports. simpl. intros H.
  destruct c, c'; simpl; auto.
Qed.

Lemma setAll_keeps (calls : list ClientCapability) :
  forall d c, clientSupports d c = true ->
              clientSupports (setAll calls d) c = true.
Proof.
  induction calls as [|x calls IH]; simpl; intros d c H; auto.
  apply IH. now apply set_keeps.
Qed.

Lemma set_qresync_inv (c : ClientCapability) (d : IMAP) :
  (clientSupports d QResync = true -> clientSupports d Condstore = true) ->
  clientSupports (setClientSupports c d) QResync = true ->
  clientSupports (setClientSupports c d) Condstore = true.
Proof.
  unfold clientSupports, setClientSupports. simpl.
  destruct c; simpl; auto.
Qed.

Lemma setAll_qresync_inv (calls : list ClientCapability) :
  forall d,
    (clientSupports d QResync = true -> clientSupports d Condstore = true) ->
    clientSupports (setAll calls d) QResync = true ->
    clientSupports (setAll calls d) Condstore = true.
Proof.
  induction calls as [|x calls IH]; simpl; intros d H; auto.
  apply IH. now apply set_qresync_inv.
Qed.

(** C9: client capability flags are monotone.  After any sequence of
    setClientSupports calls on a connection (the only writer of the
    array besides the constructor), every capability that was set is
    reported by clientSupports, stays reported after any further calls,
    and QResync is never reported without Condstore; a fresh connection
    reports none. *)
Theorem capabilities_monotone (calls : list ClientCapability) :
  let d := setAll calls create in
  (forall c, clientSupports create c = false) /\
  (forall c, In c calls -> clientSupports d c = true) /\
  (forall more c, clientSupports d c = true ->
                  clientSupports (setAll more d) c = true) /\
  (forall c, clientSupports (setClientSupports c d) c = true) /\
  (clientSupports (setClientSupports QResync d) Condstore = true) /\
  (clientSupports d QResync = true -> clientSupports d Condstore = true).
Proof.
  cbv zeta. repeat split.
  - intros c Hin. unfold setAll.
    generalize create. induction calls as [|x calls IH]; simpl; intros d.
    + destruct Hin.
    + destruct Hin as [-> | Hin].
      * apply (setAll_keeps calls). apply set_sets.
      * now apply IH.
  - intros more c H. now apply setAll_keeps.
  - intros c. apply set_sets.
  - apply setAll_qresync_inv. discriminate.
Qed.

End CapabilitySpec.

(** ** IMAP: the response sequencer *)

Module SequencerSpec.
Import EStr EStrFacts Imap.

Lemma expungeScan_cannot (cs : list Command.t) (can : bool) :
  expungeScan cs can true = (can, true).
Proof. destruct cs; reflexivity. Qed.

Lemma expungeScan_step (c : Command.t) (rest : list Command.t) (can : bool) :
  expungeScan (c :: rest) can false =
    if blocks c then (can, true)
    else expungeScan rest (can || permits c) false.
Proof.
  cbn [expungeScan]. unfold blocks, permits, idleExecuting.
  destruct (Command.state_eqb (Command.state c) Command.Executing) eqn:Ee;
  destruct (eqb (Command.name c) (lit "idle")) eqn:Ei; cbn [andb orb negb].
  - now rewrite orb_true_r.
  - now rewrite expungeScan_cannot.
  - destruct ((Command.group c =? 2) || (Command.group c =? 3));
      cbn [andb orb negb].
    + now rewrite expungeScan_cannot.
    + destruct (Command.usesMsn c && negb (eqb (Command.name c) (lit "copy")));
        cbn [andb orb negb].
      * now rewrite expungeScan_cannot.
      * destruct (Command.state_eqb (Command.state c) Command.Finished
                  && negb (isEmpty (Command.tag c))); cbn [andb orb negb].
        -- now rewrite orb_true_r.
        -- now rewrite orb_false_r.
  - destruct ((Command.group c =? 2) || (Command.group c =? 3));
      cbn [andb orb negb].
    + now rewrite expungeScan_cannot.
    + destruct (Command.usesMsn c && negb (eqb (Command.name c) (lit "copy")));
        cbn [andb orb negb].
      * now rewrite expungeScan_cannot.
      * destruct (Command.state_eqb (Command.state c) Command.Finished
                  && negb (isEmpty (Command.tag c))); cbn [andb orb negb].
        -- now rewrite orb_true_r.
        -- now rewrite orb_false_r.
Qed.

Lemma expungeScan_spec (cs : list Command.t) :
  forall can,
    snd (expungeScan cs can false) = existsb blocks cs /\
    (existsb blocks cs = false ->
     fst (expungeScan cs can false) = can || existsb permits cs).
Proof.
  induction cs as [|c rest IH]; intros can.
  - simpl. split; [reflexivity | intros _; now rewrite orb_false_r].
  - rewrite expungeScan_step. simpl existsb.
    destruct (blocks c); simpl.
    + split; [reflexivity | discriminate].
    + destruct (IH (can || permits c)) as [H1 H2]. split; [exact H1|].
      intros Hb. rewrite (H2 Hb). now rewrite orb_assoc.
Qed.

Lemma canSendExpunge_spec (cs : list Command.t) :
  canSendExpunge cs = existsb permits cs && negb (existsb blocks cs).
Proof.
  unfold canSendExpunge.
  destruct (expungeScan_spec cs false) as [H1 H2].
  destruct (expungeScan cs false false) as [can cannot]. simpl in *.
  subst cannot. destruct (existsb blocks cs); simpl.
  - now rewrite andb_false_r.
  - rewrite (H2 eq_refl). now rewrite andb_true_r.
Qed.

Lemma emitLoop_emitted (can : bool) (rs : list ImapResponse.t) :
  forall acc r,
    In r (emitted (emitLoop can rs acc)) ->
    In r (emitted acc) \/
    (In r rs /\ ImapResponse.meaningful r = true /\
     ImapResponse.sent r = false /\ ImapResponse.text r <> [] /\
     (can = true \/ ImapResponse.changesMsn r = false)).
Proof.
  induction rs as [|x rest IH]; intros acc r; simpl.
  - auto.
  - destruct (ImapResponse.meaningful x) eqn:Em; simpl.
    + destruct (ImapResponse.sent x) eqn:Es; simpl.
      * rewrite Es. intros H. apply IH in H. simpl in H.
        destruct H as [H | (H & R)]; [now left | right; split; auto].
      * destruct (can || negb (ImapResponse.changesMsn x)) eqn:Eg; simpl.
        -- intros H. apply IH in H. simpl in H.
           destruct H as [H | (H & R)]; [| right; split; auto].
           destruct (isEmpty (ImapResponse.text x)) eqn:Et; simpl in H.
           ++ now left.
           ++ apply in_app_or in H. destruct H as [H | [<- | []]].
              ** now left.
              ** right. split; [now left|]. repeat split; auto.
                 --- now apply isEmpty_false.
                 --- apply orb_true_iff in Eg. destruct Eg as [Eg|Eg]; auto.
                     right. now apply negb_true_iff.
        -- rewrite Es. intros H. apply IH in H. simpl in H.
           destruct H as [H | (H & R)]; [now left | right; split; auto].
    + intros H. apply IH in H.
      destruct H as [H | (H & R)]; [now left | right; split; auto].
Qed.

Lemma emitLoop_written (can : bool) (rs : list ImapResponse.t) :
  forall acc, exists E,
    emitted (emitLoop can rs acc) = emitted acc ++ E /\
    written (emitLoop can rs acc) =
      written acc ++
      concat (map (fun r => lit "* " ++ ImapResponse.text r ++ CRLF) E).
Proof.
  induction rs as [|x rest IH]; intros acc.
  - exists []. simpl. now rewrite !app_nil_r.
  - cbn [emitLoop].
    destruct (negb (ImapResponse.meaningful x)).
    + cbn [ImapResponse.setSent ImapResponse.sent]. apply IH.
    + destruct (negb (ImapResponse.sent x)
                && (can || negb (ImapResponse.changesMsn x))) eqn:Eg.
      * cbn [ImapResponse.setSent ImapResponse.sent].
        destruct (negb (isEmpty (ImapResponse.text x)));
          cbn [emitted written kept any];
          match goal with |- context [emitLoop can rest ?a] =>
            destruct (IH a) as (E & H1 & H2) end;
          cbn [emitted written] in H1, H2; rewrite H1, H2.
        -- exists (x :: E). split.
           ++ now rewrite <- app_assoc.
           ++ cbn [map concat]. now rewrite <- !app_assoc.
        -- exists E. auto.
      * destruct (ImapResponse.sent x).
        -- apply IH.
        -- match goal with |- context [emitLoop can rest ?a] =>
             destruct (IH a) as (E & H1 & H2) end.
           cbn [emitted written] in H1, H2. exists E. now rewrite H1, H2.
Qed.

Lemma emitResponses_run_emitted (h : Handlers) (d : IMAP) (r : ImapResponse.t) :
  In r (snd (emitResponses_run h d)) ->
  ImapResponse.changesMsn r = true ->
  canSendExpunge (shiftRetired (commands d)) = true.
Proof.
  unfold emitResponses_run.
  cbn [IMAP_commands set_commands commands clientHasBug clientBugs].
  destruct (clientBugs d NoUnsolicitedResponses
            && match shiftRetired (commands d) with
               | [] => true | _ :: _ => false end).
  - intros [].
  - cbn [responses].
    match goal with |- context [if ?b then _ else _] => destruct b end;
      cbn [snd]; intros Hin Hc;
      apply emitLoop_emitted in Hin;
      destruct Hin as [[] | (_ & _ & _ & _ & [Hcan | Hn])];
      auto; congruence.
Qed.

Lemma permits_iff (c : Command.t) :
  permits c = true <->
  (Command.state c = Command.Executing /\ Command.name c = lit "idle") \/
  (Command.state c = Command.Finished /\ Command.tag c <> []).
Proof.
  unfold permits, idleExecuting.
  rewrite orb_true_iff, !andb_true_iff, eqb_eq, negb_true_iff, isEmpty_false.
  destruct (Command.state c); simpl; intuition congruence.
Qed.

Lemma blocks_iff (c : Command.t) :
  blocks c = true <->
  ~ (Command.state c = Command.Executing /\ Command.name c = lit "idle") /\
  (Command.state c = Command.Executing \/
   Command.group c = 2 \/ Command.group c = 3 \/
   (Command.usesMsn c = true /\ Command.name c <> lit "copy")).
Proof.
  unfold blocks, idleExecuting.
  rewrite andb_true_iff, !orb_true_iff, andb_true_iff, negb_true_iff,
    andb_false_iff, !Nat.eqb_eq, negb_true_iff, eqb_neq, eqb_neq.
  destruct (Command.state c); simpl; intuition congruence.
Qed.

(** C1: an untagged response that changes MSNs (EXPUNGE, VANISHED) is
    written only when the can-send-expunge predicate holds for the
    queue that IMAP::commands() returns.  The predicate is true only if
    an IDLE is Executing or a Finished command with a non-empty tag
    awaits its tagged response, and it is true then unless a command
    forbids it; it is false if any command other than IDLE is
    Executing, or any queued command has group 2 or 3, or any queued
    command uses MSNs and is not copy (an IDLE in Executing is taken by
    the first test of the scan and is not put to the other tests).
    What is written to the wire is one line per emitted response. *)
Theorem expunge_gating (h : Handlers) (d : IMAP) :
  let cs := shiftRetired (commands d) in
  let idling c :=
    Command.state c = Command.Executing /\ Command.name c = lit "idle" in
  let forbids c :=
    Command.state c = Command.Executing \/
    Command.group c = 2 \/ Command.group c = 3 \/
    (Command.usesMsn c = true /\ Command.name c <> lit "copy") in
  (forall r, In r (snd (emitResponses_run h d)) ->
             ImapResponse.changesMsn r = true ->
             canSendExpunge cs = true) /\
  (canSendExpunge cs = true ->
   exists c, In c cs /\
     (idling c \/
      (Command.state c = Command.Finished /\ Command.tag c <> []))) /\
  ((exists c, In c cs /\
      (idling c \/
       (Command.state c = Command.Finished /\ Command.tag c <> []))) ->
   (forall c, In c cs -> idling c \/ ~ forbids c) ->
   canSendExpunge cs = true) /\
  (forall c, In c cs ->
     Command.state c = Command.Executing ->
     Command.name c <> lit "idle" ->
     canSendExpunge cs = false) /\
  (forall c, In c cs -> ~ idling c ->
     Command.group c = 2 \/ Command.group c = 3 ->
     canSendExpunge cs = false) /\
  (forall c, In c cs -> ~ idling c ->
     Command.usesMsn c = true -> Command.name c <> lit "copy" ->
     canSendExpunge cs = false) /\
  (forall can, exists E,
     emitted (emitLoop can (responses d) noEmission) = E /\
     written (emitLoop can (responses d) noEmission) =
       concat (map (fun r => lit "* " ++ ImapResponse.text r ++ CRLF) E)).
Proof.
  cbv zeta.
  assert (Hblock : forall c, In c (shiftRetired (commands d)) ->
                             blocks c = true ->
                             canSendExpunge (shiftRetired (commands d))
                             = false).
  { intros c Hin Hb. rewrite canSendExpunge_spec.
    assert (X : existsb blocks (shiftRetired (commands d)) = true)
      by (apply existsb_exists; eauto).
    rewrite X. now rewrite andb_false_r. }
  split; [|split; [|split; [|split; [|split; [|split]]]]].
  - intros r. apply emitResponses_run_emitted.
  - rewrite canSendExpunge_spec, andb_true_iff, existsb_exists.
    intros [(c & Hin & Hp) _]. exists c. split; [exact Hin|].
    now apply permits_iff.
  - intros (c & Hin & Hp) Hnone.
    rewrite canSendExpunge_spec, andb_true_iff, negb_true_iff. split.
    + apply existsb_exists. exists c. split; [exact Hin|].
      now apply permits_iff.
    + destruct (existsb blocks (shiftRetired (commands d))) eqn:Eb; auto.
      apply existsb_exists in Eb. destruct Eb as (c' & Hin' & Hb').
      apply blocks_iff in Hb'. destruct Hb' as [H1 H2].
      destruct (Hnone c' Hin') as [H | H]; contradiction.
  - intros c Hin He Hn. apply (Hblock c Hin). apply blocks_iff.
    split; [intros [_ H]; contradiction | now left].
  - intros c Hin Hi Hg. apply (Hblock c Hin). apply blocks_iff.
    split; [exact Hi|]. right. destruct Hg; auto.
  - intros c Hin Hi Hm Hn. apply (Hblock c Hin). apply blocks_iff.
    split; [exact Hi|]. right. right. right. auto.
  - intros can.
    destruct (emitLoop_written can (responses d) noEmission) as (E & H1 & H2).
    exists E. simpl in H1, H2. auto.
Qed.

(** The tests that forbid expunges win over those that permit them:
    with "A1 UID FETCH" finished and "A2 FETCH" (group 2, uses MSNs)
    queued behind it, the predicate is false. *)
Example expunge_waits_for_queued_fetch :
  shiftRetired pipelinedFetches = pipelinedFetches /\
  canSendExpunge pipelinedFetches = false.
Proof. split; reflexivity. Qed.

End SequencerSpec.

(** ** IMAP: rate limiting in the scheduler *)

Module SchedulerSpec.
Import EStr EStrFacts Imap.
Local Open Scope Z_scope.

Lemma to_int_id (z : Z) :
  -2147483648 <= z < 2147483648 -> to_int z = z.
Proof.
  intros H. unfold to_int.
  rewrite Z.mod_small by lia. lia.
Qed.

Lemma delayNeeded_formula (e : Env) (d : IMAP) :
  0 <= syntaxErrors d < 2147483648 ->
  0 <= lastBadTime d < 2147483632 ->
  0 <= time e < 2147483648 ->
  delayNeeded e d =
    let base :=
      Z.max 0 (Z.min 16 (syntaxErrors d) - (time e - lastBadTime d)) in
    match user d with
    | Some u => if inbox u then base else Z.max 4 base
    | None => base
    end.
Proof.
  intros Hs Hl Ht. unfold delayNeeded.
  rewrite (to_int_id (syntaxErrors d)) by lia.
  rewrite (to_int_id (lastBadTime d)) by lia.
  rewrite (to_int_id (time e)) by lia.
  set (capped := if syntaxErrors d >? 16 then 16 else syntaxErrors d).
  assert (Hc : capped = Z.min 16 (syntaxErrors d)).
  { unfold capped. destruct (Z.gtb_spec (syntaxErrors d) 16); lia. }
  assert (Hr : 0 <= capped <= 16) by lia.
  rewrite (to_int_id (lastBadTime d + capped)) by lia.
  rewrite (to_int_id (lastBadTime d + capped - time e)) by lia.
  cbv zeta. rewrite <- Hc.
  set (raw := lastBadTime d + capped - time e).
  replace (capped - (time e - lastBadTime d)) with raw by (unfold raw; lia).
  assert (Hb : (if raw <? 0 then 0 else raw) = Z.max 0 raw).
  { destruct (Z.ltb_spec raw 0); lia. }
  rewrite Hb.
  destruct (user d) as [u|]; [|reflexivity].
  destruct (inbox u); simpl; [reflexivity|].
  destruct (Z.ltb_spec (Z.max 0 raw) 4); lia.
Qed.

(** C2: at each turn of the scheduler, once the executing commands
    were run and the finished ones emitted, the delay before any new
    command is parsed or started is min(16, syntaxErrors) - (now -
    lastBadTime), at least 0, and at least 4 for an authenticated user
    without an inbox.  Whenever the delay is positive and the queue is
    not empty, a timer is armed for that many seconds and runCommands
    returns there: the queue is left as it was, nothing is parsed and
    nothing is moved to Executing.  (The counters are within the range
    of int, as the conversions in the code assume.) *)
Theorem rate_limit (h : Handlers) (e : Env) (d : IMAP) :
  let d2 := beforeDelay h d in
  0 <= syntaxErrors d2 < 2147483648 ->
  0 <= lastBadTime d2 < 2147483632 ->
  0 <= time e < 2147483648 ->
  let base :=
    Z.max 0 (Z.min 16 (syntaxErrors d2) - (time e - lastBadTime d2)) in
  let delay :=
    match user d2 with
    | Some u => if inbox u then base else Z.max 4 base
    | None => base
    end in
  delayNeeded e d2 = delay /\
  (delay > 0 -> commands d2 <> [] ->
   let held :=
     set_running false (runCommandsAgain d2)
                 (newTimer (BadBouncer delay) d2) in
   runCommandsPass h e d = Delayed held /\
   commands held = commands d2 /\
   timers held = timers d2 ++ [BadBouncer delay] /\
   (forall fuel, runCommandsAgain d = true ->
                 runCommandsLoop h e (S fuel) d = Some held)).
Proof.
  intros d2 Hs Hl Ht base delay.
  assert (Hd : delayNeeded e d2 = delay)
    by (apply delayNeeded_formula; assumption).
  split; [exact Hd|].
  intros Hpos Hne held.
  assert (Hp : runCommandsPass h e d = Delayed held).
  { unfold runCommandsPass. fold d2. rewrite Hd.
    destruct (Z.gtb_spec delay 0); [|lia].
    destruct (commands d2) eqn:Ec; [congruence|].
    reflexivity. }
  split; [exact Hp|]. split; [reflexivity|]. split; [reflexivity|].
  intros fuel Hagain. cbn [runCommandsLoop]. now rewrite Hagain, Hp.
Qed.

(** The rate-limit scenario of the specification: three BAD responses
    in the same second hold the next command for 3 seconds. *)
Lemma rate_limit_three_bad :
  runCommandsPass quietHandlers atThousand threeBad =
    Delayed (set_running false false (newTimer (BadBouncer 3) threeBad)) /\
  commands (set_running false false (newTimer (BadBouncer 3) threeBad)) =
    commands threeBad.
Proof.
  assert (Hs : 0 <= syntaxErrors (beforeDelay quietHandlers threeBad)
               < 2147483648) by (vm_compute; split; congruence).
  assert (Hl : 0 <= lastBadTime (beforeDelay quietHandlers threeBad)
               < 2147483632) by (vm_compute; split; congruence).
  assert (Ht : 0 <= time atThousand < 2147483648)
    by (vm_compute; split; congruence).
  destruct (rate_limit quietHandlers atThousand threeBad Hs Hl Ht)
    as [_ Hheld].
  assert (Hpos : 3 > 0) by reflexivity.
  assert (Hne : commands (beforeDelay quietHandlers threeBad) <> [])
    by (vm_compute; discriminate).
  destruct (Hheld Hpos Hne) as (Hp & Hc & _).
  split; [exact Hp | exact Hc].
Defined.

End SchedulerSpec.

(** ** IMAP: framing of command lines and literals *)

Module FramingSpec.
Import EStr EStrFacts Buffer Imap.

Lemma ceq_eq (a b : ascii) : ceq a b = true <-> a = b.
Proof. unfold ceq. apply Ascii.eqb_eq. Qed.

Lemma ceq_refl (a : ascii) : ceq a a = true.
Proof. now apply ceq_eq. Qed.

Lemma skipn_app_length (a b : EString) : skipn (length a) (a ++ b) = b.
Proof. induction a; simpl; auto. Qed.

Lemma firstn_app_length (a b : EString) : firstn (length a) (a ++ b) = a.
Proof. induction a; simpl; congruence. Qed.

Lemma removeLine_from_app (line rest : EString) :
  noLineEnd line = true ->
  forall acc,
    removeLine_from acc (line ++ CRLF ++ rest) = Some (acc ++ line, rest).
Proof.
  induction line as [|c line IH]; intros Hn acc.
  - simpl. now rewrite app_nil_r.
  - simpl in Hn. apply andb_true_iff in Hn. destruct Hn as [Hc Hn].
    apply negb_true_iff, orb_false_iff in Hc. destruct Hc as [Hcr Hlf].
    pose proof (IH Hn (acc ++ [c])) as IH'.
    change ((c :: line) ++ CRLF ++ rest) with (c :: (line ++ CRLF ++ rest)).
    cbn [removeLine_from].
    destruct (line ++ CRLF ++ rest) as [|c2 t] eqn:E.
    + destruct line; discriminate.
    + rewrite Hcr. cbn [andb]. rewrite IH'.
      now rewrite <- app_assoc.
Qed.

Lemma removeLine_line (line rest : EString) :
  noLineEnd line = true ->
  removeLine 0 (line ++ CRLF ++ rest) = Some (line, rest).
Proof.
  intros Hn. unfold removeLine. cbn [Nat.eqb].
  rewrite (removeLine_from_app line rest Hn []). cbn [app].
  f_equal. f_equal.
  replace (length line + 2) with (length (line ++ CRLF))
    by (rewrite length_app; reflexivity).
  rewrite app_assoc. apply skipn_app_length.
Qed.

Lemma removeLine_from_none (x : EString) :
  forall acc, noLineEnd x = true -> removeLine_from acc x = None.
Proof.
  induction x as [|c x IH]; intros acc Hx; [reflexivity|].
  simpl in Hx. apply andb_true_iff in Hx. destruct Hx as [Hc Hx].
  apply negb_true_iff, orb_false_iff in Hc. destruct Hc as [Hcr _].
  cbn [removeLine_from]. destruct x as [|c2 x']; [reflexivity|].
  rewrite Hcr. cbn [andb]. now apply IH.
Qed.

Lemma removeLine_none (s : EString) :
  noLineEnd s = true -> removeLine 0 s = None.
Proof.
  intros Hn. unfold removeLine. cbn [Nat.eqb].
  now rewrite removeLine_from_none.
Qed.

Lemma removeLine_limit_none (maxLength : nat) (s : EString) :
  maxLength <> 0 ->
  noLineEnd (firstn maxLength s) = true -> removeLine maxLength s = None.
Proof.
  intros Hm Hn. unfold removeLine.
  destruct (Nat.eqb_spec maxLength 0); [contradiction|].
  now rewrite removeLine_from_none.
Qed.

Lemma atZ_app_r (a b : EString) (k : nat) :
  atZ (a ++ b) (Z.of_nat (length a + k)) = nth k b NUL.
Proof.
  unfold atZ, at_. rewrite Nat2Z.id, length_app.
  destruct (Z.ltb_spec (Z.of_nat (length a + k))
                       (Z.of_nat (length a + length b))).
  - rewrite app_nth2_plus. reflexivity.
  - symmetry. apply nth_overflow. lia.
Qed.

Lemma to_uint_small (z : Z) : (0 <= z <= UINT_MAX)%Z -> to_uint z = z.
Proof.
  unfold to_uint, UINT_MAX. intros H. apply Z.mod_small. lia.
Qed.

Lemma number_from_digits (ds : EString) :
  forall acc n, number_from acc ds = Some n -> forallb isDigit ds = true.
Proof.
  induction ds as [|c ds IH]; intros acc n H; [reflexivity|].
  simpl in H. simpl. destruct (isDigit c); [|discriminate].
  destruct (_ <=? UINT_MAX)%Z in H; [|discriminate].
  simpl. eapply IH. exact H.
Qed.

Lemma number_digits (ds : EString) (n : Z) :
  number ds = Some n -> ds <> [] /\ forallb isDigit ds = true.
Proof.
  destruct ds as [|c ds]; [discriminate|].
  unfold number. intros H. split; [discriminate|].
  eapply number_from_digits. exact H.
Qed.

Lemma forallb_nth (f : ascii -> bool) (l : EString) (k : nat) :
  forallb f l = true -> k < length l -> f (nth k l NUL) = true.
Proof.
  intros H Hk. rewrite forallb_forall in H. apply H. now apply nth_In.
Qed.

Lemma scanDigits_stops (pre ds tail : EString) :
  forallb isDigit ds = true ->
  (Z.of_nat (length pre + length ds) <= UINT_MAX)%Z ->
  forall k fuel,
    k <= length ds -> k <= fuel ->
    scanDigits fuel (pre ++ "{"%char :: ds ++ tail)
               (Z.of_nat (length pre + k)) = Z.of_nat (length pre).
Proof.
  intros Hd Hl. induction k as [|k IH]; intros fuel Hk Hf.
  - rewrite Nat.add_0_r. destruct fuel as [|fuel]; [reflexivity|].
    cbn [scanDigits].
    replace (Z.of_nat (length pre)) with (Z.of_nat (length pre + 0))
      at 2 by (f_equal; lia).
    rewrite atZ_app_r. cbn [nth].
    now rewrite andb_false_r.
  - destruct fuel as [|fuel]; [lia|]. cbn [scanDigits].
    rewrite atZ_app_r. cbn [nth].
    rewrite app_nth1 by lia.
    rewrite (forallb_nth isDigit ds k Hd) by lia.
    destruct (Z.gtb_spec (Z.of_nat (length pre + S k)) 0); [|lia].
    cbn [andb].
    rewrite to_uint_small by lia.
    replace (Z.of_nat (length pre + S k) - 1)%Z
      with (Z.of_nat (length pre + k)) by lia.
    apply IH; lia.
Qed.

(** The digit scan of endsWithLiteral is given a turn for every octet
    of the string; it always stops where the condition of the loop
    fails. *)
Lemma scanDigits_exit (s : EString) :
  (Z.of_nat (length s) <= UINT_MAX)%Z ->
  forall fuel i,
    (0 <= i)%Z ->
    (i < Z.of_nat fuel)%Z \/ (Z.of_nat (length s) <= i)%Z ->
    fuel <= length s ->
    let r := scanDigits fuel s i in
    (r >? 0)%Z && isDigit (atZ s r) = false.
Proof.
  intros Hs. induction fuel as [|fuel IH]; intros i Hi Hr Hf; cbv zeta.
  - cbn [scanDigits]. destruct Hr as [Hr|Hr]; [lia|].
    unfold atZ. destruct (Z.ltb_spec i (Z.of_nat (length s))); [lia|].
    now rewrite andb_false_r.
  - cbn [scanDigits].
    destruct ((i >? 0)%Z && isDigit (atZ s i)) eqn:E; [|exact E].
    apply andb_true_iff in E. destruct E as [Hpos Hdig].
    assert (Hin : (i < Z.of_nat (length s))%Z).
    { unfold atZ in Hdig.
      destruct (Z.ltb_spec i (Z.of_nat (length s))); [assumption|].
      discriminate. }
    destruct (Z.gtb_spec i 0); [|discriminate].
    unfold UINT_MAX in Hs.
    rewrite to_uint_small by (unfold UINT_MAX; lia).
    apply IH; lia.
Qed.

Lemma isDigit_not_plus (c : ascii) : isDigit c = true -> ceq c "+"%char = false.
Proof.
  intros H. destruct (ceq c "+"%char) eqn:E; [|reflexivity].
  apply ceq_eq in E. subst c. discriminate.
Qed.

(** endsWithLiteral recognises a final {N} or {N+}. *)
Lemma endsWithLiteral_spec (pre ds : EString) (plus : bool) (n : Z) :
  let line :=
    pre ++ "{"%char :: ds ++ (if plus then ["+"%char] else []) ++ ["}"%char] in
  number ds = Some n ->
  (Z.of_nat (length line) <= UINT_MAX)%Z ->
  endsWithLiteral line = (true, n, plus).
Proof.
  intros line Hn Hl.
  destruct (number_digits ds n Hn) as [Hne Hd].
  assert (Hk : 1 <= length ds) by (destruct ds; simpl; [congruence | lia]).
  set (tail := (if plus then ["+"%char] else []) ++ ["}"%char]).
  assert (HT : length tail = (if plus then 2 else 1))
    by (unfold tail; destruct plus; reflexivity).
  assert (HT' : 1 <= length tail <= 2) by (destruct plus; lia).
  assert (HL : length line = length pre + 1 + length ds + length tail).
  { unfold line. rewrite length_app. cbn [length]. rewrite length_app.
    fold tail. lia. }
  unfold UINT_MAX in Hl.
  assert (Hat : forall k, atZ line (Z.of_nat (length pre + k))
                          = nth k ("{"%char :: ds ++ tail) NUL).
  { intros k. unfold line. fold tail. apply atZ_app_r. }
  unfold endsWithLiteral.
  (* endsWith "}" *)
  assert (He : endsWith line (lit "}") = true).
  { unfold endsWith. cbn [lit list_ascii_of_string length].
    apply andb_true_iff. split; [|apply Nat.leb_le; lia].
    replace line with ((pre ++ "{"%char :: ds
                            ++ (if plus then ["+"%char] else []))
                       ++ ["}"%char]).
    2:{ unfold line. rewrite <- app_assoc. cbn [app].
        now rewrite <- app_assoc. }
    rewrite length_app. cbn [length].
    replace (length (pre ++ "{"%char :: ds
                         ++ (if plus then ["+"%char] else [])) + 1 - 1)
      with (length (pre ++ "{"%char :: ds
                        ++ (if plus then ["+"%char] else []))) by lia.
    rewrite skipn_app_length. reflexivity. }
  rewrite He. cbn [negb].
  rewrite to_uint_small by (unfold UINT_MAX; lia).
  (* the octet before the closing brace *)
  assert (Hi : (if ceq (atZ line (Z.of_nat (length line) - 2)) "+"%char
                then (true, to_uint (Z.of_nat (length line) - 2 - 1))
                else (false, (Z.of_nat (length line) - 2)%Z))
               = (plus, Z.of_nat (length pre + length ds))).
  { destruct plus.
    - replace (Z.of_nat (length line) - 2)%Z
        with (Z.of_nat (length pre + S (length ds))) by lia.
      rewrite Hat. cbn [nth].
      rewrite app_nth2 by lia. rewrite Nat.sub_diag.
      unfold tail. cbn [app nth]. rewrite ceq_refl.
      rewrite to_uint_small by (unfold UINT_MAX; lia).
      f_equal. lia.
    - replace (Z.of_nat (length line) - 2)%Z
        with (Z.of_nat (length pre + S (length ds - 1))) by lia.
      rewrite Hat. cbn [nth].
      rewrite app_nth1 by lia.
      rewrite isDigit_not_plus.
      + f_equal. lia.
      + apply forallb_nth; [exact Hd | lia]. }
  rewrite Hi.
  (* the digits *)
  assert (Hs : scanDigits (length line) line
                 (Z.of_nat (length pre + length ds))
               = Z.of_nat (length pre)).
  { unfold line. fold tail. apply scanDigits_stops; auto.
    - unfold UINT_MAX. lia.
    - rewrite length_app. cbn [length]. rewrite length_app. lia. }
  rewrite Hs.
  replace (Z.of_nat (length pre)) with (Z.of_nat (length pre + 0))
    at 1 by (f_equal; lia).
  rewrite Hat. cbn [nth]. rewrite ceq_refl. cbn [negb].
  rewrite to_uint_small by (unfold UINT_MAX; lia).
  rewrite to_uint_small by (unfold UINT_MAX; lia).
  replace (Z.to_nat (Z.of_nat (length pre) + 1))
    with (length (pre ++ ["{"%char]))
    by (rewrite length_app; cbn [length]; lia).
  replace (Z.to_nat (Z.of_nat (length pre + length ds)
                     - Z.of_nat (length pre)))
    with (length ds) by lia.
  unfold mid.
  replace line with ((pre ++ ["{"%char]) ++ ds ++ tail)
    by (unfold line; fold tail; rewrite <- app_assoc; reflexivity).
  rewrite skipn_app_length, firstn_app_length, Hn. reflexivity.
Qed.

Lemma enqueue_fields (x : EString) (d : IMAP) :
  readBuffer (enqueue x d) = readBuffer d /\
  readingLiteral (enqueue x d) = readingLiteral d /\
  literalSize (enqueue x d) = literalSize d /\
  reader (enqueue x d) = reader d /\
  str (enqueue x d) = str d /\
  writeBuffer (enqueue x d) = writeBuffer d ++ x.
Proof. repeat split. Qed.

Lemma removeLine_from_length (s : EString) :
  forall acc l r,
    removeLine_from acc s = Some (l, r) ->
    length l + 2 + length r = length acc + length s.
Proof.
  induction s as [|c1 t IH]; intros acc l r H; [discriminate|].
  cbn [removeLine_from] in H. destruct t as [|c2 rest]; [discriminate|].
  destruct (ceq c1 CR && ceq c2 LF).
  - injection H as <- <-. simpl. lia.
  - apply IH in H. rewrite length_app in H. simpl in *. lia.
Qed.

Lemma removeLine_shrinks (s l r : EString) :
  removeLine 0 s = Some (l, r) -> length r + 2 <= length s.
Proof.
  unfold removeLine. cbn [Nat.eqb].
  destruct (removeLine_from [] s) as [[l' r']|] eqn:E; [|discriminate].
  intros H. injection H as <- <-.
  apply removeLine_from_length in E. simpl in E.
  rewrite length_skipn. lia.
Qed.

(** The measure that every further turn of the parse loop lowers. *)
Lemma parseTurn_measure (h : Handlers) (limit : Z) (d d' : IMAP) :
  framingSafe h ->
  parseTurn h limit d = Again d' ->
  3 * length (readBuffer d')
    + (if readingLiteral d' then 1 else 0)
    + (match reader d' with Some _ => 1 | None => 0 end)
  < 3 * length (readBuffer d)
    + (if readingLiteral d then 1 else 0)
    + (match reader d with Some _ => 1 | None => 0 end).
Proof.
  intros [Hadd Hread]. unfold parseTurn, readingLine.
  destruct (readingLiteral d) eqn:Erl; cbn [negb andb].
  - destruct (Z.of_nat (length (readBuffer d)) <? literalSize d)%Z;
      [discriminate|].
    intros H. injection H as <-. cbn. rewrite length_skipn.
    destruct (reader d); lia.
  - destruct (reader d) as [i|] eqn:Er.
    + destruct (reader (cmd_read h i d)) eqn:Er'; [discriminate|].
      intros H. injection H as <-.
      destruct (Hread i d) as [Hlen Hlit].
      rewrite Er', Hlit, Erl. lia.
    + destruct (removeLine 0 (readBuffer d)) as [[s rest]|] eqn:El;
        [|discriminate].
      apply removeLine_shrinks in El.
      destruct (endsWithLiteral s) as [[literal n] plus].
      intros H. injection H as <-.
      match goal with
      | |- context [if negb (readingLiteral ?x) then _ else _] =>
          set (dl := x)
      end.
      assert (Hb : readBuffer dl = rest).
      { unfold dl. destruct literal; [|reflexivity].
        destruct (n <=? limit)%Z; [|reflexivity].
        destruct plus; reflexivity. }
      assert (Hr : reader dl = None).
      { unfold dl. destruct literal; [|exact Er].
        destruct (n <=? limit)%Z; [|exact Er].
        destruct plus; exact Er. }
      destruct (readingLiteral dl) eqn:Edl; cbn [negb].
      * rewrite Hb, Edl, Hr. lia.
      * destruct (Hadd dl) as (A1 & A2 & A3).
        cbn. rewrite A1, A2, A3, Hb, Edl, Hr. lia.
Qed.

Lemma parseLoop_returns (h : Handlers) (limit : Z) :
  framingSafe h ->
  forall fuel d,
    3 * length (readBuffer d)
      + (if readingLiteral d then 1 else 0)
      + (match reader d with Some _ => 1 | None => 0 end) < fuel ->
    exists d', parseLoop h limit fuel d = Some d'.
Proof.
  intros Hsafe. induction fuel as [|fuel IH]; intros d Hm; [lia|].
  cbn [parseLoop]. destruct (parseTurn h limit d) as [r|d1] eqn:E.
  - now exists r.
  - apply IH. pose proof (parseTurn_measure h limit d d1 Hsafe E). lia.
Qed.

Lemma maybeParseProxyLeader_fields (d : IMAP) :
  length (readBuffer (snd (maybeParseProxyLeader d)))
    <= length (readBuffer d) /\
  readingLiteral (snd (maybeParseProxyLeader d)) = readingLiteral d /\
  reader (snd (maybeParseProxyLeader d)) = reader d.
Proof.
  unfold maybeParseProxyLeader.
  repeat match goal with
         | |- context [if ?b then _ else _] => destruct b
         | |- context [match ?n with 0 => _ | S _ => _ end] => destruct n
         end;
    cbn [snd readBuffer readingLiteral reader set_maybeProxy set_readBuffer
         set_real];
    try rewrite length_skipn; repeat split; lia.
Qed.

(** IMAP::parse returns: with handlers that do not feed the read
    buffer, parseFuel turns are enough. *)
Lemma parse_returns (h : Handlers) (limit : Z) (d : IMAP) :
  framingSafe h ->
  exists d', parse h limit (parseFuel d) d = Some d'.
Proof.
  intros Hsafe. unfold parse.
  pose proof (maybeParseProxyLeader_fields d) as (H1 & H2 & H3).
  destruct (maybeParseProxyLeader d) as [cont d0].
  cbn [snd] in H1, H2, H3.
  destruct cont; cbn [negb]; [|now exists d0].
  apply parseLoop_returns; [exact Hsafe|].
  unfold parseFuel. rewrite H2, H3.
  destruct (readingLiteral d), (reader d); lia.
Qed.

(** C3: literal framing, and where it is missed.  A command line that
    IMAP::parse reads and that ends with {N} or {N+}, N within the
    literal size limit: in that turn of the loop the line and its CRLF
    are moved to the command text and, only when there is no '+', the
    continuation request "+ reading literal" is written, while what
    follows the line stays unread in the buffer.  As long as fewer than
    N octets are there the call returns, in that state; once input has
    brought them, the next turn moves exactly N octets to the command
    text and writes nothing, and the loop is back to reading a line
    from what follows, so that a further literal is treated the same
    way.  With handlers that leave the read buffer alone every call
    returns.  The miss: before any of this, IMAP::parse waits for the
    PROXY check, which on a connection that has not passed it returns
    without reading as long as fewer than 16 octets have arrived; a
    first line of 13 octets that announces a literal is not read and no
    continuation request is written.  With at least 16 octets that do
    not begin with the PROXY signature the check is passed and the
    loop runs as described: the same LOGIN under a tag that makes the
    line 16 octets is read, the request is written and the call
    returns; when the literal and the rest of the line have arrived,
    one command is queued with the literal in its text and nothing
    more is written.  The last worked example is a LOGIN with a
    LITERAL+ user name and a synchronising password literal: one
    continuation request, for the second literal only, and one command
    with both literals in its text. *)
Theorem literal_framing (h : Handlers) (limit : Z) :
  (forall (d : IMAP) (pre ds after : EString) (plus : bool) (n : Z),
     let line :=
       pre ++ "{"%char :: ds
           ++ (if plus then ["+"%char] else []) ++ ["}"%char] in
     let request := if plus then [] else lit "+ reading literal" ++ CRLF in
     let d1 :=
       set_writeBuffer (writeBuffer d ++ request)
         (set_literal true n
            (set_str ((str d ++ line) ++ CRLF)
               (set_readBuffer after d))) in
     readingLine d = true ->
     removeLine 0 (readBuffer d) = Some (line, after) ->
     (Z.of_nat (length line) <= UINT_MAX)%Z ->
     number ds = Some n ->
     (n <= limit)%Z ->
     parseTurn h limit d = Again d1 /\
     readBuffer d1 = after /\
     writeBuffer d1 = writeBuffer d ++ request /\
     str d1 = str d ++ line ++ CRLF /\
     readingLiteral d1 = true /\
     literalSize d1 = n /\
     ((Z.of_nat (length after) < n)%Z ->
      forall fuel,
        parseLoop h limit (S (S fuel)) d = Some d1 /\
        (maybeProxy d = false ->
         parse h limit (S (S fuel)) d = Some d1))) /\
  (forall w : IMAP,
     readingLiteral w = true ->
     (Z.of_nat (length (readBuffer w)) < literalSize w)%Z ->
     parseTurn h limit w = Return w /\
     forall fuel,
       parseLoop h limit (S fuel) w = Some w /\
       (maybeProxy w = false -> parse h limit (S fuel) w = Some w)) /\
  (forall (w : IMAP) (literal rest : EString),
     let d2 :=
       set_literal false (literalSize w)
         (set_readBuffer rest (set_str (str w ++ literal) w)) in
     readingLiteral w = true ->
     readBuffer w = literal ++ rest ->
     Z.of_nat (length literal) = literalSize w ->
     parseTurn h limit w = Again d2 /\
     str d2 = str w ++ literal /\
     readBuffer d2 = rest /\
     writeBuffer d2 = writeBuffer w /\
     readingLiteral d2 = false /\
     readingLine d2
       = match reader w with None => true | Some _ => false end /\
     (forall fuel,
        parseLoop h limit (S fuel) w = parseLoop h limit fuel d2) /\
     (maybeProxy w = false ->
      forall fuel,
        parse h limit (S fuel) w = parseLoop h limit fuel d2) /\
     (reader w = None -> removeLine 0 rest = None ->
      forall fuel,
        parseLoop h limit (S (S fuel)) w = Some d2 /\
        (maybeProxy w = false ->
         parse h limit (S (S fuel)) w = Some d2))) /\
  (framingSafe h ->
   forall d, exists d', parse h limit (parseFuel d) d = Some d') /\
  (forall (d : IMAP) (fuel : nat),
     maybeProxy d = true ->
     length (readBuffer d) < 16 ->
     parse h limit fuel d = Some d) /\
  (forall (d : IMAP) (fuel : nat),
     maybeProxy d = true ->
     16 <= length (readBuffer d) ->
     firstn 12 (readBuffer d) <> v2sig ->
     parse h limit fuel d = parseLoop h limit fuel (set_maybeProxy false d)) /\
  (removeLine 0 (readBuffer shortLiteralLogin)
     = Some (lit "a login {5}", []) /\
   endsWithLiteral (lit "a login {5}") = (true, 5%Z, false) /\
   writeBuffer shortLiteralLogin = [] /\
   forall fuel,
     parse h limit fuel shortLiteralLogin = Some shortLiteralLogin) /\
  (forall fuel,
     parse recorder 1024 (2 + fuel) syncLiteralLogin = Some askedForLiteral /\
     parse recorder 1024 (3 + fuel)
           (set_readBuffer (lit "alice pw" ++ CRLF) askedForLiteral) =
       Some
         (set_commands
            [ {| Command.id := 0; Command.tag := [];
                 Command.name :=
                   lit "A001 LOGIN {5}" ++ CRLF ++ lit "alice pw";
                 Command.group := 0; Command.state := Command.Unparsed;
                 Command.usesMsn := false; Command.ok := true |} ]
            (set_literal false 5 (set_str [] askedForLiteral)))) /\
  (forall fuel,
     parse recorder 1024 (6 + fuel) literalPlusLogin =
       Some
         (set_commands
            [ {| Command.id := 0; Command.tag := [];
                 Command.name :=
                   lit "A001 LOGIN {1+}" ++ CRLF ++ lit "u {4}" ++ CRLF
                   ++ lit "secr";
                 Command.group := 0; Command.state := Command.Unparsed;
                 Command.usesMsn := false; Command.ok := true |} ]
            (set_writeBuffer (lit "+ reading literal" ++ CRLF)
               (set_literal false 4
                  (set_readBuffer []
                     (set_maybeProxy false create)))))).
Proof.
  assert (Hwait : forall w : IMAP,
            readingLiteral w = true ->
            (Z.of_nat (length (readBuffer w)) < literalSize w)%Z ->
            parseTurn h limit w = Return w).
  { intros w Hw Hshort. unfold parseTurn, readingLine.
    rewrite Hw. cbn [negb andb].
    destruct (Z.ltb_spec (Z.of_nat (length (readBuffer w))) (literalSize w));
      [reflexivity | lia]. }
  assert (Hnoproxy : forall (d : IMAP) (fuel : nat),
            maybeProxy d = false ->
            parse h limit fuel d = parseLoop h limit fuel d).
  { intros d fuel Hp. unfold parse, maybeParseProxyLeader. now rewrite Hp. }
  assert (Hshort : forall (d : IMAP) (fuel : nat),
            maybeProxy d = true ->
            length (readBuffer d) < 16 ->
            parse h limit fuel d = Some d).
  { intros d fuel Hp Hlen. unfold parse, maybeParseProxyLeader.
    rewrite Hp. cbn [negb]. apply Nat.ltb_lt in Hlen. now rewrite Hlen. }
  split.
  { intros d pre ds after plus n line request d1 Hrl Hbuf Hlen Hnum Hlim.
    assert (H1 : parseTurn h limit d = Again d1).
    { assert (Hew : endsWithLiteral line = (true, n, plus))
        by exact (endsWithLiteral_spec pre ds plus n Hnum Hlen).
      unfold parseTurn. rewrite Hrl, Hbuf, Hew.
      destruct (Z.leb_spec n limit); [|lia].
      unfold d1, request. destruct plus; cbn [negb].
      - cbn. rewrite app_nil_r. reflexivity.
      - cbn. reflexivity. }
    split; [exact H1|]. split; [reflexivity|]. split; [reflexivity|].
    split; [cbn; now rewrite <- app_assoc|].
    split; [reflexivity|]. split; [reflexivity|].
    intros Hfew fuel.
    assert (H2 : parseTurn h limit d1 = Return d1)
      by (apply Hwait; [reflexivity | exact Hfew]).
    assert (H3 : parseLoop h limit (S (S fuel)) d = Some d1)
      by (cbn [parseLoop]; now rewrite H1, H2).
    split; [exact H3|]. intros Hp. now rewrite Hnoproxy. }
  split.
  { intros w Hw Hfew. split; [now apply Hwait|]. intros fuel.
    assert (H3 : parseLoop h limit (S fuel) w = Some w)
      by (cbn [parseLoop]; now rewrite Hwait).
    split; [exact H3|]. intros Hp. now rewrite Hnoproxy. }
  split.
  { intros w literal rest d2 Hw Hbuf Hlit.
    assert (H2 : parseTurn h limit w = Again d2).
    { unfold parseTurn, readingLine. rewrite Hw. cbn [negb andb].
      rewrite Hbuf.
      destruct (Z.ltb_spec (Z.of_nat (length (literal ++ rest)))
                           (literalSize w)) as [Hlt|_].
      { rewrite length_app in Hlt. lia. }
      replace (Z.to_nat (literalSize w)) with (length literal) by lia.
      cbn [readBuffer set_str].
      rewrite Hbuf, firstn_app_length, skipn_app_length.
      reflexivity. }
    assert (H3 : forall fuel,
               parseLoop h limit (S fuel) w = parseLoop h limit fuel d2)
      by (intros fuel; cbn [parseLoop]; now rewrite H2).
    split; [exact H2|]. split; [reflexivity|]. split; [reflexivity|].
    split; [reflexivity|]. split; [reflexivity|].
    split; [reflexivity|].
    split; [exact H3|].
    split; [intros Hp fuel; rewrite Hnoproxy by exact Hp; apply H3|].
    intros Hr Hnone fuel.
    assert (H4 : parseTurn h limit d2 = Return d2).
    { unfold parseTurn.
      assert (E1 : readingLine d2 = true)
        by (unfold readingLine; cbn; now rewrite Hr).
      rewrite E1.
      assert (E2 : readBuffer d2 = rest) by reflexivity.
      rewrite E2, Hnone. reflexivity. }
    assert (H5 : parseLoop h limit (S (S fuel)) w = Some d2)
      by (rewrite H3; cbn [parseLoop]; now rewrite H4).
    split; [exact H5|]. intros Hp. now rewrite Hnoproxy. }
  split.
  { intros Hsafe d. now apply parse_returns. }
  split; [exact Hshort|].
  split.
  { intros d fuel Hp Hlen Hsig. unfold parse, maybeParseProxyLeader.
    rewrite Hp. cbn [negb].
    assert (E1 : (length (readBuffer d) <? 16) = false)
      by (apply Nat.ltb_ge; exact Hlen).
    rewrite E1.
    destruct (eqb (firstn 12 (readBuffer d)) v2sig) eqn:Es.
    - apply EStrFacts.eqb_eq in Es. contradiction.
    - reflexivity. }
  split.
  { split; [vm_compute; reflexivity|].
    split; [vm_compute; reflexivity|].
    split; [reflexivity|].
    intros fuel. apply Hshort; [reflexivity | cbn; lia]. }
  split.
  { intros fuel. split; vm_compute; reflexivity. }
  intros fuel. vm_compute. reflexivity.
Qed.

End FramingSpec.

(** ** The line length limit *)

Module LineLimitSpec.
Import EStr EStrFacts Buffer.

(** C4, as the code has it: the limit of 4096 octets is that of the
    SMTP server.  When an SMTP, LMTP or Submit connection holds more
    than 4096 octets with no line end among the first 4096,
    SMTP::parseCommand writes "500 Line too long (legal maximum is 998
    bytes)" and sets the connection to Closing.  The IMAP parser has no
    such limit: without a line end it leaves the connection as it is,
    whatever the number of octets. *)
Theorem line_limit (d : Smtp.SMTP) :
  4096 < length (Smtp.readBuffer d) ->
  noLineEnd (firstn 4096 (Smtp.readBuffer d)) = true ->
  Smtp.parseCommand d =
    {| Smtp.readBuffer := Smtp.readBuffer d;
       Smtp.writeBuffer :=
         Smtp.writeBuffer d
         ++ lit "500 Line too long (legal maximum is 998 bytes)" ++ CRLF;
       Smtp.connectionState := Smtp.Closing;
       Smtp.commands := Smtp.commands d |} /\
  (forall h limit i,
     Imap.readingLine i = true ->
     noLineEnd (Imap.readBuffer i) = true ->
     Imap.parseTurn h limit i = Imap.Return i).
Proof.
  intros Hlen Hn. split.
  - unfold Smtp.parseCommand.
    rewrite FramingSpec.removeLine_limit_none by (auto; discriminate).
    destruct (Nat.ltb_spec 4096 (length (Smtp.readBuffer d))); [|lia].
    reflexivity.
  - intros h limit i Hr Hi. unfold Imap.parseTurn.
    rewrite Hr. now rewrite FramingSpec.removeLine_none.
Qed.

(** 4097 octets without a line end on an SMTP connection. *)
Lemma smtp_long_line :
  Smtp.writeBuffer (Smtp.parseCommand Smtp.longLine) =
    lit "500 Line too long (legal maximum is 998 bytes)" ++ CRLF /\
  Smtp.connectionState (Smtp.parseCommand Smtp.longLine) = Smtp.Closing.
Proof.
  assert (Hlen : 4096 < length (Smtp.readBuffer Smtp.longLine))
    by (vm_compute; lia).
  assert (Hn : noLineEnd (firstn 4096 (Smtp.readBuffer Smtp.longLine)) = true)
    by (vm_compute; reflexivity).
  destruct (line_limit Smtp.longLine Hlen Hn) as [H _].
  rewrite H. split; reflexivity.
Defined.

(** C4, as stated, fails: an IMAP client sends 4097 octets without a
    line end; IMAP::parse returns with nothing written and the
    connection still open, and so does the scheduler run that
    follows. *)
Lemma imap_long_line_no_reply :
  length (Imap.readBuffer Imap.longLine) = 4097 /\
  noLineEnd (Imap.readBuffer Imap.longLine) = true /\
  Imap.parse Imap.quietHandlers 1024 (Imap.parseFuel Imap.longLine)
             Imap.longLine
    = Some (Imap.set_maybeProxy false Imap.longLine) /\
  Imap.writeBuffer (Imap.set_maybeProxy false Imap.longLine) = [] /\
  Imap.connectionState (Imap.set_maybeProxy false Imap.longLine)
    = Imap.Connected /\
  Imap.runCommands Imap.quietHandlers Imap.atThousand 1
                   (Imap.set_maybeProxy false Imap.longLine)
    = Some (Imap.set_running false false
              (Imap.set_maybeProxy false Imap.longLine)).
Proof.
  repeat split; vm_compute; reflexivity.
Qed.

End LineLimitSpec.

(** ** SmtpClient::dotted *)

Module DottedSpec.
Import EStr EStrFacts Buffer SmtpClient.

Lemma skipn_cons_at (s : EString) :
  forall i c t,
    skipn i s = c :: t ->
    i < length s /\ at_ s i = c /\ skipn (i + 1) s = t /\
    at_ s (i + 1) = nth 0 t NUL.
Proof.
  induction s as [|x s IH]; intros i c t H.
  - destruct i; discriminate.
  - destruct i as [|i].
    + simpl in H. injection H as -> ->. simpl.
      repeat split; try lia; try (destruct t; reflexivity).
    + simpl in H. apply IH in H. destruct H as (H1 & H2 & H3 & H4).
      simpl. repeat split; auto; try lia.
Qed.

Lemma skipn_nil_ge (s : EString) (i : nat) :
  skipn i s = [] -> length s <= i.
Proof. intros H. now apply skipn_all_iff. Qed.

(** The loop over the index computes what the recursion over the
    remaining octets computes, when it is given a turn for every octet
    that is left. *)
Lemma dottedLoop_rest (s : EString) :
  forall fuel i sol r,
    length s - i <= fuel ->
    dottedLoop fuel s i sol r =
      (r ++ fst (dottedRest (skipn i s) sol),
       snd (dottedRest (skipn i s) sol)).
Proof.
  induction fuel as [|fuel IH]; intros i sol r Hf.
  - assert (E : skipn i s = []) by (apply skipn_all_iff; lia).
    rewrite E. simpl. now rewrite app_nil_r.
  - cbn [dottedLoop].
    destruct (skipn i s) as [|c t] eqn:E.
    + apply skipn_nil_ge in E.
      destruct (Nat.ltb_spec i (length s)); [lia|].
      simpl. now rewrite app_nil_r.
    + destruct (skipn_cons_at s i c t E) as (Hi & Hc & Ht & Hn).
      destruct (Nat.ltb_spec i (length s)); [|lia].
      rewrite Hc, Hn. cbn [dottedRest].
      destruct (ceq c CR) eqn:Ecr.
      * destruct t as [|c2 t'].
        -- cbn [nth]. change (ceq NUL LF) with false. cbn iota.
           rewrite IH by lia. rewrite Ht. simpl. now rewrite app_nil_r.
        -- cbn [nth]. destruct (ceq c2 LF) eqn:Elf.
           ++ rewrite IH by lia.
              assert (E2 : skipn (i + 1 + 1) s = t').
              { replace (i + 1 + 1) with (1 + (i + 1)) by lia.
                rewrite <- skipn_skipn, Ht. reflexivity. }
              rewrite E2. cbn [fst snd]. now rewrite <- app_assoc.
           ++ rewrite IH by lia. rewrite Ht. cbn [fst snd].
              now rewrite <- app_assoc.
      * destruct (ceq c LF) eqn:Elf.
        -- rewrite IH by lia. rewrite Ht. cbn [fst snd].
           now rewrite <- app_assoc.
        -- rewrite IH by lia. rewrite Ht. cbn [fst snd].
           destruct (sol && ceq c "."%char);
             now rewrite <- !app_assoc.
Qed.

Lemma dotted_rest (s : EString) :
  dotted s =
    fst (dottedRest s true)
    ++ (if snd (dottedRest s true) then [] else CRLF)
    ++ lit "." ++ CRLF.
Proof.
  unfold dotted. rewrite dottedLoop_rest by lia. cbn [skipn app].
  destruct (snd (dottedRest s true)); cbn [negb].
  - reflexivity.
  - now rewrite <- app_assoc.
Qed.

Lemma stuffLine_snoc (cur : EString) (c : ascii) :
  stuffLine (cur ++ [c]) =
    stuffLine cur
    ++ (if isEmpty cur && ceq c "."%char then ["."%char] else []) ++ [c].
Proof.
  destruct cur as [|x cur]; simpl.
  - destruct (ceq c "."%char); reflexivity.
  - destruct (ceq x "."%char); reflexivity.
Qed.

Lemma isEmpty_snoc (cur : EString) (c : ascii) : isEmpty (cur ++ [c]) = false.
Proof. destruct cur; reflexivity. Qed.

(** The lines of the claim against the loop of the code. *)
Lemma lines_rest :
  forall n s, length s <= n ->
  forall cur,
    concat (map (fun l => stuffLine l ++ CRLF) (linesFrom cur s)) =
      stuffLine cur
      ++ fst (dottedRest s (isEmpty cur))
      ++ (if snd (dottedRest s (isEmpty cur)) then [] else CRLF).
Proof.
  induction n as [|n IH]; intros s Hlen cur.
  - destruct s; [|simpl in Hlen; lia].
    cbn [linesFrom dottedRest fst snd app].
    destruct cur; simpl; [reflexivity | now rewrite app_nil_r].
  - destruct s as [|c t].
    + cbn [linesFrom dottedRest fst snd app].
      destruct cur; simpl; [reflexivity | now rewrite app_nil_r].
    + simpl in Hlen. cbn [linesFrom dottedRest].
      destruct (ceq c CR) eqn:Ecr.
      * destruct t as [|c2 t'].
        -- simpl. now rewrite !app_nil_r.
        -- destruct (ceq c2 LF).
           ++ cbn [map concat fst snd]. rewrite (IH t') by (simpl in Hlen; lia).
              cbn [stuffLine isEmpty app]. now rewrite <- !app_assoc.
           ++ cbn [map concat fst snd]. rewrite (IH (c2 :: t')) by lia.
              cbn [stuffLine isEmpty app]. now rewrite <- !app_assoc.
      * destruct (ceq c LF).
        -- cbn [map concat fst snd]. rewrite (IH t) by lia.
           cbn [stuffLine isEmpty app]. now rewrite <- !app_assoc.
        -- rewrite (IH t) by lia. rewrite isEmpty_snoc, stuffLine_snoc.
           cbn [fst snd]. now rewrite <- !app_assoc.
Qed.

Lemma dotted_dottedSpec (s : EString) : dotted s = dottedSpec s.
Proof.
  rewrite dotted_rest. unfold dottedSpec, lines.
  rewrite (lines_rest (length s) s (le_n _) []).
  cbn [stuffLine isEmpty app]. now rewrite <- !app_assoc.
Qed.

Lemma noLineEnd_snoc (cur : EString) (c : ascii) :
  noLineEnd cur = true -> ceq c CR = false -> ceq c LF = false ->
  noLineEnd (cur ++ [c]) = true.
Proof.
  intros H1 H2 H3. unfold noLineEnd in *. rewrite forallb_app, H1.
  simpl. now rewrite H2, H3.
Qed.

Lemma lines_noLineEnd :
  forall n s, length s <= n ->
  forall cur, noLineEnd cur = true ->
    Forall (fun l => noLineEnd l = true) (linesFrom cur s).
Proof.
  induction n as [|n IH]; intros s Hlen cur Hc.
  - destruct s; [|simpl in Hlen; lia].
    cbn [linesFrom]. destruct (isEmpty cur); auto.
  - destruct s as [|c t].
    + cbn [linesFrom]. destruct (isEmpty cur); auto.
    + simpl in Hlen. cbn [linesFrom].
      destruct (ceq c CR) eqn:Ecr.
      * destruct t as [|c2 t']; [auto|].
        destruct (ceq c2 LF); constructor; auto;
          apply IH; simpl in *; auto; lia.
      * destruct (ceq c LF) eqn:Elf.
        -- constructor; auto. apply IH; auto. lia.
        -- apply IH; [lia|]. now apply noLineEnd_snoc.
Qed.

Lemma stuffLine_noLineEnd (l : EString) :
  noLineEnd l = true -> noLineEnd (stuffLine l) = true.
Proof.
  destruct l as [|c l]; simpl; auto.
  destruct (ceq c "."%char); simpl; auto.
Qed.

Lemma stuffLine_not_dot (l : EString) : eqb (stuffLine l) (lit ".") = false.
Proof.
  destruct l as [|c l]; [reflexivity|]. simpl.
  destruct (ceq c "."%char) eqn:E.
  - cbn [eqb lit list_ascii_of_string]. now rewrite andb_false_r.
  - cbn [eqb lit list_ascii_of_string]. now rewrite E.
Qed.

Lemma unstuff_stuff (l : EString) : Smtp.unstuffLine (stuffLine l) = l.
Proof.
  destruct l as [|c l]; [reflexivity|]. simpl.
  destruct (ceq c "."%char) eqn:E; simpl.
  - reflexivity.
  - now rewrite E.
Qed.

Lemma undot_lines (ls : list EString) :
  Forall (fun l => noLineEnd l = true) ls ->
  forall fuel body,
    length ls < fuel ->
    Smtp.undotLoop fuel
      (concat (map (fun l => stuffLine l ++ CRLF) ls) ++ lit "." ++ CRLF)
      body
    = Some (body ++ concat (map (fun l => l ++ CRLF) ls)).
Proof.
  induction 1 as [|l ls Hl Hls IH]; intros fuel body Hf.
  - destruct fuel as [|fuel]; [simpl in Hf; lia|].
    cbn [map concat app Smtp.undotLoop].
    replace (lit "." ++ CRLF) with (lit "." ++ CRLF ++ [])
      by now rewrite app_nil_r.
    rewrite FramingSpec.removeLine_line by reflexivity.
    rewrite eqb_refl. now rewrite app_nil_r.
  - destruct fuel as [|fuel]; [simpl in Hf; lia|].
    cbn [map concat Smtp.undotLoop].
    rewrite <- !app_assoc.
    rewrite FramingSpec.removeLine_line by now apply stuffLine_noLineEnd.
    rewrite stuffLine_not_dot, unstuff_stuff.
    rewrite IH by (simpl in Hf; lia).
    now rewrite <- !app_assoc.
Qed.

Lemma lines_length (ls : list EString) :
  length ls
  <= length (concat (map (fun l => stuffLine l ++ CRLF) ls) ++ lit "." ++ CRLF).
Proof.
  induction ls as [|l ls IH]; simpl; [lia|].
  rewrite !length_app in *. simpl in *. lia.
Qed.

(** Un-stuffing what dotted produced gives the body with its line ends
    normalised and its last line ended. *)
Lemma undotted_dotted (s : EString) :
  Smtp.undotted (dotted s) = Some (normalised s).
Proof.
  rewrite dotted_dottedSpec. unfold Smtp.undotted, dottedSpec, normalised.
  rewrite undot_lines.
  - reflexivity.
  - unfold lines. now apply (lines_noLineEnd (length s)).
  - pose proof (lines_length (lines s)). lia.
Qed.

Lemma endsCRLF_cons (a b c : ascii) (t : EString) :
  endsCRLF (a :: b :: c :: t) = endsCRLF (b :: c :: t).
Proof. reflexivity. Qed.

(** For a body without bare CR or LF, the final value of sol says
    whether the body ends at a line boundary. *)
Lemma rest_sol :
  forall n s, length s <= n -> noBare s = true ->
  forall sol,
    snd (dottedRest s sol) = if isEmpty s then sol else endsCRLF s.
Proof.
  induction n as [|n IH]; intros s Hlen Hb sol.
  - destruct s; [reflexivity | simpl in Hlen; lia].
  - destruct s as [|c t]; [reflexivity|].
    simpl in Hlen. cbn [noBare] in Hb. cbn [dottedRest isEmpty].
    destruct (ceq c CR) eqn:Ecr.
    + destruct t as [|c2 t']; [discriminate|].
      apply andb_true_iff in Hb. destruct Hb as [Hlf Hb].
      rewrite Hlf. cbn [snd].
      rewrite (IH t') by (simpl in Hlen; auto; lia).
      destruct t' as [|c3 t''].
      * simpl. now rewrite Ecr, Hlf.
      * cbn [isEmpty]. rewrite endsCRLF_cons.
        destruct t'' as [|c4 t3].
        -- simpl. cbn [noBare] in Hb.
           destruct (ceq c3 CR); [discriminate|].
           destruct (ceq c3 LF) eqn:E3; [discriminate|].
           now rewrite andb_false_r.
        -- now rewrite endsCRLF_cons.
    + destruct (ceq c LF) eqn:Elf; [discriminate|].
      cbn [snd]. rewrite (IH t) by (auto; lia).
      destruct t as [|c2 t']; [reflexivity|].
      cbn [isEmpty]. destruct t' as [|c3 t''].
      * simpl. now rewrite Ecr.
      * now rewrite endsCRLF_cons.
Qed.

Lemma normalised_from :
  forall n s, length s <= n -> noBare s = true ->
  forall cur,
    concat (map (fun l => l ++ CRLF) (linesFrom cur s)) =
      cur ++ s ++ (if snd (dottedRest s (isEmpty cur)) then [] else CRLF).
Proof.
  induction n as [|n IH]; intros s Hlen Hb cur.
  - destruct s; [|simpl in Hlen; lia].
    cbn [linesFrom dottedRest snd app].
    destruct cur; simpl; [reflexivity | now rewrite app_nil_r].
  - destruct s as [|c t].
    + cbn [linesFrom dottedRest snd app].
      destruct cur; simpl; [reflexivity | now rewrite app_nil_r].
    + simpl in Hlen. cbn [noBare] in Hb. cbn [linesFrom dottedRest].
      destruct (ceq c CR) eqn:Ecr.
      * destruct t as [|c2 t']; [discriminate|].
        apply andb_true_iff in Hb. destruct Hb as [Hlf Hb].
        rewrite Hlf. cbn [map concat snd].
        rewrite (IH t') by (simpl in Hlen; auto; lia).
        apply FramingSpec.ceq_eq in Ecr, Hlf. subst c c2.
        cbn [isEmpty app]. now rewrite <- !app_assoc.
      * destruct (ceq c LF) eqn:Elf; [discriminate|].
        rewrite (IH t) by (auto; lia). rewrite isEmpty_snoc.
        cbn [snd]. now rewrite <- !app_assoc.
Qed.

Lemma normalised_noBare (s : EString) :
  noBare s = true ->
  normalised s = if endsAtBoundary s then s else s ++ CRLF.
Proof.
  intros Hb. unfold normalised, lines.
  rewrite (normalised_from (length s) s (le_n _) Hb []).
  cbn [isEmpty app].
  rewrite (rest_sol (length s) s (le_n _) Hb true).
  unfold endsAtBoundary. destruct s as [|c t]; [reflexivity|].
  cbn [isEmpty orb]. destruct (endsCRLF (c :: t)); [|reflexivity].
  now rewrite app_nil_r.
Qed.

(** C6, as the code has it.  SmtpClient::dotted writes the lines of
    its argument, where a line ends at a CRLF pair, a lone CR or a lone
    LF (or at the end of the argument, when octets are left over), each
    with an extra '.' in front when it begins with '.', each ended by
    CRLF, and then ".CRLF".  Dot-unstuffing the result gives the body
    back with its line ends normalised; for a body without bare CR or
    LF that is the body itself when it is empty or ends with CRLF, and
    the body with a CRLF added otherwise. *)
Theorem dotted_roundtrip (s : EString) :
  dotted s = dottedSpec s /\
  Smtp.undotted (dotted s) = Some (normalised s) /\
  (noBare s = true ->
   Smtp.undotted (dotted s) =
     Some (if endsAtBoundary s then s else s ++ CRLF)).
Proof.
  split; [apply dotted_dottedSpec|]. split; [apply undotted_dotted|].
  intros Hb. rewrite undotted_dotted. f_equal. now apply normalised_noBare.
Qed.

(** C6, as stated, fails: "abc" and "abc" CRLF contain no bare CR or
    LF and are dot-stuffed to the same octets, so no un-stuffing gives
    both of them back. *)
Lemma dotted_not_invertible :
  ~ (exists undot : EString -> EString,
       forall s, noBare s = true -> undot (dotted s) = s).
Proof.
  intros [undot H].
  pose proof (H (lit "abc") eq_refl) as H1.
  pose proof (H (lit "abc" ++ CRLF) eq_refl) as H2.
  assert (E : dotted (lit "abc") = dotted (lit "abc" ++ CRLF))
    by reflexivity.
  rewrite E in H1. rewrite H1 in H2. discriminate.
Qed.

End DottedSpec.

(** ** The outbound client: failure replies *)

Module SmtpClientSpec.
Import EStr EStrFacts SmtpClient.
Local Open Scope Z_scope.

(** A status of the usual form, one digit in each place, is never taken
    from the reply: the space that ends it is found at offset 5 of the
    text after the reply code, and the code asks for more than 5. *)
Lemma enhancedStatus_short_triple (l : EString) (s : State) :
  find (mid_from l 4) " "%char <= 5 ->
  enhancedStatus l true s = enhancedStatus l false s.
Proof.
  intros H. unfold enhancedStatus. cbn [andb].
  destruct ((50 <=? nat_of_ascii (at_ l 4))%nat
            || (nat_of_ascii (at_ l 4) <=? 53)%nat); cbn [andb];
    [|reflexivity].
  destruct (ceq (at_ l 5) "."%char); [|reflexivity].
  destruct (Z.gtb_spec (find (mid_from l 4) " "%char) 5); [lia|].
  reflexivity.
Qed.

Lemma updateNth_same (f : Recipient.t -> Recipient.t) (l : list Recipient.t) :
  forall i r, nth_error l i = Some r ->
              nth_error (updateNth i f l) i = Some (f r).
Proof.
  induction l as [|x l IH]; intros [|i] r H; try discriminate; simpl in *.
  - now injection H as ->.
  - now apply IH.
Qed.

Lemma updateNth_other (f : Recipient.t -> Recipient.t) (l : list Recipient.t) :
  forall i j, i <> j -> nth_error (updateNth j f l) i = nth_error l i.
Proof.
  induction l as [|x l IH]; intros [|i] [|j] H; simpl; auto;
    try congruence.
Qed.

(** The loops over recipients touch those whose action is Unknown and
    no others. *)
Lemma settle_keeps (a : Recipient.Action) (status : EString) (l : list nat) :
  forall c i r,
    nth_error (recipientStore c) i = Some r ->
    Recipient.action r <> Recipient.Unknown ->
    nth_error (recipientStore (settle a status l c)) i = Some r.
Proof.
  unfold settle. induction l as [|j l IH]; intros c i r Hi Hr; [exact Hi|].
  cbn [fold_left]. apply IH; [|exact Hr].
  destruct (actionIs j Recipient.Unknown c) eqn:Ej; [|exact Hi].
  unfold setAction. cbn [recipientStore set_recipientStore].
  rewrite updateNth_other; [exact Hi|].
  intros ->. unfold actionIs in Ej. rewrite Hi in Ej.
  destruct (Recipient.action r); simpl in Ej; congruence.
Qed.

Lemma finish_keeps (status : EString) (c : Client) (i : nat)
    (r : Recipient.t) :
  nth_error (recipientStore c) i = Some r ->
  Recipient.action r <> Recipient.Unknown ->
  nth_error (recipientStore (finish status c)) i = Some r.
Proof.
  intros Hi Hr. unfold finish.
  destruct (dsn c) as [m|].
  - pose proof (settle_keeps Recipient.Delayed status (recipients m)
                             c i r Hi Hr) as H.
    destruct (owner (settle Recipient.Delayed status (recipients m) c));
      exact H.
  - destruct (owner c); exact Hi.
Qed.

Lemma sendCommand_rcpt_keeps (e : Env) (c : Client) (i : nat)
    (r : Recipient.t) :
  state c = RcptTo ->
  nth_error (recipientStore c) i = Some r ->
  Recipient.action r <> Recipient.Unknown ->
  nth_error (recipientStore (sendCommand e c)) i = Some r.
Proof.
  intros Hs Hi Hr. unfold sendCommand. rewrite Hs.
  cbn [state_eqb rcptTo set_rcptTo].
  match goal with
  | |- context [match ?it with [] => _ | _ :: _ => _ end] =>
      destruct it as [|j it']
  end.
  - cbn [accepted set_rcptTo].
    destruct (isEmpty_list (accepted c)); cbn [negb].
    + cbn [isEmpty lit list_ascii_of_string].
      cbn [recipientStore set_timeoutAfter set_sent enqueue set_writeBuffer
           set_state].
      apply finish_keeps; [exact Hi | exact Hr].
    + cbn. exact Hi.
  - destruct (isEmpty _); cbn; exact Hi.
Qed.

(** The parts of C5 that hold whatever the reply: in state RcptTo the
    current recipient gets the action Failed for a reply that starts
    with 5 and Delayed otherwise, with the status that enhancedStatus
    computes, and sending the next command leaves it so. *)
Lemma handleFailure_rcpt (e : Env) (line : EString) (c : Client)
    (i : nat) (rest : list nat) (r : Recipient.t) :
  state c = RcptTo ->
  rcptTo c = i :: rest ->
  nth_error (recipientStore c) i = Some r ->
  nth_error (recipientStore (handleFailure e line c)) i =
    Some (Recipient.setAction
            (if ceq (at_ line 0) "5"%char then Recipient.Failed
             else Recipient.Delayed)
            (enhancedStatus line (enhancedstatuscodes c) RcptTo) r).
Proof.
  intros Hs Hit Hi. unfold handleFailure. rewrite Hs, Hit.
  cbn [state_eqb].
  apply sendCommand_rcpt_keeps.
  - exact Hs.
  - unfold setAction. cbn [recipientStore set_recipientStore].
    now apply updateNth_same.
  - cbn [Recipient.setAction Recipient.action].
    destruct (ceq (at_ line 0) "5"%char); discriminate.
Qed.

(** Without ENHANCEDSTATUSCODES the status of a 550 reply is the
    table's "5.2.0", whatever follows the code. *)
Lemma enhancedStatus_550 (text : EString) (s : State) :
  enhancedStatus (lit "550" ++ text) false s = lit "5.2.0".
Proof. reflexivity. Qed.

(** C5 at "550 5.1.1 User unknown" from a server that announced
    ENHANCEDSTATUSCODES: the recipient is set to Failed, but its status
    is the table's "5.2.0", not the "5.1.1" of the reply; a longer
    status is cut to two octets.  Without ENHANCEDSTATUSCODES the
    table is used as the claim says: 550 gives Failed with "5.2.0",
    450 gives Delayed with "4.2.0". *)
Theorem rcpt_reply_status :
  recipientStore
    (handleFailure smarthost (lit "550 5.1.1 User unknown")
                   (awaitingRcptReply true)) =
    [ {| Recipient.finalRecipient := lit "b@example.com";
         Recipient.action := Recipient.Failed;
         Recipient.status := lit "5.2.0" |} ] /\
  enhancedStatus (lit "550 5.1.1 User unknown") true RcptTo = lit "5.2.0" /\
  enhancedStatus (lit "450 4.2.10 Busy") true RcptTo = lit "4." /\
  recipientStore
    (handleFailure smarthost (lit "550 user unknown")
                   (awaitingRcptReply false)) =
    [ {| Recipient.finalRecipient := lit "b@example.com";
         Recipient.action := Recipient.Failed;
         Recipient.status := lit "5.2.0" |} ] /\
  recipientStore
    (handleFailure smarthost (lit "450 mailbox busy")
                   (awaitingRcptReply false)) =
    [ {| Recipient.finalRecipient := lit "b@example.com";
         Recipient.action := Recipient.Delayed;
         Recipient.status := lit "4.2.0" |} ].
Proof. repeat split; vm_compute; reflexivity. Qed.

End SmtpClientSpec.

(** ** The spool manager *)

Module SpoolSpec.
Import EStr Spool.
Local Open Scope Z_scope.

Lemma processRows_spec (rows : list Row) :
  forall m delay,
    0 < delay <= UINT_MAX ->
    processRows rows m delay =
      ({| q := q m; t := t m;
          agents := agents m ++ spawned (length (agents m)) rows;
          again := again m;
          effects := effects m ++ agentTimers (length (agents m)) rows |},
       minimum delay (later rows)).
Proof.
  induction rows as [|r rows IH]; intros m delay Hd.
  - cbn. rewrite !app_nil_r. destruct m; reflexivity.
  - cbn [processRows spawned agentTimers]. unfold later, due in *.
    cbn [filter].
    destruct (Z.leb_spec (row_delay r) 0) as [Hdue|Hlate]; cbn [negb map].
    + rewrite IH by exact Hd.
      cbn [q t agents again effects set_agents effect].
      rewrite length_app. cbn [length].
      replace (length (agents m) + 1)%nat with (S (length (agents m)))
        by lia.
      now rewrite <- !app_assoc.
    + cbn [minimum].
      destruct (Z.gtb_spec delay (row_delay r)) as [Hgt|Hle].
      * unfold UINT_MAX in Hd.
        rewrite Z.mod_small by lia.
        rewrite IH by (unfold UINT_MAX; lia).
        f_equal.
        destruct (filter (fun r0 => negb (row_delay r0 <=? 0)) rows)
          as [|x l]; cbn [map minimum]; lia.
      * rewrite IH by exact Hd. f_equal.
        destruct (filter (fun r0 => negb (row_delay r0 <=? 0)) rows)
          as [|x l]; cbn [map minimum]; lia.
Qed.

Lemma reset_effects (m : SpoolManager) :
  agents (reset m) = agents m /\
  exists rest,
    effects (reset m) = effects m ++ rest /\
    Forall (fun e => e = DeleteTimer \/ e = NewTimer 1) rest.
Proof.
  unfold reset, deleteTimer, newTimer.
  destruct (t m); cbn; destruct (again m); cbn;
    (split; [reflexivity|]).
  - eexists. rewrite <- app_assoc. split; [reflexivity|].
    repeat first [apply Forall_nil | apply Forall_cons; [auto|]].
  - eexists. split; [reflexivity|].
    repeat first [apply Forall_nil | apply Forall_cons; [auto|]].
  - eexists. split; [reflexivity|].
    repeat first [apply Forall_nil | apply Forall_cons; [auto|]].
  - exists []. rewrite app_nil_r. split; [reflexivity | constructor].
Qed.

(** C7, as the code has it.  When the queue query has come back with
    rows, every row with delay <= 0 gets a DeliveryAgent, started by a
    timer of 5 seconds times the number of agents in the manager's list
    at that moment, and no row with delay > 0 gets one; when a row has
    a positive delay (below UINT_MAX), a timer for the smallest of them
    is created; whatever else the run does is done by reset().  The
    delay of a message is the earliest of its pending recipients' last
    attempt plus 900 seconds, minus now: a last attempt 30 minutes ago
    gives -900 and an agent at once, a last attempt 5 minutes ago gives
    600, no agent, and a timer created for 600 seconds. *)
Theorem queue_run (m : SpoolManager) (r : Row) (rows : list Row) :
  let back := set_q (Some {| done := true; results := r :: rows |}) m in
  let n := length (agents m) in
  let wake := minimum UINT_MAX (later (r :: rows)) in
  agents (execute back) = agents m ++ spawned n (r :: rows) /\
  (exists rest,
     effects (execute back) =
       effects m ++ agentTimers n (r :: rows)
       ++ (if wake <? UINT_MAX then [NewTimer wake] else []) ++ rest /\
     Forall (fun e => e = DeleteTimer \/ e = NewTimer 1) rest) /\
  queueRow 100000 halfHourAgo =
    Some {| row_message := 7; row_delay := -900 |} /\
  agents (execute (queryBack [ {| row_message := 7; row_delay := -900 |} ]))
    = [ {| messageId := 7; working := true |} ] /\
  queueRow 100000 fiveMinutesAgo =
    Some {| row_message := 8; row_delay := 600 |} /\
  agents (execute (queryBack [ {| row_message := 8; row_delay := 600 |} ]))
    = [] /\
  In (NewTimer 600)
     (effects
        (execute (queryBack [ {| row_message := 8; row_delay := 600 |} ]))).
Proof.
  cbv zeta.
  assert (Hu : 0 < UINT_MAX <= UINT_MAX) by (unfold UINT_MAX; lia).
  split; [|split].
  - unfold execute. cbn [q set_q done negb results].
    rewrite (processRows_spec (r :: rows) _ UINT_MAX Hu).
    cbn [q t agents again effects set_q].
    match goal with
    | |- agents (reset ?x) = _ =>
        rewrite (proj1 (reset_effects x))
    end.
    destruct (_ <? UINT_MAX); reflexivity.
  - unfold execute. cbn [q set_q done negb results].
    rewrite (processRows_spec (r :: rows) _ UINT_MAX Hu).
    cbn [q t agents again effects set_q].
    match goal with
    | |- context [effects (reset ?x)] =>
        destruct (proj2 (reset_effects x)) as (rest & Hr & Hf)
    end.
    exists rest. split; [|exact Hf]. rewrite Hr.
    destruct (_ <? UINT_MAX); cbn; now rewrite <- !app_assoc.
  - repeat split; vm_compute; auto.
Qed.

(** C7, as stated, fails on its own example: a last attempt 30 minutes
    ago gives a delay of -900, not 1800; an agent is started for the
    message at once and no timer for 1800 seconds is created. *)
Lemma retry_after_half_hour :
  queueRow 100000 halfHourAgo =
    Some {| row_message := 7; row_delay := -900 |} /\
  agents (execute (queryBack [ {| row_message := 7; row_delay := -900 |} ]))
    = [ {| messageId := 7; working := true |} ] /\
  ~ In (NewTimer 1800)
       (effects
          (execute
             (queryBack [ {| row_message := 7; row_delay := -900 |} ]))).
Proof.
  split; [reflexivity|]. split; [reflexivity|].
  vm_compute. intros [H | [H | []]]; discriminate.
Qed.

(** C8: SpoolManager::shutdown disarms the timer, clears ::sm and sets
    ::shutdown.  Nothing reads ::shutdown: a later setup() makes a new
    manager, and the manager that was shut down still starts agents
    when its query comes back.  In the history of the worked example
    the agent for message 7 fails to commit, the manager is shut down,
    and the query that was under way then starts an agent for
    message 9. *)
Theorem shutdown_not_final :
  (forall p,
     sm (shutdown p) = None /\ shutdownFlag (shutdown p) = true /\
     (forall i m, sm p = Some i ->
                  nth_error (managers (shutdown p)) i = Some m ->
                  t m = None)) /\
  sm (setup (shutdown (setup start))) = Some 1%nat /\
  shutdownFlag (setup (shutdown (setup start))) = true /\
  sm (run (beforeFailure ++ failure) start) = None /\
  shutdownFlag (run (beforeFailure ++ failure) start) = true /\
  allAgents (run (beforeFailure ++ failure) start) =
    [ {| messageId := 7; working := false |} ] /\
  allAgents (run (beforeFailure ++ failure ++ afterFailure) start) =
    [ {| messageId := 7; working := false |};
      {| messageId := 9; working := true |} ].
Proof.
  split.
  - intros p. split; [reflexivity|]. split; [reflexivity|].
    intros i m Hsm. unfold shutdown. rewrite Hsm.
    cbn [managers onManager].
    generalize (managers p). clear. intros l. revert i.
    induction l as [|x l IH]; intros i H.
    + destruct i; discriminate.
    + destruct i as [|i]; cbn in H.
      * injection H as <-. unfold deleteTimer.
        destruct (t x) eqn:E; [reflexivity | exact E].
      * now apply (IH i).
  - repeat split; vm_compute; reflexivity.
Qed.

End SpoolSpec.

(** ** The spool manager between queue runs
    (src/smtp/spoolmanager.cpp) *)

Module SpoolRunSpec.
Import EStr Spool SpoolExamples.
Local Open Scope Z_scope.

Lemma reset_fields (m : SpoolManager) :
  q (reset m) = None /\
  t (reset m) = (if again m then Some 1 else None) /\
  again (reset m) = again m /\
  agents (reset m) = agents m.
Proof.
  unfold reset, deleteTimer, newTimer.
  destruct m as [q0 [z|] ag [|] ef]; cbn; repeat split.
Qed.

Lemma execute_done (m : SpoolManager) (query : Query) :
  q m = Some query -> done query = true ->
  exists m',
    execute m = reset m' /\ again m' = again m /\
    agents m' = agents m ++ spawned (length (agents m)) (results query).
Proof.
  intros Hq Hd. unfold execute. rewrite Hq. cbv beta iota. rewrite Hq, Hd.
  cbn [negb].
  destruct (results query) as [|r rows] eqn:Er.
  - exists m. cbn [spawned]. rewrite app_nil_r. auto.
  - rewrite SpoolSpec.processRows_spec by (unfold UINT_MAX; lia).
    eexists. split; [reflexivity|].
    destruct (minimum UINT_MAX (later (r :: rows)) <? UINT_MAX);
      cbn; auto.
Qed.

(** X1.  The end of a queue run.  When execute() is called with the
    query done, whether it brought rows or not, the run ends in
    reset(): the query is forgotten, and the manager's timer is armed
    exactly when a message arrived during the run (d->again), always
    for one second.  In particular the timer created for the smallest
    positive delay does not outlive the call. *)
Theorem run_end_timer (m : SpoolManager) (query : Query) :
  q m = Some query -> done query = true ->
  q (execute m) = None /\
  t (execute m) = (if again m then Some 1 else None) /\
  again (execute m) = again m.
Proof.
  intros Hq Hd.
  destruct (execute_done m query Hq Hd) as (m' & -> & Ha & _).
  destruct (reset_fields m') as (H1 & H2 & H3 & _).
  rewrite H1, H2, H3, Ha. auto.
Qed.

Lemma run_end_timer_later :
  q (execute (queryBack [ {| row_message := 8; row_delay := 600 |} ])) = None /\
  t (execute (queryBack [ {| row_message := 8; row_delay := 600 |} ])) = None /\
  again (execute (queryBack [ {| row_message := 8; row_delay := 600 |} ]))
    = false.
Proof.
  exact (run_end_timer
           (queryBack [ {| row_message := 8; row_delay := 600 |} ])
           {| done := true;
              results := [ {| row_message := 8; row_delay := 600 |} ] |}
           eq_refl eq_refl).
Defined.

(** X2.  A new message always leads to a queue run one second later.
    deliverNewMessage() on a manager without a query under way arms
    the one-second timer at once; on a manager whose query is under
    way it changes nothing but d->again, and the one-second timer is
    armed when that query completes, whatever rows it brings.  The
    run that the timer starts clears d->again and leaves no timer. *)
Theorem new_message_schedules_run (m : SpoolManager) :
  (q m = None ->
   t (deliverNewMessage m) = Some 1 /\ q (deliverNewMessage m) = None) /\
  (q m <> None ->
   deliverNewMessage m = set_again true m /\
   forall rows,
     t (complete rows (deliverNewMessage m)) = Some 1 /\
     q (complete rows (deliverNewMessage m)) = None /\
     again (execute (complete rows (deliverNewMessage m))) = false /\
     t (execute (complete rows (deliverNewMessage m))) = None /\
     q (execute (complete rows (deliverNewMessage m)))
       = Some {| done := false; results := [] |}).
Proof.
  split.
  - intros Hq. unfold deliverNewMessage. rewrite Hq.
    destruct (reset_fields (set_again true m)) as (H1 & H2 & _).
    rewrite H1, H2. auto.
  - intros Hq. unfold deliverNewMessage.
    destruct (q m) as [query|] eqn:Eq; [|congruence].
    split; [reflexivity|]. intros rows.
    unfold complete. cbn [q set_again]. rewrite Eq.
    set (back := set_q (Some {| done := true; results := rows |})
                       (set_again true m)).
    destruct (run_end_timer back {| done := true; results := rows |}
                eq_refl eq_refl) as (H1 & H2 & H3).
    cbn [again back set_q set_again] in H2.
    split; [exact H2|]. split; [exact H1|].
    remember (execute back) as m1 eqn:E1. clear E1 H2 H3. clear back.
    unfold execute. rewrite H1. cbv beta iota.
    destruct (reset_fields (set_again false
                (set_agents (filter working (agents m1)) m1)))
      as (R1 & R2 & R3 & _).
    cbn [q t again set_q effect negb done].
    cbn [again set_again] in R2, R3.
    rewrite R2, R3. auto.
Qed.

Lemma agents_reset (m : SpoolManager) : agents (reset m) = agents m.
Proof. apply reset_fields. Qed.

Lemma execute_keeps (m : SpoolManager) (a : DeliveryAgent) :
  In a (agents m) -> working a = true -> In a (agents (execute m)).
Proof.
  intros Hin Hw.
  destruct (q m) as [query|] eqn:Eq.
  - destruct (done query) eqn:Ed.
    + destruct (execute_done m query Eq Ed) as (m' & -> & _ & Hag).
      rewrite agents_reset, Hag. apply in_or_app. now left.
    + unfold execute. rewrite Eq. cbv beta iota. rewrite Eq, Ed.
      exact Hin.
  - unfold execute. rewrite Eq. cbv beta iota.
    cbn [q set_q negb done agents effect].
    rewrite agents_reset. cbn [agents set_again set_agents].
    apply filter_In. auto.
Qed.

Lemma onManager_keeps (f : SpoolManager -> SpoolManager)
    (a : DeliveryAgent) :
  (forall m, In a (agents m) -> In a (agents (f m))) ->
  forall i p, In a (allAgents p) -> In a (allAgents (onManager i f p)).
Proof.
  intros Hf i p. unfold allAgents, onManager. cbn [managers].
  revert i. induction (managers p) as [|x l IH]; intros i H.
  - destruct i; exact H.
  - destruct i as [|i]; cbn [updateManager map concat] in *;
      apply in_app_or in H; apply in_or_app; destruct H as [H|H]; auto.
Qed.

Lemma shutdown_keeps (a : DeliveryAgent) (p : Process) :
  In a (allAgents p) -> In a (allAgents (shutdown p)).
Proof.
  intros H. unfold shutdown.
  destruct (sm p) as [i|]; [|exact H].
  apply (onManager_keeps deleteTimer a) with (i := i) in H.
  - exact H.
  - intros m. unfold deleteTimer. destruct (t m); auto.
Qed.

(** X3.  No event other than an agent's own completion takes a working
    agent off its manager's list: setup(), execute() in every branch
    (the start of a run drops only agents that have stopped working),
    the completion of the query, the deliveries_updated signal and the
    completion of an agent for another message all keep it. *)
Theorem working_agents_kept (p : Process) (e : Event) (a : DeliveryAgent) :
  In a (allAgents p) -> working a = true ->
  (forall failed owner, e <> AgentDone failed owner (messageId a)) ->
  In a (allAgents (step p e)).
Proof.
  intros Hin Hw Hne.
  destruct e as [|i|i rows| |failed owner msg]; cbn [step].
  - unfold setup. destruct (sm p); [exact Hin|].
    unfold allAgents in *. cbn [managers].
    rewrite map_app, concat_app. apply in_or_app. now left.
  - apply onManager_keeps; [|exact Hin].
    intros m H. now apply execute_keeps.
  - apply onManager_keeps; [|exact Hin].
    intros m H. unfold complete. destruct (q m); [|exact H].
    apply execute_keeps; [exact H | exact Hw].
  - unfold spoolRunner. destruct (sm p) as [i|]; [|exact Hin].
    apply onManager_keeps; [|exact Hin].
    intros m H. unfold deliverNewMessage.
    destruct (q m); [exact H|]. now rewrite agents_reset.
  - unfold agentDone.
    apply onManager_keeps; [intros m H; now apply execute_keeps|].
    assert (Hs : In a (allAgents (onManager owner (stopped msg) p))).
    { apply onManager_keeps; [|exact Hin].
      intros m H. unfold stopped. cbn [agents set_agents].
      apply in_map_iff. exists a. split; [|exact H].
      destruct (Z.eqb_spec (messageId a) msg) as [E|E]; [|reflexivity].
      exfalso. apply (Hne failed owner). now rewrite E. }
    destruct failed; [now apply shutdown_keeps | exact Hs].
Qed.

Lemma working_agents_kept_signal :
  In {| messageId := 7; working := true |}
     (allAgents (step running DeliveriesUpdated)).
Proof.
  apply (working_agents_kept running DeliveriesUpdated
           {| messageId := 7; working := true |}).
  - cbn. now left.
  - reflexivity.
  - intros failed owner. discriminate.
Defined.

(** X4.  setup() creates a manager only while ::sm is unset, so a
    second call changes nothing; after shutdown() the
    deliveries_updated signal reaches no manager and a second
    shutdown() changes nothing. *)
Theorem setup_once_shutdown_silent (p : Process) :
  setup (setup p) = setup p /\
  (length (managers (setup (setup p))) <= S (length (managers p)))%nat /\
  spoolRunner (shutdown p) = shutdown p /\
  shutdown (shutdown p) = shutdown p.
Proof.
  unfold setup, spoolRunner, shutdown.
  destruct (sm p) as [i|] eqn:E; cbn [sm managers onManager];
    try rewrite E; cbn [sm managers];
    repeat split; try reflexivity; try lia.
  rewrite length_app. cbn [length]. lia.
Qed.




End SpoolRunSpec.

(** ** The outbound SMTP client between replies
    (src/unnamed/part_003) *)

Module SmtpClientSessionSpec.
Import EStr Buffer SmtpClient SmtpClientSession.

Lemma settle_frame (a : Recipient.Action) (status : EString) (l : list nat) :
  forall c, exists rs, settle a status l c = set_recipientStore rs c.
Proof.
  unfold settle. induction l as [|i l IH]; intros c; cbn [fold_left].
  - exists (recipientStore c). destruct c; reflexivity.
  - destruct (actionIs i Recipient.Unknown c).
    + destruct (IH (setAction i a status c)) as [rs ->].
      exists rs. destruct c; reflexivity.
    + apply IH.
Qed.

Lemma updateNth_length (f : Recipient.t -> Recipient.t)
    (l : list Recipient.t) :
  forall i, length (updateNth i f l) = length l.
Proof.
  induction l as [|x l IH]; intros [|i]; cbn; auto.
Qed.

Lemma settle_length (a : Recipient.Action) (status : EString)
    (l : list nat) :
  forall c, length (recipientStore (settle a status l c))
            = length (recipientStore c).
Proof.
  unfold settle. induction l as [|i l IH]; intros c; cbn [fold_left].
  - reflexivity.
  - destruct (actionIs i Recipient.Unknown c); rewrite IH; [|reflexivity].
    cbn. apply updateNth_length.
Qed.

Lemma settle_sets (a : Recipient.Action) (status : EString) (l : list nat) :
  a <> Recipient.Unknown ->
  forall c i r,
    In i l ->
    nth_error (recipientStore c) i = Some r ->
    Recipient.action r = Recipient.Unknown ->
    nth_error (recipientStore (settle a status l c)) i
      = Some (Recipient.setAction a status r).
Proof.
  intros Ha. induction l as [|j l IH]; intros c i r Hin Hr Hu.
  - destruct Hin.
  - change (settle a status (j :: l) c)
      with (settle a status l
              (if actionIs j Recipient.Unknown c
               then setAction j a status c else c)).
    destruct (Nat.eq_dec j i) as [->|Hji].
    + unfold actionIs at 1. rewrite Hr, Hu. cbn [Recipient.action_eqb].
      apply SmtpClientSpec.settle_keeps.
      * cbn. now apply SmtpClientSpec.updateNth_same.
      * cbn. exact Ha.
    + destruct Hin as [E|Hin]; [contradiction|].
      apply IH; auto.
      destruct (actionIs j Recipient.Unknown c); [|exact Hr].
      cbn. rewrite SmtpClientSpec.updateNth_other by auto. exact Hr.
Qed.

Lemma settle_decides (a : Recipient.Action) (status : EString)
    (l : list nat) (c : Client) (i : nat) :
  a <> Recipient.Unknown -> In i l ->
  actionIs i Recipient.Unknown (settle a status l c) = false.
Proof.
  intros Ha Hin. unfold actionIs.
  destruct (nth_error (recipientStore c) i) as [r|] eqn:Er.
  - destruct (Recipient.action r) eqn:Eact.
    + rewrite (settle_sets a status l Ha c i r Hin Er Eact).
      cbn. destruct a; try reflexivity. contradiction.
    + rewrite (SmtpClientSpec.settle_keeps a status l c i r Er)
        by congruence.
      now rewrite Eact.
    + rewrite (SmtpClientSpec.settle_keeps a status l c i r Er)
        by congruence.
      now rewrite Eact.
    + rewrite (SmtpClientSpec.settle_keeps a status l c i r Er)
        by congruence.
      now rewrite Eact.
    + rewrite (SmtpClientSpec.settle_keeps a status l c i r Er)
        by congruence.
      now rewrite Eact.
    + rewrite (SmtpClientSpec.settle_keeps a status l c i r Er)
        by congruence.
      now rewrite Eact.
  - apply nth_error_None in Er.
    rewrite <- (settle_length a status l c) in Er.
    apply nth_error_None in Er. now rewrite Er.
Qed.


(** X6.  finish() leaves no recipient of the DSN undecided: each one
    that was Unknown is now Delayed with the status finish was given,
    the others are as they were; the DSN, the dotted body and the
    owner are dropped, and the owner is notified once if there was
    one. *)
Theorem finish_settles_all (status : EString) (c : Client) :
  let c' := finish status c in
  dsn c' = None /\ owner c' = false /\ dottedBody c' = [] /\
  state c' = state c /\ writeBuffer c' = writeBuffer c /\
  notified c' = (if owner c then S (notified c) else notified c) /\
  (forall m i, dsn c = Some m -> In i (recipients m) ->
     actionIs i Recipient.Unknown c' = false) /\
  (forall m i r, dsn c = Some m -> In i (recipients m) ->
     nth_error (recipientStore c) i = Some r ->
     Recipient.action r = Recipient.Unknown ->
     nth_error (recipientStore c') i
       = Some (Recipient.setAction Recipient.Delayed status r)) /\
  (forall i r, nth_error (recipientStore c) i = Some r ->
     Recipient.action r <> Recipient.Unknown ->
     nth_error (recipientStore c') i = Some r).
Proof.
  cbv zeta.
  assert (Hst : exists rs,
            (match dsn c with
             | Some d => settle Recipient.Delayed status (recipients d) c
             | None => c
             end) = set_recipientStore rs c).
  { destruct (dsn c) as [d|].
    - apply settle_frame.
    - exists (recipientStore c). destruct c; reflexivity. }
  assert (Hstore : recipientStore (finish status c)
            = recipientStore
                (match dsn c with
                 | Some d => settle Recipient.Delayed status (recipients d) c
                 | None => c
                 end)).
  { unfold finish. destruct Hst as [rs ->]. cbn.
    destruct (owner c); reflexivity. }
  repeat split.
  - unfold finish. destruct Hst as [rs ->]. cbn.
    destruct (owner c); reflexivity.
  - unfold finish. destruct Hst as [rs ->]. cbn.
    destruct (owner c); reflexivity.
  - unfold finish. destruct Hst as [rs ->]. cbn.
    destruct (owner c); reflexivity.
  - intros m i Hm Hin. unfold actionIs. rewrite Hstore, Hm.
    apply (settle_decides Recipient.Delayed status (recipients m) c i);
      [discriminate | exact Hin].
  - intros m i r Hm Hin Hr Hu. rewrite Hstore, Hm.
    apply settle_sets; auto. discriminate.
  - intros i r Hr Hn. now apply SmtpClientSpec.finish_keeps.
Qed.





Lemma noBare_line (l rest : EString) :
  noLineEnd l = true -> noBare (l ++ CRLF ++ rest) = noBare rest.
Proof.
  induction l as [|c l IH]; intros H.
  - reflexivity.
  - cbn [noLineEnd forallb] in H. apply andb_prop in H as [Hc Hl].
    apply negb_true_iff, orb_false_iff in Hc as [Hcr Hlf].
    cbn [app noBare]. rewrite Hcr, Hlf. now apply IH.
Qed.

Lemma noBare_lines (f : EString -> EString) (ls : list EString)
    (rest : EString) :
  Forall (fun l => noLineEnd (f l) = true) ls ->
  noBare (concat (map (fun l => f l ++ CRLF) ls) ++ rest) = noBare rest.
Proof.
  induction 1 as [|l ls Hl _ IH]; [reflexivity|].
  cbn [map concat]. rewrite <- !app_assoc.
  now rewrite noBare_line.
Qed.

Lemma endsCRLF_snoc (x : EString) : endsCRLF (x ++ CRLF) = true.
Proof.
  induction x as [|a x IH]; [reflexivity|].
  destruct x as [|b x]; [reflexivity|].
  change ((a :: b :: x) ++ CRLF) with (a :: b :: (x ++ CRLF)).
  change ((b :: x) ++ CRLF) with (b :: (x ++ CRLF)) in IH.
  destruct (x ++ CRLF) as [|c t] eqn:E.
  - destruct x; discriminate.
  - now rewrite DottedSpec.endsCRLF_cons.
Qed.

Lemma concat_lines_end (g : EString -> EString) (ls : list EString) :
  ls = [] \/ exists x, concat (map (fun l => g l ++ CRLF) ls) = x ++ CRLF.
Proof.
  induction ls as [|l ls IH]; [now left|]. right.
  cbn [map concat]. destruct IH as [->|[x ->]].
  - exists (g l). cbn [map concat]. now rewrite app_nil_r.
  - exists ((g l ++ CRLF) ++ x). now rewrite <- !app_assoc.
Qed.

(** X8.  Whatever octets the message holds, what dotted() hands to the
    wire has no bare CR and no bare LF, and ends with the line ".":
    the terminator follows a CRLF or stands at the very start. *)
Theorem dotted_clean (s : EString) :
  noBare (dotted s) = true /\
  exists body,
    dotted s = body ++ lit "." ++ CRLF /\
    (body = [] \/ endsCRLF body = true).
Proof.
  rewrite DottedSpec.dotted_dottedSpec. unfold dottedSpec. split.
  - rewrite noBare_lines; [reflexivity|].
    assert (H : Forall (fun l => noLineEnd l = true) (lines s))
      by (apply (DottedSpec.lines_noLineEnd (length s)); auto).
    induction H as [|l ls Hl _ IH]; constructor; auto.
    now apply DottedSpec.stuffLine_noLineEnd.
  - eexists. split; [reflexivity|].
    destruct (concat_lines_end stuffLine (lines s)) as [->|[x ->]].
    + now left.
    + right. apply endsCRLF_snoc.
Qed.

(** X9.  The reply-code table.  Without ENHANCEDSTATUSCODES the status
    is "4.0.0" for a line that does not begin with a number or whose
    number is outside 200..599; otherwise it is a triple
    class.subject.0 whose class is the first digit of the reply code,
    with two exceptions: 354 is given class 2, and 500 to 504 are
    given class 4 although the reply is a permanent failure. *)
Theorem status_table_class (l : EString) (s : State) :
  (number (mid l 0 3) = None -> enhancedStatus l false s = lit "4.0.0") /\
  (forall r, number (mid l 0 3) = Some r ->
     ((r < 200 \/ 600 <= r)%Z -> enhancedStatus l false s = lit "4.0.0") /\
     ((200 <= r < 600)%Z ->
      exists x, In x (lit "0123") /\
        enhancedStatus l false s =
          fn (if (r =? 354)%Z then 2%Z
              else if (500 <=? r)%Z && (r <=? 504)%Z then 4%Z
              else (r / 100)%Z)
          ++ "."%char :: x :: lit ".0")).
Proof.
  unfold enhancedStatus. cbn [andb].
  split; [intros ->; reflexivity|].
  intros r ->. split.
  - intros [H|H].
    + apply Z.ltb_lt in H. now rewrite H.
    + assert (H' : (r >=? 600)%Z = true) by lia.
      rewrite H'. now rewrite orb_true_r.
  - intros Hr.
    assert (H1 : (r <? 200)%Z = false) by lia.
    assert (H2 : (r >=? 600)%Z = false) by lia.
    rewrite H1, H2. cbn [orb].
    assert (Hall :
      forallb
        (fun k =>
           forallb
             (fun s =>
                existsb
                  (fun x =>
                     eqb (statusTable (200 + Z.of_nat k) s)
                       (fn (if (200 + Z.of_nat k =? 354)%Z then 2%Z
                            else if (500 <=? 200 + Z.of_nat k)%Z
                                    && (200 + Z.of_nat k <=? 504)%Z
                            then 4%Z
                            else ((200 + Z.of_nat k) / 100)%Z)
                        ++ "."%char :: x :: lit ".0"))
                  (lit "0123"))
             [Invalid; Connected; Banner; Hello; MailFrom; RcptTo; Data;
              Body; Error; Rset; Quit])
        (seq 0 400) = true) by (vm_compute; reflexivity).
    rewrite forallb_forall in Hall.
    specialize (Hall (Z.to_nat (r - 200))).
    rewrite in_seq in Hall.
    replace (200 + Z.of_nat (Z.to_nat (r - 200)))%Z with r in Hall by lia.
    assert (Hk : 0 <= Z.to_nat (r - 200) < 0 + 400) by lia.
    specialize (Hall Hk). rewrite forallb_forall in Hall.
    assert (Hs : In s [Invalid; Connected; Banner; Hello; MailFrom; RcptTo;
                       Data; Body; Error; Rset; Quit])
      by (destruct s; cbn; tauto).
    specialize (Hall s Hs). apply existsb_exists in Hall as (x & Hx & He).
    exists x. split; [exact Hx|]. now apply EStrFacts.eqb_eq.
Qed.



(** X11.  send() on a ready client.  In state Rset or Hello the
    session is reused without a new EHLO: the close timer is
    cancelled, MAIL FROM goes out at once, with the sender's address
    only for a normal address, with SMTPUTF8 exactly when the message
    needs it, and, when the server announced SIZE, with the length of
    the dot-stuffed body, terminator included, which is kept for the
    DATA stage.  In state Invalid or Connected the DSN is recorded and
    nothing is written.  A client that is not ready ignores send(). *)
Theorem send_starts_transaction (e : Env) (m : DSN) (c : Client) :
  (ready c = false -> send e m c = c) /\
  (ready c = true -> state c = Rset \/ state c = Hello ->
   let body := dotted (rfc822 m (negb (needsUnicode m))) in
   state (send e m c) = MailFrom /\
   dsn (send e m c) = Some m /\
   closeTimer (send e m c) = None /\
   sentMail (send e m c) = false /\
   owner (send e m c) = true /\
   dottedBody (send e m c) = body /\
   writeBuffer (send e m c) =
     writeBuffer c ++ lit "mail from:<"
     ++ (if senderNormal m then senderLpdomain m else [])
     ++ lit ">"
     ++ (if needsUnicode m then lit " smtputf8" else [])
     ++ (if size c
         then lit " size=" ++ fn (Z.of_nat (length body)) else [])
     ++ CRLF) /\
  (ready c = true -> state c = Invalid \/ state c = Connected ->
   send e m c =
     set_closeTimer None
       (set_sentMail false
          (set_owner true (set_dottedBody [] (set_dsn (Some m) c))))).
Proof.
  split; [|split].
  - intros H. unfold send. now rewrite H.
  - intros Hr Hs. unfold send. rewrite Hr. cbn [negb].
    destruct c as [st sn er ds db ow nt sm rt ac es un sz ct rs wb ta cl].
    destruct m as [rc sN sL rf nU].
    cbn [state size writeBuffer needsUnicode senderNormal senderLpdomain
         rfc822] in *.
    destruct Hs as [-> | ->]; destruct nU, sN, sz;
      cbn -[dotted fn];
      repeat split; try reflexivity;
      rewrite <- ?app_assoc; try reflexivity.
  - intros Hr Hs. unfold send. rewrite Hr. cbn [negb].
    destruct c as [st sn er ds db ow nt sm rt ac es un sz ct rs wb ta cl].
    cbn [state] in Hs. destruct Hs as [-> | ->]; reflexivity.
Qed.

End SmtpClientSessionSpec.

(** ** SmtpClient::parse: reply lines and a whole transaction *)

Module SmtpClientParseSpec.
Import EStr Buffer SmtpClient SmtpClientSession.
















Lemma parseLoop_lines kw e (tail : EString) :
  noLineEnd tail = true ->
  forall (ls : list EString) (c : Client) (fuel : nat),
    forallb noLineEnd ls = true ->
    length ls < fuel ->
    parseLoop kw e fuel (concat (map (fun l => l ++ CRLF) ls) ++ tail) c
    = Some (tail, replies kw e ls c).
Proof.
  intros Ht. induction ls as [|l ls IH]; intros c fuel Hl Hf;
    (destruct fuel as [|fuel]; [inversion Hf|]).
  - cbn [map concat app parseLoop].
    now rewrite (FramingSpec.removeLine_none tail Ht).
  - cbn [forallb] in Hl. apply andb_prop in Hl as [Hl1 Hl2].
    cbn [map concat parseLoop]. rewrite <- !app_assoc.
    rewrite (FramingSpec.removeLine_line l _ Hl1).
    apply IH; [exact Hl2 | cbn [length] in Hf; lia].
Qed.

Lemma reply_lines_length (ls : list EString) (tail : EString) :
  length ls
  <= length (concat (map (fun l => l ++ CRLF) ls) ++ tail).
Proof.
  induction ls as [|l ls IH]; [cbn; lia|].
  cbn [map concat length]. rewrite <- !app_assoc, !length_app.
  cbn [CRLF length] in *. rewrite length_app in IH. cbn [length]. lia.
Qed.

(** X24.  SmtpClient::parse on a read buffer that holds complete reply
    lines and then the beginning of another: every complete line is
    handled, in the order received, each by the state the line before
    it left; the unfinished line stays in the buffer for the next
    call; and the loop ends. *)
Theorem parse_lines (kw : EString -> EString) (e : Env)
    (ls : list EString) (tail : EString) (c : Client) :
  forallb noLineEnd ls = true ->
  noLineEnd tail = true ->
  parse kw e (concat (map (fun l => l ++ CRLF) ls) ++ tail) c
  = Some (tail, replies kw e ls c).
Proof.
  intros Hl Ht. unfold parse. apply parseLoop_lines; auto.
  pose proof (reply_lines_length ls tail). lia.
Qed.

Lemma parse_lines_pipelined :
  parse plainKeyword smarthost
    (lit "250 ok" ++ CRLF ++ lit "250 ok" ++ CRLF ++ lit "354 g")
    (send smarthost secondMessage idleAfterRset)
  = Some (lit "354 g",
          replies plainKeyword smarthost [lit "250 ok"; lit "250 ok"]
            (send smarthost secondMessage idleAfterRset)).
Proof.
  exact (parse_lines plainKeyword smarthost [lit "250 ok"; lit "250 ok"]
           (lit "354 g") (send smarthost secondMessage idleAfterRset)
           eq_refl eq_refl).
Defined.


End SmtpClientParseSpec.

(** ** The IMAP server: framing, the PROXY leader, deferred responses,
    the scheduler and keep-alives (src/unnamed/part_001) *)

Module ImapMoreSpec.
Import EStr Buffer Imap ImapKeepalive.

Lemma skipn_nth_cons (s : EString) :
  forall i, i < length s -> skipn i s = nth i s NUL :: skipn (S i) s.
Proof.
  induction s as [|c s IH]; intros i Hi; [cbn in Hi; lia|].
  destruct i as [|i]; [reflexivity|].
  cbn [skipn nth]. apply IH. cbn in Hi. lia.
Qed.

Lemma scanDigits_le (s : EString) :
  forall fuel i,
    (0 <= i <= UINT_MAX)%Z -> (0 <= scanDigits fuel s i <= i)%Z.
Proof.
  induction fuel as [|fuel IH]; intros i Hi; cbn [scanDigits]; [lia|].
  destruct ((i >? 0)%Z && isDigit (atZ s i)) eqn:E; [|lia].
  apply andb_prop in E as [Hpos _].
  rewrite FramingSpec.to_uint_small by lia.
  specialize (IH (i - 1)%Z). lia.
Qed.

Lemma scanDigits_outside (s : EString) (fuel : nat) (i : Z) :
  (Z.of_nat (length s) <= i)%Z -> scanDigits fuel s i = i.
Proof.
  intros H. destruct fuel as [|fuel]; [reflexivity|].
  cbn [scanDigits]. unfold atZ.
  assert (E : (i <? Z.of_nat (length s))%Z = false) by lia.
  rewrite E. cbn. now rewrite andb_false_r.
Qed.

Lemma atZ_outside (s : EString) (i : Z) :
  (Z.of_nat (length s) <= i)%Z -> atZ s i = NUL.
Proof.
  intros H. unfold atZ.
  assert (E : (i <? Z.of_nat (length s))%Z = false) by lia.
  now rewrite E.
Qed.

Lemma atZ_inside (s : EString) (i : Z) (c : ascii) :
  (0 <= i)%Z -> atZ s i = c -> c <> NUL ->
  Z.to_nat i < length s /\ nth (Z.to_nat i) s NUL = c.
Proof.
  intros Hi H Hc. unfold atZ in H.
  destruct (Z.ltb_spec i (Z.of_nat (length s))) as [Hlt|Hge].
  - split; [lia | exact H].
  - congruence.
Qed.

(** The digits of a literal announcement, cut out of a line by the
    indices that endsWithLiteral computes. *)
Lemma literal_cut (s : EString) (r j : nat) (tail : EString) :
  r <= j -> S j <= length s ->
  nth r s NUL = "{"%char ->
  skipn (S j) s = tail ->
  s = firstn r s ++ "{"%char :: mid s (S r) (j - r) ++ tail.
Proof.
  intros Hrj Hj Hb Ht.
  rewrite <- (firstn_skipn r s) at 1. f_equal.
  rewrite skipn_nth_cons by lia. rewrite Hb. f_equal.
  unfold mid.
  rewrite <- (firstn_skipn (j - r) (skipn (S r) s)) at 1. f_equal.
  rewrite skipn_skipn. replace (j - r + S r) with (S j) by lia.
  exact Ht.
Qed.

Lemma endsWithLiteral_sound (s : EString) (n : Z) (plus : bool) :
  (Z.of_nat (length s) <= UINT_MAX)%Z ->
  endsWithLiteral s = (true, n, plus) ->
  exists pre ds,
    s = pre ++ "{"%char :: ds
            ++ (if plus then ["+"%char] else []) ++ ["}"%char] /\
    number ds = Some n.
Proof.
  intros HL H. unfold endsWithLiteral in H.
  destruct (endsWith s (lit "}")) eqn:Eew; cbn [negb] in H;
    [|discriminate].
  unfold endsWith in Eew. apply andb_prop in Eew as [Esuf Hlen].
  apply EStrFacts.eqb_eq in Esuf. apply Nat.leb_le in Hlen.
  cbn [length lit list_ascii_of_string] in Esuf, Hlen.
  set (L := length s) in *.
  (* the index of the octet before the closing brace or the plus *)
  remember (to_uint (Z.of_nat L - 2)) as i0 eqn:Ei0.
  remember (if ceq (atZ s i0) "+"%char then (true, to_uint (i0 - 1))
            else (false, i0)) as pj eqn:Epj.
  destruct pj as [p j].
  assert (Hj : (Z.of_nat L <= j)%Z \/
               ((0 <= j)%Z /\
                skipn (S (Z.to_nat j)) s
                  = (if p then ["+"%char] else []) ++ ["}"%char] /\
                S (Z.to_nat j) <= L)).
  { destruct (Nat.eq_dec L 1) as [E1|E1].
    - left. assert (Hi0 : i0 = 4294967295%Z) by (rewrite Ei0, E1; reflexivity).
      rewrite atZ_outside in Epj by (unfold UINT_MAX in HL; lia).
      cbn in Epj. injection Epj as -> ->. unfold UINT_MAX in HL. lia.
    - assert (Hi0 : i0 = (Z.of_nat L - 2)%Z).
      { rewrite Ei0. apply FramingSpec.to_uint_small.
        unfold UINT_MAX in *. lia. }
      destruct (ceq (atZ s i0) "+"%char) eqn:Ep; injection Epj as -> ->.
      + apply FramingSpec.ceq_eq in Ep.
        destruct (atZ_inside s i0 "+"%char) as [Hin Hnth];
          [lia | exact Ep | discriminate |].
        destruct (Nat.eq_dec L 2) as [E2|E2].
        * left. rewrite Hi0, E2. cbn. unfold UINT_MAX in HL. lia.
        * right. rewrite FramingSpec.to_uint_small
            by (unfold UINT_MAX in *; lia).
          split; [lia|]. split; [|lia].
          replace (S (Z.to_nat (i0 - 1))) with (Z.to_nat i0) by lia.
          rewrite skipn_nth_cons by exact Hin. rewrite Hnth.
          replace (S (Z.to_nat i0)) with (L - 1) by lia.
          now rewrite Esuf.
      + right. split; [lia|]. split; [|lia].
        replace (S (Z.to_nat i0)) with (L - 1) by lia. exact Esuf. }
  destruct Hj as [Hout | (Hj0 & Htail & HjL)].
  - rewrite scanDigits_outside in H by exact Hout.
    rewrite atZ_outside in H by exact Hout. cbn in H. discriminate.
  - assert (Hjmax : (j <= UINT_MAX)%Z) by (unfold UINT_MAX in *; lia).
    pose proof (scanDigits_le s L j (conj Hj0 Hjmax)) as Hr.
    set (r := scanDigits L s j) in *.
    destruct (ceq (atZ s r) "{"%char) eqn:Eb; cbn [negb] in H;
      [|discriminate].
    apply FramingSpec.ceq_eq in Eb.
    destruct (atZ_inside s r "{"%char) as [Hrin Hrnth];
      [lia | exact Eb | discriminate |].
    rewrite (FramingSpec.to_uint_small (r + 1)) in H
      by (unfold UINT_MAX in *; lia).
    rewrite (FramingSpec.to_uint_small (j - r)) in H
      by (unfold UINT_MAX in *; lia).
    destruct (number (mid s (Z.to_nat (r + 1)) (Z.to_nat (j - r))))
      as [n'|] eqn:En; [|discriminate].
    injection H as -> ->.
    exists (firstn (Z.to_nat r) s),
           (mid s (Z.to_nat (r + 1)) (Z.to_nat (j - r))).
    split; [|exact En].
    replace (Z.to_nat (r + 1)) with (S (Z.to_nat r)) by lia.
    replace (Z.to_nat (j - r)) with (Z.to_nat j - Z.to_nat r) by lia.
    apply literal_cut; auto; lia.
Qed.

(** X12.  endsWithLiteral, exactly.  For a line of fewer than 2^32
    octets it answers true, with the number n and the flag plus, if
    and only if the line ends in an opening brace, a non-empty run of
    decimal digits whose value (n) fits an unsigned 32-bit integer, a
    '+' exactly when plus is set, and a closing brace.  So "{}", "{+}",
    a lone closing brace and a number that overflows are not literal
    announcements. *)
Theorem endsWithLiteral_exact (s : EString) (n : Z) (plus : bool) :
  (Z.of_nat (length s) <= UINT_MAX)%Z ->
  (endsWithLiteral s = (true, n, plus) <->
   exists pre ds,
     s = pre ++ "{"%char :: ds
             ++ (if plus then ["+"%char] else []) ++ ["}"%char] /\
     number ds = Some n).
Proof.
  intros HL. split.
  - now apply endsWithLiteral_sound.
  - intros (pre & ds & -> & Hn).
    now apply FramingSpec.endsWithLiteral_spec.
Qed.

Lemma endsWithLiteral_exact_braces :
  endsWithLiteral (lit "a login {}") = (true, 0%Z, false) <->
  exists pre ds,
    lit "a login {}"
      = pre ++ "{"%char :: ds ++ [] ++ ["}"%char] /\
    number ds = Some 0%Z.
Proof.
  apply (endsWithLiteral_exact (lit "a login {}") 0 false).
  vm_compute. discriminate.
Defined.


(** X13.  A PROXY protocol version 2 leader for TCP over IPv4.  When
    the connection begins with the twelve-octet signature, version 2
    with command PROXY, family 0x11 and length 12, the 28 octets of the
    header are taken off the read buffer, the source address and port
    become the peer and the destination address and port become this
    end of the connection, both in the order of the header; what
    follows the header is left for the IMAP parser. *)
Theorem proxy_leader_tcp4 (d : IMAP)
    (src dst sport dport rest : EString) :
  maybeProxy d = true ->
  length src = 4 -> length dst = 4 ->
  length sport = 2 -> length dport = 2 ->
  readBuffer d =
    v2sig ++ [ascii_of_nat 33; ascii_of_nat 17; ascii_of_nat 0;
              ascii_of_nat 12]
    ++ src ++ dst ++ sport ++ dport ++ rest ->
  maybeParseProxyLeader d =
    (true,
     set_real (Some (src ++ sport)) (Some (dst ++ dport))
       (set_maybeProxy false (set_readBuffer rest d))).
Proof.
  intros Hp Hs Hd Hsp Hdp Hb.
  destruct src as [|s1 [|s2 [|s3 [|s4 [|]]]]]; try discriminate.
  destruct dst as [|d1 [|d2 [|d3 [|d4 [|]]]]]; try discriminate.
  destruct sport as [|p1 [|p2 [|]]]; try discriminate.
  destruct dport as [|q1 [|q2 [|]]]; try discriminate.
  unfold maybeParseProxyLeader. rewrite Hp, Hb. reflexivity.
Qed.

Lemma proxy_leader_tcp4_example :
  maybeParseProxyLeader
    (set_readBuffer
       (v2sig ++ [ascii_of_nat 33; ascii_of_nat 17; ascii_of_nat 0;
                  ascii_of_nat 12]
        ++ proxiedSource ++ proxiedDestination
        ++ proxiedSourcePort ++ proxiedDestinationPort
        ++ lit "a noop" ++ CRLF)
       create) =
    (true,
     set_real (Some (proxiedSource ++ proxiedSourcePort))
              (Some (proxiedDestination ++ proxiedDestinationPort))
       (set_maybeProxy false
          (set_readBuffer (lit "a noop" ++ CRLF)
             (set_readBuffer
                (v2sig ++ [ascii_of_nat 33; ascii_of_nat 17; ascii_of_nat 0;
                           ascii_of_nat 12]
                 ++ proxiedSource ++ proxiedDestination
                 ++ proxiedSourcePort ++ proxiedDestinationPort
                 ++ lit "a noop" ++ CRLF)
                create)))).
Proof.
  apply (proxy_leader_tcp4 _ proxiedSource proxiedDestination
           proxiedSourcePort proxiedDestinationPort
           (lit "a noop" ++ CRLF));
    reflexivity.
Defined.

(** X14.  While the PROXY check is pending, IMAP::parse reads nothing
    in two cases: fewer than 16 octets have arrived, even if they are
    a complete command line; or the signature and version match and
    the header announces more than 216 octets of addresses, more than
    the header structure holds, however much input has arrived. *)
Theorem proxy_leader_waits (h : Handlers) (limit : Z) (fuel : nat)
    (d : IMAP) :
  maybeProxy d = true ->
  length (readBuffer d) < 16 \/
  (16 <= length (readBuffer d) /\
   firstn 12 (readBuffer d) = v2sig /\
   Nat.land (nat_of_ascii (at_ (readBuffer d) 12)) 240 = 32 /\
   216 < 256 * nat_of_ascii (at_ (readBuffer d) 14)
         + nat_of_ascii (at_ (readBuffer d) 15)) ->
  maybeParseProxyLeader d = (false, d) /\
  parse h limit fuel d = Some d.
Proof.
  intros Hp H.
  assert (E : maybeParseProxyLeader d = (false, d)).
  { unfold maybeParseProxyLeader. rewrite Hp. cbn [negb].
    destruct H as [Hshort | (Hlen & Hsig & Hver & Hbig)].
    - apply Nat.ltb_lt in Hshort. now rewrite Hshort.
    - assert (E1 : (length (readBuffer d) <? 16) = false)
        by (apply Nat.ltb_ge; exact Hlen).
      rewrite E1, Hsig, EStrFacts.eqb_refl, Hver. cbn [negb Nat.eqb].
      assert (E2 : (Nat.min sizeofHdr (length (readBuffer d))
                    <? 16 + (256 * nat_of_ascii (at_ (readBuffer d) 14)
                             + nat_of_ascii (at_ (readBuffer d) 15)))
                   = true).
      { apply Nat.ltb_lt. unfold sizeofHdr. lia. }
      now rewrite E2. }
  split; [exact E|]. unfold parse. now rewrite E.
Qed.

Lemma proxy_leader_waits_short_command :
  maybeParseProxyLeader shortFirstCommand = (false, shortFirstCommand) /\
  parse quietHandlers 1024 (parseFuel shortFirstCommand) shortFirstCommand
    = Some shortFirstCommand.
Proof.
  apply (proxy_leader_waits quietHandlers 1024
           (parseFuel shortFirstCommand) shortFirstCommand).
  - reflexivity.
  - left. cbn. lia.
Defined.

(** X15.  The PROXY check is made once.  When at least 16 octets have
    arrived and they do not begin with the signature, or the version
    is not 2, nothing is taken off the read buffer, no address is
    set, and the check is switched off; from then on
    maybeParseProxyLeader changes nothing and IMAP::parse is its
    loop.  In general a call that answers true leaves the check
    switched off, and a call that answers false changes nothing. *)
Theorem proxy_leader_passes (h : Handlers) (limit : Z) (fuel : nat)
    (d : IMAP) :
  (maybeProxy d = true ->
   16 <= length (readBuffer d) ->
   firstn 12 (readBuffer d) <> v2sig \/
   Nat.land (nat_of_ascii (at_ (readBuffer d) 12)) 240 <> 32 ->
   maybeParseProxyLeader d = (true, set_maybeProxy false d) /\
   parse h limit fuel d = parseLoop h limit fuel (set_maybeProxy false d)) /\
  (maybeProxy d = false ->
   maybeParseProxyLeader d = (true, d) /\
   parse h limit fuel d = parseLoop h limit fuel d) /\
  (fst (maybeParseProxyLeader d) = true ->
   maybeProxy (snd (maybeParseProxyLeader d)) = false) /\
  (fst (maybeParseProxyLeader d) = false ->
   snd (maybeParseProxyLeader d) = d).
Proof.
  split; [|split].
  - intros Hp Hlen H.
    assert (E : maybeParseProxyLeader d = (true, set_maybeProxy false d)).
    { unfold maybeParseProxyLeader. rewrite Hp. cbn [negb].
      assert (E1 : (length (readBuffer d) <? 16) = false)
        by (apply Nat.ltb_ge; exact Hlen).
      rewrite E1.
      destruct (eqb (firstn 12 (readBuffer d)) v2sig) eqn:Es;
        cbn [negb]; [|reflexivity].
      destruct H as [H|H].
      - apply EStrFacts.eqb_eq in Es. contradiction.
      - apply Nat.eqb_neq in H. now rewrite H. }
    split; [exact E|]. unfold parse. now rewrite E.
  - intros Hp.
    assert (E : maybeParseProxyLeader d = (true, d))
      by (unfold maybeParseProxyLeader; now rewrite Hp).
    split; [exact E|]. unfold parse. now rewrite E.
  - assert (G : (fst (maybeParseProxyLeader d) = true ->
                 maybeProxy (snd (maybeParseProxyLeader d)) = false) /\
                (fst (maybeParseProxyLeader d) = false ->
                 snd (maybeParseProxyLeader d) = d)).
    { unfold maybeParseProxyLeader.
      destruct (maybeProxy d) eqn:Hp; cbn [negb].
      2:{ cbn [fst snd]. split; [intros _; exact Hp | discriminate]. }
      destruct (length (readBuffer d) <? 16);
        [cbn [fst snd]; split; [discriminate | reflexivity]|].
      destruct (negb (eqb (firstn 12 (readBuffer d)) v2sig));
        [cbn [fst snd]; split; [reflexivity | discriminate]|].
      destruct (negb (Nat.land (nat_of_ascii (at_ (readBuffer d) 12)) 240
                      =? 32));
        [cbn [fst snd]; split; [reflexivity | discriminate]|].
      destruct (Nat.min sizeofHdr (length (readBuffer d))
                <? 16 + (256 * nat_of_ascii (at_ (readBuffer d) 14)
                         + nat_of_ascii (at_ (readBuffer d) 15)));
        [cbn [fst snd]; split; [discriminate | reflexivity]|].
      destruct (Nat.land (nat_of_ascii (at_ (readBuffer d) 12)) 15)
        as [|[|k]];
        try (cbn [fst snd]; split; [reflexivity | discriminate]).
      destruct (nat_of_ascii (at_ (readBuffer d) 13) =? 17);
        [cbn [fst snd]; split; [reflexivity | discriminate]|].
      destruct (nat_of_ascii (at_ (readBuffer d) 13) =? 33);
        cbn [fst snd]; split; try reflexivity; discriminate. }
    exact G.
Qed.


(** X16.  A literal above the size limit is not read as a literal.
    When a line announces N octets and N exceeds
    ImapParser::literalSizeLimit(), no continuation request is
    written and the literal-reading state is not entered: the line,
    with CRLF appended, goes to addCommand at once, and the octets
    that follow stay in the read buffer, to be read as lines. *)
Theorem oversized_literal_not_read (h : Handlers) (limit : Z) (d : IMAP)
    (pre ds rest : EString) (plus : bool) (n : Z) :
  readingLine d = true ->
  removeLine 0 (readBuffer d) =
    Some (pre ++ "{"%char :: ds
              ++ (if plus then ["+"%char] else []) ++ ["}"%char],
          rest) ->
  (Z.of_nat
     (length (pre ++ "{"%char :: ds
                  ++ (if plus then ["+"%char] else []) ++ ["}"%char]))
   <= UINT_MAX)%Z ->
  number ds = Some n ->
  (limit < n)%Z ->
  parseTurn h limit d =
    Again
      (set_str []
         (addCommand h
            (set_str
               ((str d ++ pre ++ "{"%char :: ds
                       ++ (if plus then ["+"%char] else []) ++ ["}"%char])
                ++ CRLF)
               (set_readBuffer rest d)))) /\
  writeBuffer
    (set_str
       ((str d ++ pre ++ "{"%char :: ds
               ++ (if plus then ["+"%char] else []) ++ ["}"%char])
        ++ CRLF)
       (set_readBuffer rest d)) = writeBuffer d /\
  readingLiteral
    (set_str
       ((str d ++ pre ++ "{"%char :: ds
               ++ (if plus then ["+"%char] else []) ++ ["}"%char])
        ++ CRLF)
       (set_readBuffer rest d)) = false.
Proof.
  intros Hrl Hline HL Hn Hbig.
  assert (Hlit : readingLiteral d = false).
  { unfold readingLine in Hrl. apply andb_prop in Hrl as [H _].
    now apply negb_true_iff in H. }
  split; [|split; [reflexivity | exact Hlit]].
  unfold parseTurn. rewrite Hrl, Hline.
  rewrite (FramingSpec.endsWithLiteral_spec pre ds plus n Hn HL).
  assert (E : (n <=? limit)%Z = false) by lia.
  rewrite E. cbn [readingLiteral set_str set_readBuffer].
  rewrite Hlit. reflexivity.
Qed.

Lemma oversized_literal_not_read_append :
  parseTurn quietHandlers 1024 hugeLiteral =
    Again
      (set_str []
         (addCommand quietHandlers
            (set_str
               ((str hugeLiteral ++ lit "a append x " ++ "{"%char
                   :: lit "99999" ++ [] ++ ["}"%char])
                ++ CRLF)
               (set_readBuffer (lit "From: me") hugeLiteral)))).
Proof.
  apply (oversized_literal_not_read quietHandlers 1024 hugeLiteral
           (lit "a append x ") (lit "99999") (lit "From: me") false 99999).
  - reflexivity.
  - reflexivity.
  - vm_compute. discriminate.
  - reflexivity.
  - reflexivity.
Defined.

Lemma parseLoop_more (h : Handlers) (limit : Z) :
  forall fuel d d',
    parseLoop h limit fuel d = Some d' ->
    forall k, parseLoop h limit (fuel + k) d = Some d'.
Proof.
  induction fuel as [|fuel IH]; intros d d' H k; [discriminate|].
  cbn [parseLoop Nat.add] in *.
  destruct (parseTurn h limit d) as [d1|d1]; [exact H|].
  now apply IH.
Qed.

(** X17.  IMAP::parse returns.  With command handlers that put
    nothing into the read buffer and leave the literal-reading state
    alone, the loop of IMAP::parse comes to its return within
    3 * size + 3 turns for a read buffer of size octets, and its result
    is the same for any larger bound: every turn takes octets off the
    buffer, ends a literal or hands the input to the reserving
    command. *)
Theorem parse_total (h : Handlers) (limit : Z) (d : IMAP) :
  framingSafe h ->
  exists d', forall fuel,
    parseFuel d <= fuel -> parse h limit fuel d = Some d'.
Proof.
  intros Hs.
  destruct (FramingSpec.parse_returns h limit d Hs) as [d' Hd].
  exists d'. intros fuel Hf.
  replace fuel with (parseFuel d + (fuel - parseFuel d)) by lia.
  unfold parse in *.
  destruct (maybeParseProxyLeader d) as [cont d1].
  destruct (negb cont); [exact Hd|].
  now apply parseLoop_more.
Qed.

Lemma parse_total_login :
  exists d', forall fuel,
    parseFuel literalPlusLogin <= fuel ->
    parse quietHandlers 1024 fuel literalPlusLogin = Some d'.
Proof.
  apply (parse_total quietHandlers 1024 literalPlusLogin).
  split.
  - intros d. repeat split.
  - intros i d. split; [apply Nat.le_refl | reflexivity].
Defined.

Lemma emitLoop_kept (can : bool) (rs : list ImapResponse.t) :
  forall acc,
    kept (emitLoop can rs acc) =
      kept acc
      ++ filter (fun r => ImapResponse.meaningful r
                          && negb (ImapResponse.sent r)
                          && ImapResponse.changesMsn r && negb can) rs.
Proof.
  induction rs as [|r rs IH]; intros acc.
  - cbn. now rewrite app_nil_r.
  - cbn [emitLoop filter].
    destruct r as [m c st tx]; destruct m, c, st, can;
      cbn [ImapResponse.meaningful ImapResponse.sent ImapResponse.changesMsn
           ImapResponse.text ImapResponse.setSent negb andb orb];
      try destruct (isEmpty tx); cbn [negb];
      rewrite IH; cbn [kept]; rewrite <- ?app_assoc; reflexivity.
Qed.

Lemma emitLoop_emitted_list (can : bool) (rs : list ImapResponse.t) :
  forall acc,
    emitted (emitLoop can rs acc) =
      emitted acc
      ++ filter (fun r => ImapResponse.meaningful r
                          && negb (ImapResponse.sent r)
                          && (can || negb (ImapResponse.changesMsn r))
                          && negb (isEmpty (ImapResponse.text r))) rs.
Proof.
  induction rs as [|r rs IH]; intros acc.
  - cbn. now rewrite app_nil_r.
  - cbn [emitLoop filter].
    destruct r as [m c st tx]; destruct m, c, st, can;
      cbn [ImapResponse.meaningful ImapResponse.sent ImapResponse.changesMsn
           ImapResponse.text ImapResponse.setSent negb andb orb];
      try destruct (isEmpty tx); cbn [negb];
      rewrite IH; cbn [emitted]; rewrite <- ?app_assoc; reflexivity.
Qed.

Lemma emitLoop_deferred_again (rs : list ImapResponse.t) :
  Forall (fun r => ImapResponse.meaningful r = true /\
                   ImapResponse.sent r = false /\
                   ImapResponse.changesMsn r = true) rs ->
  forall acc,
    emitLoop false rs acc =
      {| kept := kept acc ++ rs; written := written acc; any := any acc;
         emitted := emitted acc |}.
Proof.
  induction 1 as [|r rs (Hm & Hs & Hc) _ IH]; intros acc.
  - cbn. rewrite app_nil_r. now destruct acc.
  - cbn [emitLoop]. rewrite Hm, Hs, Hc. cbn [negb andb orb].
    rewrite Hs. rewrite IH. cbn [kept written any emitted].
    now rewrite <- app_assoc.
Qed.

(** X18.  The response queue loses nothing and keeps its order.  One
    pass of the second loop of emitResponses writes, in queue order,
    exactly the meaningful unsent responses with a non-empty text that
    either do not change MSNs or may be sent now; it keeps, in queue
    order, exactly the meaningful unsent responses that change MSNs
    when expunges are not permitted, and drops the rest (sent, or no
    longer meaningful).  When expunges are permitted nothing is kept.
    A second pass over what was kept, while expunges are still not
    permitted, writes nothing and keeps everything. *)
Theorem deferred_responses (can : bool) (rs : list ImapResponse.t) :
  kept (emitLoop can rs noEmission) =
    filter (fun r => ImapResponse.meaningful r
                     && negb (ImapResponse.sent r)
                     && ImapResponse.changesMsn r && negb can) rs /\
  emitted (emitLoop can rs noEmission) =
    filter (fun r => ImapResponse.meaningful r
                     && negb (ImapResponse.sent r)
                     && (can || negb (ImapResponse.changesMsn r))
                     && negb (isEmpty (ImapResponse.text r))) rs /\
  (can = true -> kept (emitLoop can rs noEmission) = []) /\
  emitLoop false (kept (emitLoop false rs noEmission)) noEmission =
    {| kept := kept (emitLoop false rs noEmission); written := [];
       any := false; emitted := [] |}.
Proof.
  split; [apply (emitLoop_kept can rs noEmission)|].
  split; [apply (emitLoop_emitted_list can rs noEmission)|].
  split.
  - intros ->. rewrite emitLoop_kept. cbn [kept noEmission app].
    induction rs as [|r rs IH]; [reflexivity|].
    cbn [filter]. rewrite !andb_false_r. exact IH.
  - rewrite emitLoop_deferred_again; [reflexivity|].
    rewrite emitLoop_kept. cbn [kept noEmission app].
    apply Forall_forall. intros r Hr. apply filter_In in Hr as [_ Hr].
    rewrite andb_true_r in Hr.
    apply andb_prop in Hr as [Hr Hc]. apply andb_prop in Hr as [Hm Hs].
    apply negb_true_iff in Hs. auto.
Qed.


Lemma state_eqb_eq (a b : Command.State) :
  Command.state_eqb a b = true -> a = b.
Proof. destruct a, b; intros H; try reflexivity; discriminate. Qed.

Lemma lookup_set (i j : nat) (s : Command.State) (d : IMAP) :
  lookupCommand j (setCommandState i s d) =
    option_map
      (fun c => if Command.id c =? i then Command.setState s c else c)
      (lookupCommand j d).
Proof.
  unfold lookupCommand, setCommandState. cbn [commands set_commands].
  induction (commands d) as [|c cs IH]; [reflexivity|].
  cbn [map List.find].
  assert (E : Command.id
                (if Command.id c =? i then Command.setState s c else c)
              = Command.id c)
    by (destruct (Command.id c =? i); reflexivity).
  rewrite E. destruct (Command.id c =? j); [reflexivity | exact IH].
Qed.

Lemma stateIs_set (i j : nat) (s st : Command.State) (d : IMAP) :
  stateIs j st (setCommandState i s d) = true ->
  st = s \/ stateIs j st d = true.
Proof.
  unfold stateIs. rewrite lookup_set.
  destruct (lookupCommand j d) as [c|]; cbn [option_map]; [|discriminate].
  destruct (Command.id c =? i); [|now right].
  cbn. intros H. left. symmetry. now apply state_eqb_eq.
Qed.

Lemma stateIs_excl (i : nat) (s s' : Command.State) (d : IMAP) :
  stateIs i s d = true -> s <> s' -> stateIs i s' d = false.
Proof.
  unfold stateIs. destruct (lookupCommand i d) as [c|]; [|discriminate].
  intros H Hne. apply state_eqb_eq in H. rewrite H.
  destruct s, s'; try reflexivity; contradiction.
Qed.

Lemma executing_kept_set (i : nat) (s : Command.State) (d : IMAP)
    (x : Command.t) :
  s <> Command.Executing ->
  In x (commands (setCommandState i s d)) ->
  Command.state x = Command.Executing ->
  In x (commands d).
Proof.
  intros Hs Hin Hx. unfold setCommandState in Hin.
  cbn [commands set_commands] in Hin.
  apply in_map_iff in Hin as (y & Hy & Hin).
  destruct (Command.id y =? i).
  - subst x. cbn in Hx. congruence.
  - now subst x.
Qed.

Lemma promote_started (h : Handlers) (c : nat) (d : IMAP) :
  stateIs c Command.Unparsed d = false ->
  stateIs c Command.Blocked d = false ->
  promote h c d = d \/ promote h c d = setCommandState c Command.Finished d.
Proof.
  intros H1 H2. unfold promote. rewrite H1.
  unfold stateIs in H1, H2.
  destruct (lookupCommand c d) as [x|]; [|now left].
  destruct (Command.ok x); cbn [negb]; [|now right].
  rewrite H1, H2. now left.
Qed.

Lemma followers_start_nothing (h : Handlers) (first : nat) :
  forall ids d,
    stateIs first Command.Unparsed d = false ->
    stateIs first Command.Blocked d = false ->
    forall x,
      In x (commands (followers h first ids d)) ->
      Command.state x = Command.Executing ->
      In x (commands d).
Proof.
  induction ids as [|c rest IH]; intros d H1 H2 x Hin Hx; [exact Hin|].
  cbn [followers] in Hin.
  destruct (sameState first c d) eqn:Esame; [|exact Hin].
  assert (Hc : stateIs c Command.Unparsed d = false /\
               stateIs c Command.Blocked d = false).
  { unfold sameState in Esame. unfold stateIs in *.
    destruct (lookupCommand first d) as [a|]; [|discriminate].
    destruct (lookupCommand c d) as [b|]; [|discriminate].
    apply state_eqb_eq in Esame. rewrite <- Esame. auto. }
  destruct Hc as [Hc1 Hc2].
  assert (Hkeep : forall y,
            In y (commands (promote h c d)) ->
            Command.state y = Command.Executing -> In y (commands d)).
  { intros y Hy Hs.
    destruct (promote_started h c d Hc1 Hc2) as [E|E]; rewrite E in Hy.
    - exact Hy.
    - apply (executing_kept_set c Command.Finished d y); auto.
      discriminate. }
  assert (Hp : stateIs first Command.Unparsed (promote h c d) = false /\
               stateIs first Command.Blocked (promote h c d) = false).
  { destruct (promote_started h c d Hc1 Hc2) as [E|E]; rewrite E.
    - auto.
    - split.
      + destruct (stateIs first Command.Unparsed
                    (setCommandState c Command.Finished d)) eqn:E1;
          [|reflexivity].
        apply stateIs_set in E1 as [E1|E1]; [discriminate | congruence].
      + destruct (stateIs first Command.Blocked
                    (setCommandState c Command.Finished d)) eqn:E1;
          [|reflexivity].
        apply stateIs_set in E1 as [E1|E1]; [discriminate | congruence]. }
  destruct Hp as [Hp1 Hp2].
  destruct (negb (groupOf c (promote h c d) =? groupOf first (promote h c d))
            && stateIs c Command.Executing (promote h c d)).
  - apply Hkeep; [|exact Hx].
    apply (executing_kept_set c Command.Blocked (promote h c d) x); auto.
    discriminate.
  - apply Hkeep; [|exact Hx]. now apply (IH (promote h c d)).
Qed.

(** X19.  One start per pass.  In a pass of runCommands nothing but
    the first command of the queue is parsed and started: once the
    first command has been dealt with, every command that is Executing
    at the end of the pass was Executing already.  The loop over the
    followers goes on only while a follower is in the state of the
    leader, which is Executing (or Retired), so a follower that is
    Unparsed or Blocked is neither parsed nor started there; the loop
    can only finish a follower that is not ok() and block one of
    another group. *)
Theorem one_start_per_pass (h : Handlers) (d : IMAP) (x : Command.t) :
  In x (commands (startCommands h d)) ->
  Command.state x = Command.Executing ->
  In x (commands
          (match map Command.id (commands d) with
           | [] => d
           | f :: _ =>
               if negb (stateIs f Command.Retired d) then promote h f d
               else d
           end)).
Proof.
  intros Hin Hx. unfold startCommands in Hin.
  destruct (map Command.id (commands d)) as [|f rest]; [exact Hin|].
  destruct (negb (stateIs f Command.Retired d)) eqn:Er.
  - destruct (stateIs f Command.Executing (promote h f d)) eqn:Ex;
      [|exact Hin].
    destruct (negb (groupOf f (promote h f d) =? 0)); [|exact Hin].
    apply (followers_start_nothing h f rest (promote h f d)); auto.
    + apply (stateIs_excl f Command.Executing); [exact Ex | discriminate].
    + apply (stateIs_excl f Command.Executing); [exact Ex | discriminate].
  - apply negb_false_iff in Er.
    destruct (negb (groupOf f d =? 0)); [|exact Hin].
    apply (followers_start_nothing h f (f :: rest) d); auto.
    + apply (stateIs_excl f Command.Retired); [exact Er | discriminate].
    + apply (stateIs_excl f Command.Retired); [exact Er | discriminate].
Qed.

Lemma one_start_per_pass_uid_fetches :
  In {| Command.id := 1; Command.tag := lit "A1";
        Command.name := lit "uid fetch"; Command.group := 1;
        Command.state := Command.Executing;
        Command.usesMsn := false; Command.ok := true |}
     (commands (promote quietHandlers 1 (set_commands twoUidFetches create))).
Proof.
  apply (one_start_per_pass quietHandlers
           (set_commands twoUidFetches create)
           {| Command.id := 1; Command.tag := lit "A1";
              Command.name := lit "uid fetch"; Command.group := 1;
              Command.state := Command.Executing;
              Command.usesMsn := false; Command.ok := true |}).
  - vm_compute. now left.
  - reflexivity.
Defined.

(** X20.  A user without an inbox never gets a command started.  For
    such a user the delay that runCommands computes is raised to 4
    whenever it is below 4, at whatever time the pass is made, so with
    a command in the queue every pass arms a BadBouncer timer and
    returns before anything is parsed or started, and the pass that
    the timer starts does the same. *)
Theorem no_inbox_never_starts (h : Handlers) (e : Env) (d : IMAP)
    (u : User) :
  user (beforeDelay h d) = Some u ->
  inbox u = false ->
  commands (beforeDelay h d) <> [] ->
  (4 <= delayNeeded e (beforeDelay h d))%Z /\
  runCommandsPass h e d =
    Delayed
      (set_running false (runCommandsAgain (beforeDelay h d))
         (newTimer (BadBouncer (delayNeeded e (beforeDelay h d)))
                   (beforeDelay h d))) /\
  commands
    (set_running false (runCommandsAgain (beforeDelay h d))
       (newTimer (BadBouncer (delayNeeded e (beforeDelay h d)))
                 (beforeDelay h d)))
    = commands (beforeDelay h d).
Proof.
  intros Hu Hi Hc.
  assert (H4 : (4 <= delayNeeded e (beforeDelay h d))%Z).
  { unfold delayNeeded. rewrite Hu, Hi. cbn [negb andb].
    match goal with
    | |- context [(?x <? 4)%Z] => destruct (Z.ltb_spec x 4)
    end; lia. }
  split; [exact H4|]. split; [|reflexivity].
  unfold runCommandsPass.
  assert (E : (delayNeeded e (beforeDelay h d) >? 0)%Z = true) by lia.
  rewrite E.
  destruct (commands (beforeDelay h d)); [contradiction | reflexivity].
Qed.

Lemma no_inbox_never_starts_noop :
  runCommandsPass quietHandlers atThousand withoutInbox =
    Delayed
      (set_running false false
         (newTimer (BadBouncer 4) (beforeDelay quietHandlers withoutInbox))).
Proof.
  destruct (no_inbox_never_starts quietHandlers atThousand withoutInbox
              {| inbox := false |}) as (_ & H & _).
  - reflexivity.
  - reflexivity.
  - cbn. discriminate.
  - exact H.
Defined.






End ImapMoreSpec.

(** ** The SMTP server's line limit, exactly
    (src/smtp/deliveryagent.cpp, SMTP::parseCommand) *)

Module SmtpLineSpec.
Import EStr Buffer Smtp SmtpExamples.





End SmtpLineSpec.
